(** * The GSUB table decoder of opentype.js ([src/tables/gsub.js])

    A shallow embedding of the [GSUB] subtable parsers, of the dispatch
    table [subtableParsers] and of [parseGsubTable], with the properties
    of the decoder stated and proved over it.

    JavaScript numbers that hold byte values, glyph ids, counts and
    offsets are integers far below 2^53 and are modelled as [Z].  A
    [DataView] is a list of bytes; a read outside of it throws a
    [RangeError], as the platform's [DataView] accessors do.  The
    mutable [Parser] object becomes a state that is threaded through a
    small state-and-exception monad. *)

From Stdlib Require Import ZArith List String Ascii Bool Lia QArith.
From Stdlib Require Import Strings.Byte Strings.HexString Numbers.DecimalString.
Import ListNotations.

#[local] Open Scope string_scope.
#[local] Open Scope Z_scope.

(** ** Exceptions and outcomes *)

(** What a JavaScript [throw] can carry in this program: the [Error]
    built by [check.fail] with its message, the [RangeError] of an
    out-of-bounds [DataView] read or of [new Array] with an invalid
    length, and the [TypeError] of calling [undefined]. *)
Inductive exn : Type :=
| Error (message : string)
| RangeError
| TypeError.

(** The outcome of running a piece of the decoder: it returns a value,
    it throws, or the nesting budget of the type 7 re-entry ran out
    before it finished. *)
Inductive outcome (A : Type) : Type :=
| Return (a : A)
| Throw (e : exn)
| OutOfFuel.

Arguments Return {A} a.
Arguments Throw {A} e.
Arguments OutOfFuel {A}.

(** ** The byte buffer *)

Definition DataView : Type := list byte.

Definition getUint8 (d : DataView) (byteOffset : Z) : option Z :=
  if byteOffset <? 0 then None
  else option_map (fun b => Z.of_N (Byte.to_N b)) (nth_error d (Z.to_nat byteOffset)).

(** Big-endian, as [DataView.getUint16(byteOffset)] without a
    little-endian flag. *)
Definition getUint16 (d : DataView) (byteOffset : Z) : option Z :=
  match getUint8 d byteOffset, getUint8 d (byteOffset + 1) with
  | Some hi, Some lo => Some (hi * 256 + lo)
  | _, _ => None
  end.

(** Two's complement reading of the same two bytes. *)
Definition getInt16 (d : DataView) (byteOffset : Z) : option Z :=
  match getUint16 d byteOffset with
  | Some u => Some (if u <? 32768 then u else u - 65536)
  | None => None
  end.

Definition getUint32 (d : DataView) (byteOffset : Z) : option Z :=
  match getUint16 d byteOffset, getUint16 d (byteOffset + 2) with
  | Some hi, Some lo => Some (hi * 65536 + lo)
  | _, _ => None
  end.

(** ** The parser object and its monad *)

(** [new Parser(data, offset)]: [relativeOffset] starts at 0. *)
Record Parser : Type := mkParser {
  data : DataView;
  offset : Z;
  relativeOffset : Z
}.

Definition newParser (d : DataView) (o : Z) : Parser := mkParser d o 0.

Definition M (A : Type) : Type := Parser -> outcome (A * Parser).

Definition ret {A : Type} (a : A) : M A := fun p => Return (a, p).

Definition bind {A B : Type} (m : M A) (k : A -> M B) : M B :=
  fun p =>
    match m p with
    | Return (a, p') => k a p'
    | Throw e => Throw e
    | OutOfFuel => OutOfFuel
    end.

Definition throw {A : Type} (e : exn) : M A := fun _ => Throw e.

Declare Scope parser_scope.
Delimit Scope parser_scope with parser.
Notation "x <- c1 ;; c2" := (bind c1 (fun x => c2))
  (at level 61, c1 at next level, right associativity) : parser_scope.
Notation "c1 ;;; c2" := (bind c1 (fun _ => c2))
  (at level 61, right associativity) : parser_scope.
#[local] Open Scope parser_scope.

(** Read or set [this.relativeOffset]. *)
Definition getRelativeOffset : M Z := fun p => Return (relativeOffset p, p).

Definition setRelativeOffset (r : Z) : M unit :=
  fun p => Return (tt, mkParser (data p) (offset p) r).

(** The absolute position [this.offset + this.relativeOffset]. *)
Definition position (p : Parser) : Z := offset p + relativeOffset p.

Definition advance (n : Z) (p : Parser) : Parser :=
  mkParser (data p) (offset p) (relativeOffset p + n).

(** ** [check] *)

(** Modelled from the spec: [check.argument] and [check.assert] of
    [src/check.js], which is not among the sources; the decoders "fail
    fast" with a "parse error" that is "fatal to the enclosing decode
    call".  Both are called as [check.f(predicate, message)]: when the
    predicate is false an [Error] carrying the message is thrown. *)
Definition check_argument (predicate : bool) (message : string) : M unit :=
  if predicate then ret tt else throw (Error message).

Definition check_assert (predicate : bool) (message : string) : M unit :=
  check_argument predicate message.

(** [n.toString(16)] on an integer: lower-case digits, no prefix, no
    leading zero. *)
Definition toString16 (n : Z) : string :=
  match n with
  | Z0 => "0"
  | Zpos p => HexString.Raw.of_pos p ""
  | Zneg p => "-" ++ HexString.Raw.of_pos p ""
  end.

(** ** The primitive decoder *)

(** [new Array(count)] throws a [RangeError] unless [count] is an
    integer in [0, 2^32 - 1]. *)
Definition newArray (count : Z) : M unit :=
  if (0 <=? count) && (count <? 4294967296) then ret tt else throw RangeError.

(** Modelled from the spec: [Parser.prototype.parseUShort] of
    [src/parse.js], which is not among the sources: "read fixed-width
    unsigned/signed integers advancing a position"; the value is the
    big-endian 16-bit word at [offset + relativeOffset], and a read
    that "runs past the supplied buffer" fails. *)
Definition parseUShort : M Z :=
  fun p =>
    match getUint16 (data p) (position p) with
    | Some v => Return (v, advance 2 p)
    | None => Throw RangeError
    end.

Definition parseOffset16 : M Z := parseUShort.

(** Modelled from the spec: [Parser.prototype.parseShort] of
    [src/parse.js], the signed counterpart of [parseUShort]. *)
Definition parseShort : M Z :=
  fun p =>
    match getInt16 (data p) (position p) with
    | Some v => Return (v, advance 2 p)
    | None => Throw RangeError
    end.

(** Modelled from the spec: [Parser.prototype.parseULong] of
    [src/parse.js], the unsigned 32-bit read behind the "wide
    (32-bit-relative) offset" of lookup type 7. *)
Definition parseULong : M Z :=
  fun p =>
    match getUint32 (data p) (position p) with
    | Some v => Return (v, advance 4 p)
    | None => Throw RangeError
    end.

(** [n] items read one after the other by [item]. *)
Fixpoint repeatM {A : Type} (n : nat) (item : M A) : M (list A) :=
  match n with
  | O => ret []
  | S n' => x <- item;; xs <- repeatM n' item;; ret (x :: xs)
  end.

Fixpoint mapM {A B : Type} (f : A -> M B) (l : list A) : M (list B) :=
  match l with
  | [] => ret []
  | a :: l' => x <- f a;; xs <- mapM f l';; ret (x :: xs)
  end.

(** An optional leading [count] argument: when it is omitted the count
    is "read on the stream". *)
Definition countOrRead (count : option Z) : M Z :=
  match count with
  | Some c => ret c
  | None => parseUShort
  end.

(** Modelled from the spec: [Parser.prototype.parseList] of
    [src/parse.js]: "n then n items" -- read a 16-bit count (unless the
    caller supplies it), "then that many items via a supplied
    item-decoding routine".  The result array is allocated with
    [new Array(count)] before the items are read. *)
Definition parseList {A : Type} (count : option Z) (itemCallback : M A) : M (list A) :=
  count <- countOrRead count;;
  newArray count;;;
  repeatM (Z.to_nat count) itemCallback.

(** Modelled from the spec: [Parser.prototype.parseUShortList] of
    [src/parse.js] (also named [parseOffset16List]): the "list preceded
    by its own count" of 16-bit values, or [count] of them when the
    caller passes the count. *)
Definition parseUShortList (count : option Z) : M (list Z) :=
  parseList count parseUShort.

Definition parseOffset16List : M (list Z) := parseUShortList None.

(** Modelled from the spec: [Parser.prototype.parseRecordList] of
    [src/parse.js]: the "fixed-width record arrays"; [record] reads the
    fields of one record in the order of the record description. *)
Definition parseRecordList {R : Type} (count : option Z) (record : M R) : M (list R) :=
  parseList count record.

(** Modelled from the spec: [Parser.prototype.parsePointer] of
    [src/parse.js]: "given a sub-decoding routine, read a 16-bit
    relative offset and, if nonzero, invoke the routine at the resolved
    absolute position, returning its result (and, if the offset is zero,
    signal absent rather than invoking)"; "absolute offset = base +
    stored relative offset".  The routine runs on a parser of its own,
    so the caller's cursor only moves past the two offset bytes. *)
Definition parsePointer {A : Type} (description : M A) : M (option A) :=
  fun p =>
    match parseOffset16 p with
    | Return (structOffset, p') =>
        if 0 <? structOffset then
          match description (newParser (data p') (offset p' + structOffset)) with
          | Return (v, _) => Return (Some v, p')
          | Throw e => Throw e
          | OutOfFuel => OutOfFuel
          end
        else Return (None, p')
    | Throw e => Throw e
    | OutOfFuel => OutOfFuel
    end.

(** Modelled from the spec: the frame shared by the two uses of
    [Parser.prototype.parseListOfLists] of [src/parse.js]: "read a
    16-bit count, then that many 16-bit offsets, then for each offset
    ... invoke a supplied item-list decoding routine".  A zero offset
    gives [undefined]; otherwise the cursor is moved to the offset,
    relative to the parser's base, and [sub] reads the inner list; at
    the end the cursor is put back after the offsets. *)
Definition parseListOfListsWith {A : Type} (sub : Z -> M (list A)) : M (list (option (list A))) :=
  offsets <- parseOffset16List;;
  relOffset <- getRelativeOffset;;
  list <- mapM (fun start =>
                  if start =? 0 then ret None
                  else setRelativeOffset start;;;
                       subList <- sub start;;
                       ret (Some subList)) offsets;;
  setRelativeOffset relOffset;;;
  ret list.

(** Modelled from the spec: [Parser.prototype.parseListOfLists] of
    [src/parse.js] called without an item routine: "list of pointers to
    lists" -- "read a 16-bit count, then that many 16-bit offsets, then
    for each offset ... invoke a supplied item-list decoding routine
    (itself an n then n items read), producing an array of arrays"; here
    the inner lists are lists of 16-bit values. *)
Definition parseListOfLists : M (list (option (list Z))) :=
  parseListOfListsWith (fun _ => parseUShortList None).

(** Modelled from the spec: [Parser.prototype.parseListOfLists] of
    [src/parse.js] called with an item routine: each inner list is
    itself a counted list of 16-bit offsets, relative to the start of
    the inner list, and [itemCallback] reads one item at each of them. *)
Definition parseListOfListsOf {A : Type} (itemCallback : M A) : M (list (option (list A))) :=
  parseListOfListsWith
    (fun start =>
       subOffsets <- parseOffset16List;;
       mapM (fun subOffset => setRelativeOffset (start + subOffset);;; itemCallback) subOffsets).

(** Modelled from the spec: [check.assert(false, message)] as the last
    statement of a routine ([src/check.js] is not among the sources):
    the "parse error" is thrown and the call never returns. *)
Definition check_assert_false {A : Type} (message : string) : M A :=
  throw (Error message).

(** ** The shared structure decoders *)

Record RangeRecord : Type := mkRangeRecord {
  range_start : Z;
  range_end : Z;
  range_index : Z
}.

Inductive Coverage : Type :=
| CoverageFormat1 (glyphs : list Z)
| CoverageFormat2 (ranges : list RangeRecord).

Definition parseRangeRecord : M RangeRecord :=
  s <- parseUShort;;
  e <- parseUShort;;
  i <- parseUShort;;
  ret (mkRangeRecord s e i).

(** Modelled from the spec: [Parser.coverage] ([parseCoverage]) of
    [src/parse.js]: "reads a 16-bit format discriminant; format 1 reads
    n then n glyph ids ...; format 2 reads n then n (start, end,
    startOrdinal) range records ... Unsupported format: parse error." *)
Definition parseCoverage : M Coverage :=
  fun p =>
    let startOffset := position p in
    (format <- parseUShort;;
     if format =? 1 then
       glyphs <- parseUShortList None;; ret (CoverageFormat1 glyphs)
     else if format =? 2 then
       ranges <- parseRecordList None parseRangeRecord;; ret (CoverageFormat2 ranges)
     else
       check_assert_false
         ("0x" ++ toString16 startOffset ++ ": Coverage format must be 1 or 2.")%string) p.

Inductive ClassDef : Type :=
| ClassDefFormat1 (startGlyph : Z) (classes : list Z)
| ClassDefFormat2 (ranges : list RangeRecord).

(** Modelled from the spec: [Parser.classDef] ([parseClassDef]) of
    [src/parse.js]: "format 1 reads a start glyph id and n then n class
    numbers ...; format 2 reads n then n (start, end, class) range
    records. Unsupported format: parse error." *)
Definition parseClassDef : M ClassDef :=
  fun p =>
    let startOffset := position p in
    (format <- parseUShort;;
     if format =? 1 then
       startGlyph <- parseUShort;;
       classes <- parseUShortList None;;
       ret (ClassDefFormat1 startGlyph classes)
     else if format =? 2 then
       ranges <- parseRecordList None parseRangeRecord;; ret (ClassDefFormat2 ranges)
     else
       check_assert_false
         ("0x" ++ toString16 startOffset ++ ": ClassDef format must be 1 or 2.")%string) p.

(** ** The decoded subtables *)

(** [{ sequenceIndex, lookupListIndex }] *)
Record LookupRecord : Type := mkLookupRecord {
  sequenceIndex : Z;
  lookupListIndex : Z
}.

(** [{ ligGlyph, components }] *)
Record Ligature : Type := mkLigature {
  ligGlyph : Z;
  components : list Z
}.

(** [{ input, lookupRecords }] of lookup type 5 format 1. *)
Record ContextRule : Type := mkContextRule {
  rule_input : list Z;
  rule_lookupRecords : list LookupRecord
}.

(** [{ classes, lookupRecords }] of lookup type 5 format 2. *)
Record ContextClassRule : Type := mkContextClassRule {
  rule_classes : list Z;
  classRule_lookupRecords : list LookupRecord
}.

(** [{ backtrack, input, lookahead, lookupRecords }] of lookup type 6
    formats 1 and 2. *)
Record ChainRule : Type := mkChainRule {
  chain_backtrack : list Z;
  chain_input : list Z;
  chain_lookahead : list Z;
  chain_lookupRecords : list LookupRecord
}.

(** One constructor per object literal that a subtable parser returns;
    the arguments are its fields, in the order of the literal.  A field
    read through [parsePointer] is [None] where JavaScript has
    [undefined]. *)
Inductive Subtable : Type :=
| Single1 (substFormat : Z) (coverage : option Coverage) (deltaGlyphId : Z)
| Single2 (substFormat : Z) (coverage : option Coverage) (substitute : list Z)
| Multiple (substFormat : Z) (coverage : option Coverage)
    (sequences : list (option (list Z)))
| Alternate (substFormat : Z) (coverage : option Coverage)
    (alternateSets : list (option (list Z)))
| LigatureSubst (substFormat : Z) (coverage : option Coverage)
    (ligatureSets : list (option (list Ligature)))
| Context1 (substFormat : Z) (coverage : option Coverage)
    (ruleSets : list (option (list ContextRule)))
| Context2 (substFormat : Z) (coverage : option Coverage) (classDef : option ClassDef)
    (classSets : list (option (list ContextClassRule)))
| Context3 (substFormat : Z) (coverages : list (option Coverage))
    (lookupRecords : list LookupRecord)
| Chain1 (substFormat : Z) (coverage : option Coverage)
    (chainRuleSets : list (option (list ChainRule)))
| Chain2 (substFormat : Z) (coverage : option Coverage)
    (backtrackClassDef inputClassDef lookaheadClassDef : option ClassDef)
    (chainClassSet : list (option (list ChainRule)))
| Chain3 (substFormat : Z)
    (backtrackCoverage inputCoverage lookaheadCoverage : list (option Coverage))
    (lookupRecords : list LookupRecord)
| Extension (substFormat : Z) (lookupType : Z) (extension : Subtable)
| ReverseChain (substFormat : Z) (coverage : option Coverage)
    (backtrackCoverage lookaheadCoverage : list (option Coverage))
    (substitutes : list Z).

(** ** The subtable parsers of [gsub.js] *)

(** [subtableParsers[1]] *)
Definition parseLookup1 : M Subtable :=
  fun this =>
    let start := offset this + relativeOffset this in
    (substFormat <- parseUShort;;
     if substFormat =? 1 then
       coverage <- parsePointer parseCoverage;;
       deltaGlyphId <- parseUShort;;
       ret (Single1 1 coverage deltaGlyphId)
     else if substFormat =? 2 then
       coverage <- parsePointer parseCoverage;;
       substitute <- parseOffset16List;;
       ret (Single2 2 coverage substitute)
     else
       check_assert_false
         ("0x" ++ toString16 start ++ ": lookup type 1 format must be 1 or 2.")%string) this.

(** [subtableParsers[2]] *)
Definition parseLookup2 : M Subtable :=
  substFormat <- parseUShort;;
  check_argument (substFormat =? 1)
    "GSUB Multiple Substitution Subtable identifier-format must be 1";;;
  coverage <- parsePointer parseCoverage;;
  sequences <- parseListOfLists;;
  ret (Multiple substFormat coverage sequences).

(** [subtableParsers[3]] *)
Definition parseLookup3 : M Subtable :=
  substFormat <- parseUShort;;
  check_argument (substFormat =? 1)
    "GSUB Alternate Substitution Subtable identifier-format must be 1";;;
  coverage <- parsePointer parseCoverage;;
  alternateSets <- parseListOfLists;;
  ret (Alternate substFormat coverage alternateSets).

(** The item routine of [parseLookup4]: the ligature glyph, then
    [parseUShortList(this.parseUShort() - 1)]. *)
Definition parseLigature : M Ligature :=
  ligGlyph <- parseUShort;;
  glyphCount <- parseUShort;;
  components <- parseUShortList (Some (glyphCount - 1));;
  ret (mkLigature ligGlyph components).

(** [subtableParsers[4]] *)
Definition parseLookup4 : M Subtable :=
  substFormat <- parseUShort;;
  check_argument (substFormat =? 1)
    "GSUB ligature table identifier-format must be 1";;;
  coverage <- parsePointer parseCoverage;;
  ligatureSets <- parseListOfListsOf parseLigature;;
  ret (LigatureSubst substFormat coverage ligatureSets).

(** [lookupRecordDesc]: the two fields are read in the order of the
    description. *)
Definition lookupRecordDesc : M LookupRecord :=
  sequenceIndex <- parseUShort;;
  lookupListIndex <- parseUShort;;
  ret (mkLookupRecord sequenceIndex lookupListIndex).

(** The item routine of [parseLookup5] format 1. *)
Definition parseContextRule : M ContextRule :=
  glyphCount <- parseUShort;;
  substCount <- parseUShort;;
  input <- parseUShortList (Some (glyphCount - 1));;
  lookupRecords <- parseRecordList (Some substCount) lookupRecordDesc;;
  ret (mkContextRule input lookupRecords).

(** The item routine of [parseLookup5] format 2. *)
Definition parseContextClassRule : M ContextClassRule :=
  glyphCount <- parseUShort;;
  substCount <- parseUShort;;
  classes <- parseUShortList (Some (glyphCount - 1));;
  lookupRecords <- parseRecordList (Some substCount) lookupRecordDesc;;
  ret (mkContextClassRule classes lookupRecords).

(** [subtableParsers[5]] *)
Definition parseLookup5 : M Subtable :=
  fun this =>
    let start := offset this + relativeOffset this in
    (substFormat <- parseUShort;;
     if substFormat =? 1 then
       coverage <- parsePointer parseCoverage;;
       ruleSets <- parseListOfListsOf parseContextRule;;
       ret (Context1 substFormat coverage ruleSets)
     else if substFormat =? 2 then
       coverage <- parsePointer parseCoverage;;
       classDef <- parsePointer parseClassDef;;
       classSets <- parseListOfListsOf parseContextClassRule;;
       ret (Context2 substFormat coverage classDef classSets)
     else if substFormat =? 3 then
       glyphCount <- parseUShort;;
       substCount <- parseUShort;;
       coverages <- parseList (Some glyphCount) (parsePointer parseCoverage);;
       lookupRecords <- parseRecordList (Some substCount) lookupRecordDesc;;
       ret (Context3 substFormat coverages lookupRecords)
     else
       check_assert_false
         ("0x" ++ toString16 start ++ ": lookup type 5 format must be 1, 2 or 3.")%string) this.

(** The item routine of [parseLookup6] formats 1 and 2; the input count
    is read with [parseShort]. *)
Definition parseChainRule : M ChainRule :=
  backtrack <- parseUShortList None;;
  inputCount <- parseShort;;
  input <- parseUShortList (Some (inputCount - 1));;
  lookahead <- parseUShortList None;;
  lookupRecords <- parseRecordList None lookupRecordDesc;;
  ret (mkChainRule backtrack input lookahead lookupRecords).

(** [subtableParsers[6]] *)
Definition parseLookup6 : M Subtable :=
  fun this =>
    let start := offset this + relativeOffset this in
    (substFormat <- parseUShort;;
     if substFormat =? 1 then
       coverage <- parsePointer parseCoverage;;
       chainRuleSets <- parseListOfListsOf parseChainRule;;
       ret (Chain1 1 coverage chainRuleSets)
     else if substFormat =? 2 then
       coverage <- parsePointer parseCoverage;;
       backtrackClassDef <- parsePointer parseClassDef;;
       inputClassDef <- parsePointer parseClassDef;;
       lookaheadClassDef <- parsePointer parseClassDef;;
       chainClassSet <- parseListOfListsOf parseChainRule;;
       ret (Chain2 2 coverage backtrackClassDef inputClassDef lookaheadClassDef chainClassSet)
     else if substFormat =? 3 then
       backtrackCoverage <- parseList None (parsePointer parseCoverage);;
       inputCoverage <- parseList None (parsePointer parseCoverage);;
       lookaheadCoverage <- parseList None (parsePointer parseCoverage);;
       lookupRecords <- parseRecordList None lookupRecordDesc;;
       ret (Chain3 3 backtrackCoverage inputCoverage lookaheadCoverage lookupRecords)
     else
       check_assert_false
         ("0x" ++ toString16 start ++ ": lookup type 6 format must be 1, 2 or 3.")%string) this.

(** Calling a slot of the dispatch table on a parser,
    [subtableParsers[i].call(parser)]: an empty slot is [undefined], and
    reading [.call] of it throws a [TypeError]. *)
Definition callSlot {A : Type} (slot : option (M A)) (parser : Parser) : outcome A :=
  match slot with
  | Some f =>
      match f parser with
      | Return (v, _) => Return v
      | Throw e => Throw e
      | OutOfFuel => OutOfFuel
      end
  | None => Throw TypeError
  end.

(** [subtableParsers[7]], over the dispatch table that it re-enters.
    The extension parser is [new Parser(this.data, this.offset +
    this.parseULong())]. *)
Definition parseLookup7 (subtableParsers : Z -> option (M Subtable)) : M Subtable :=
  substFormat <- parseUShort;;
  check_argument (substFormat =? 1)
    "GSUB Extension Substitution subtable identifier-format must be 1";;;
  extensionLookupType <- parseUShort;;
  extensionOffset <- parseULong;;
  fun this =>
    let extensionParser := newParser (data this) (offset this + extensionOffset) in
    match callSlot (subtableParsers extensionLookupType) extensionParser with
    | Return extension => Return (Extension 1 extensionLookupType extension, this)
    | Throw e => Throw e
    | OutOfFuel => OutOfFuel
    end.

(** [subtableParsers[8]] *)
Definition parseLookup8 : M Subtable :=
  substFormat <- parseUShort;;
  check_argument (substFormat =? 1)
    "GSUB Reverse Chaining Contextual Single Substitution Subtable identifier-format must be 1";;;
  coverage <- parsePointer parseCoverage;;
  backtrackCoverage <- parseList None (parsePointer parseCoverage);;
  lookaheadCoverage <- parseList None (parsePointer parseCoverage);;
  substitutes <- parseUShortList None;;
  ret (ReverseChain substFormat coverage backtrackCoverage lookaheadCoverage substitutes).

(** [subtableParsers = new Array(9)]: slot 0 is unused and stays empty,
    as does every index from 9 on; slots 1 to 8 hold the parsers above.
    Slot 7 calls back into the table, so the table is defined by
    recursion on a nesting budget that only this re-entry consumes: with
    budget [n], a chain of up to [n] nested extensions can be followed. *)
Fixpoint subtableParsers (fuel : nat) (i : Z) : option (M Subtable) :=
  if i =? 1 then Some parseLookup1
  else if i =? 2 then Some parseLookup2
  else if i =? 3 then Some parseLookup3
  else if i =? 4 then Some parseLookup4
  else if i =? 5 then Some parseLookup5
  else if i =? 6 then Some parseLookup6
  else if i =? 7 then
    Some (match fuel with
          | O => fun _ => OutOfFuel
          | S n => parseLookup7 (subtableParsers n)
          end)
  else if i =? 8 then Some parseLookup8
  else None.

(** ** The table assembler *)

Section Assembler.

(** The decoders of the version field, of the script directory and of
    the feature directory, and the decoder of the lookup directory,
    are methods of [Parser] ([src/parse.js], not among the sources);
    the script and feature directories are "externally supplied,
    format-stable routines".  [parseGsubTable] is embedded over them. *)
Variables ScriptList FeatureList LookupList : Type.
Variable parseVersion : M Q.
Variable parseScriptList : M ScriptList.
Variable parseFeatureList : M FeatureList.
Variable parseLookupList : (Z -> option (M Subtable)) -> M LookupList.

(** [{ version, scripts, features, lookups }] *)
Record Table : Type := mkTable {
  version : Q;
  scripts : ScriptList;
  features : FeatureList;
  lookups : LookupList
}.

(** The body of [parseGsubTable] once [p] is built. *)
Definition parseGsubTableBody (fuel : nat) : M Table :=
  tableVersion <- parseVersion;;
  check_argument (Qeq_bool tableVersion 1) "Unsupported GSUB table version.";;;
  scripts <- parseScriptList;;
  features <- parseFeatureList;;
  lookups <- parseLookupList (subtableParsers fuel);;
  ret (mkTable tableVersion scripts features lookups).

(** [start || 0]: the start offset may be omitted. *)
Definition startOffset (start : option Z) : Z :=
  match start with Some s => s | None => 0 end.

(** [parseGsubTable(data, start)].  [fuel] is the nesting budget of the
    dispatch table. *)
Definition parseGsubTable (fuel : nat) (data : DataView) (start : option Z) : outcome Table :=
  let start := startOffset start in
  let p := newParser data start in
  match parseGsubTableBody fuel p with
  | Return (table, _) => Return table
  | Throw e => Throw e
  | OutOfFuel => OutOfFuel
  end.

End Assembler.

Arguments mkTable {ScriptList FeatureList LookupList}.
Arguments version {ScriptList FeatureList LookupList}.
Arguments scripts {ScriptList FeatureList LookupList}.
Arguments features {ScriptList FeatureList LookupList}.
Arguments lookups {ScriptList FeatureList LookupList}.
Arguments parseGsubTableBody {ScriptList FeatureList LookupList}.
Arguments parseGsubTable {ScriptList FeatureList LookupList}.

(** ** The lookup directory *)

(** [{ lookupType, lookupFlag, subtables, markFilteringSet }] *)
Record Lookup : Type := mkLookup {
  lookup_lookupType : Z;
  lookupFlag : Z;
  subtables : list (option Subtable);
  markFilteringSet : option Z
}.

(** [n.toString()] in base 10, as string concatenation does it. *)
Definition toString10 (n : Z) : string :=
  DecimalString.NilZero.string_of_int (Z.to_int n).

Definition unknownLookupType (lookupType : Z) : string :=
  ("GSUB lookup type " ++ toString10 lookupType ++ " unknown.")%string.

(** Modelled from the spec: the lookup table routine that
    [Parser.prototype.parseLookupList] of [src/parse.js] runs at each
    entry of the directory: it "reads the lookup's own lookupType field,
    and invokes dispatch[lookupType]"; "a lookup directory entry [that]
    names a type outside 1-8" is the UnknownLookupType error.  The
    lookup table holds, after its type, the lookup flag and a counted
    list of offsets to its subtables, each decoded by the dispatch slot
    of the type, and a mark filtering set when bit 0x10 of the flag is
    set. *)
Definition parseLookupTable (lookupTableParsers : Z -> option (M Subtable)) : M Lookup :=
  lookupType <- parseUShort;;
  check_argument ((1 <=? lookupType) && (lookupType <=? 8)) (unknownLookupType lookupType);;;
  lookupFlag <- parseUShort;;
  let useMarkFilteringSet := Z.land lookupFlag 16 in
  subtables <- parseList None
    (parsePointer (fun parser =>
                     match callSlot (lookupTableParsers lookupType) parser with
                     | Return v => Return (v, parser)
                     | Throw e => Throw e
                     | OutOfFuel => OutOfFuel
                     end));;
  markFilteringSet <-
    (if useMarkFilteringSet =? 0 then ret None
     else v <- parseUShort;; ret (Some v));;
  ret (mkLookup lookupType lookupFlag subtables markFilteringSet).

(** Modelled from the spec: [Parser.prototype.parseLookupList] of
    [src/parse.js]: "reads a 16-bit count, then that many 16-bit offsets
    (relative to the lookup-directory start), and for each resolves the
    offset" and decodes the lookup there; the directory itself is
    reached through a 16-bit offset of the table header. *)
Definition parseLookupList (lookupTableParsers : Z -> option (M Subtable))
  : M (option (list (option Lookup))) :=
  parsePointer (parseList None (parsePointer (parseLookupTable lookupTableParsers))).

(** ** An instance of the external routines *)

(** Modelled from the spec: [Parser.prototype.parseVersion] of
    [src/parse.js], which is not among the sources; the spec only says
    that the assembler reads "the table's version field".  Here the
    field is a major and a minor 16-bit word and the version is
    [major + minor / 0x1000 / 10].  The properties of [parseGsubTable]
    are stated for every version decoder; this one runs the assembler
    on concrete bytes. *)
Definition parseVersion : M Q :=
  major <- parseUShort;;
  minor <- parseUShort;;
  ret (inject_Z major + inject_Z minor / 4096 / 10)%Q.

(** Modelled from the spec: [Parser.prototype.parseScriptList] of
    [src/parse.js]: one of the "externally supplied, format-stable
    routines (out of scope for this core)".  The directory is reached
    through a 16-bit offset of the table header; its content is not
    decoded here. *)
Definition parseScriptList : M (option unit) := parsePointer (ret tt).

(** Modelled from the spec: [Parser.prototype.parseFeatureList] of
    [src/parse.js], as [parseScriptList]. *)
Definition parseFeatureList : M (option unit) := parsePointer (ret tt).

(** [parseGsubTable] over these routines. *)
Definition parseGsub (fuel : nat) (data : DataView) (start : option Z)
  : outcome (Table (option unit) (option unit) (option (list (option Lookup)))) :=
  parseGsubTable parseVersion parseScriptList parseFeatureList parseLookupList fuel data start.

(** ** Auxiliary definitions used by the statements *)

(** The offset that a message of the form ["0x<hex>: ..."] reports: the
    hexadecimal numeral before the first colon. *)
Fixpoint takeUntilColon (s : string) : string :=
  match s with
  | EmptyString => EmptyString
  | String c s' => if Ascii.eqb c ":" then EmptyString else String c (takeUntilColon s')
  end.

Definition reportedOffset (message : string) : Z :=
  HexString.to_Z (takeUntilColon message).

(** A computation that never exhausts the nesting budget: it returns or
    throws on every parser state. *)
Definition total {A : Type} (m : M A) : Prop := forall p, m p <> OutOfFuel.

(** A computation that only moves the cursor: the parser that it leaves
    reads the same buffer from the same base. *)
Definition stable {A : Type} (m : M A) : Prop :=
  forall p a p', m p = Return (a, p') -> data p' = data p /\ offset p' = offset p.

(** [q] reads the buffer of [p] from the base of [p]. *)
Definition sameBuffer (p q : Parser) : Prop :=
  data q = data p /\ offset q = offset p.

(** The three fields that [parseLookup7] reads before it re-enters the
    dispatch table: format, extension lookup type and 32-bit offset. *)
Definition extensionHeader (this : Parser) : option (Z * Z * Z) :=
  match getUint16 (data this) (position this) with
  | Some substFormat =>
      if substFormat =? 1 then
        match getUint16 (data this) (position this + 2),
              getUint32 (data this) (position this + 4) with
        | Some extensionLookupType, Some extensionOffset =>
            Some (substFormat, extensionLookupType, extensionOffset)
        | _, _ => None
        end
      else None
  | None => None
  end.

(** The static chain of type 7 indirections in the input: starting from
    a subtable of type [i] at [this], the chain has at most [d] nested
    extension subtables.  A subtable of another type ends the chain, and
    so does an extension whose header cannot be read or whose format is
    not 1 (its decoding fails before the re-entry). *)
Fixpoint nestingWithin (d : nat) (i : Z) (this : Parser) : bool :=
  if i =? 7 then
    match d with
    | O => false
    | S d' =>
        match extensionHeader this with
        | Some (_, extensionLookupType, extensionOffset) =>
            nestingWithin d' extensionLookupType
              (newParser (data this) (offset this + extensionOffset))
        | None => true
        end
    end
  else true.

(** On every parser over the buffer [d], [m] ends within the nesting
    budget. *)
Definition totalOn {A : Type} (d : DataView) (m : M A) : Prop :=
  forall p, data p = d -> m p <> OutOfFuel.

(** Every chain of type 7 indirections that starts at an offset of the
    buffer has at most [n] nested extension subtables. *)
Definition chainsWithin (n : nat) (d : DataView) : bool :=
  forallb (fun o => nestingWithin n 7 (newParser d (Z.of_nat o))) (seq 0 (List.length d)).

(** The bytes of [standalone] from offset [base] on are found, byte for
    byte, in [host] from offset [base'] on. *)
Definition embedded (standalone : DataView) (base : Z) (host : DataView) (base' : Z) : Prop :=
  forall i v : Z,
    0 <= i -> getUint8 standalone (base + i) = Some v -> getUint8 host (base' + i) = Some v.

(** Two parser states at corresponding places: [p] in the standalone
    buffer at or after [base], [p'] in the host at the same distance
    from [base']. *)
Definition shifted (standalone : DataView) (base : Z) (host : DataView) (base' : Z)
    (p p' : Parser) : Prop :=
  data p = standalone /\ data p' = host /\
  base <= offset p /\ 0 <= relativeOffset p /\
  offset p' - base' = offset p - base /\
  relativeOffset p' = relativeOffset p.

(** [m] decodes in the host, at the corresponding place, what it decodes
    in the standalone buffer. *)
Definition relocates (standalone : DataView) (base : Z) (host : DataView) (base' : Z)
    {A : Type} (m : M A) : Prop :=
  forall (p p' : Parser) (a : A) (q : Parser),
    shifted standalone base host base' p p' -> m p = Return (a, q) ->
    exists q', m p' = Return (a, q') /\ shifted standalone base host base' q q'.

(** ** Inputs used in examples *)

(** Six bytes; at offset 2 a subtable starts with format 4. *)
Definition format4_subtable : DataView := [x00; x00; x00; x04; x00; x00].

(** Format 2 at offset 0 and again at offset 2. *)
Definition format2_twice : DataView := [x00; x02; x00; x02].

(** An extension subtable: format 1, extension lookup type 9, offset 8. *)
Definition extension_type9 : DataView :=
  [x00; x01; x00; x09; x00; x00; x00; x08; x00; x01].

(** A lookup table whose lookup type is 0. *)
Definition lookup_type0 : DataView := [x00; x00; x00; x00; x00; x00].

(** An extension subtable that points at itself: format 1, extension
    lookup type 7, offset 0. *)
Definition extension_cycle : DataView :=
  [x00; x01; x00; x07; x00; x00; x00; x00].

(** A type 1 subtable of format 1: coverage at offset 6, delta 0xffff;
    the coverage is format 1 with the single glyph 5. *)
Definition single1_subtable : DataView :=
  [x00; x01; x00; x06; xff; xff; x00; x01; x00; x01; x00; x05].

(** A table of version 2.0 and nothing else. *)
Definition version2_table : DataView := [x00; x02; x00; x00].

(** A chain rule (type 6): an empty backtrack list, then the input count
    0x8001.  Read as a context rule (type 5) from offset 2, the same
    count is followed by a substitution count of 0. *)
Definition rule_count_8001 : DataView := [x00; x00; x80; x01; x00; x00].

(** A type 4 subtable: format 1, no coverage, one ligature set at offset
    8 holding one rule at offset 4 of the set: ligature glyph 9, glyph
    count 3, components 7 and 8. *)
Definition ligature_subtable : DataView :=
  [x00; x01; x00; x00; x00; x01; x00; x08;
   x00; x01; x00; x04;
   x00; x09; x00; x03; x00; x07; x00; x08].

(** A whole table: version 1.0, no script and no feature directory, and
    a lookup directory at offset 10 with one lookup (at offset 14) of
    type 7; its one subtable (at offset 22) is an extension of lookup
    type 1 whose payload, at offset 30, is [single1_subtable]. *)
Definition gsub_table : DataView :=
  ([x00; x01; x00; x00; x00; x00; x00; x00; x00; x0a;
    x00; x01; x00; x04;
    x00; x07; x00; x00; x00; x01; x00; x08;
    x00; x01; x00; x01; x00; x00; x00; x08]
   ++ single1_subtable)%list.

(** An extension subtable of lookup type 5 whose payload, at offset 8,
    starts with format 4. *)
Definition extension_format4 : DataView :=
  [x00; x01; x00; x05; x00; x00; x00; x08; x00; x04].

(** An extension subtable of lookup type 1 whose payload, at offset 8,
    is [single1_subtable]. *)
Definition extension_single1 : DataView :=
  ([x00; x01; x00; x01; x00; x00; x00; x08] ++ single1_subtable)%list.

(** A whole table like [gsub_table] whose one subtable, at offset 22, is
    an extension of lookup type 7 at offset 0: it points at itself. *)
Definition gsub_cycle : DataView :=
  [x00; x01; x00; x00; x00; x00; x00; x00; x00; x0a;
   x00; x01; x00; x04;
   x00; x07; x00; x00; x00; x01; x00; x08;
   x00; x01; x00; x07; x00; x00; x00; x00].

(** A whole table like [gsub_table] whose extension subtable, at offset
    22, names lookup type 9. *)
Definition gsub_type9 : DataView :=
  [x00; x01; x00; x00; x00; x00; x00; x00; x00; x0a;
   x00; x01; x00; x04;
   x00; x07; x00; x00; x00; x01; x00; x08;
   x00; x01; x00; x09; x00; x00; x00; x08; x00; x01].

(** A whole table like [gsub_table] whose extension subtable names
    lookup type 5 and whose payload, at offset 30, starts with format 4. *)
Definition gsub_format4 : DataView :=
  [x00; x01; x00; x00; x00; x00; x00; x00; x00; x0a;
   x00; x01; x00; x04;
   x00; x07; x00; x00; x00; x01; x00; x08;
   x00; x01; x00; x05; x00; x00; x00; x08; x00; x04].

(** A whole table whose lookup directory has one lookup, at offset 14,
    of lookup type 0. *)
Definition gsub_type0 : DataView :=
  [x00; x01; x00; x00; x00; x00; x00; x00; x00; x0a;
   x00; x01; x00; x04;
   x00; x00; x00; x00; x00; x00].

(** ** Shapes of the decoded subtables *)

(** The lookup type whose parser builds a record of this shape. *)
Definition subtableKind (v : Subtable) : Z :=
  match v with
  | Single1 _ _ _ | Single2 _ _ _ => 1
  | Multiple _ _ _ => 2
  | Alternate _ _ _ => 3
  | LigatureSubst _ _ _ => 4
  | Context1 _ _ _ | Context2 _ _ _ _ | Context3 _ _ _ => 5
  | Chain1 _ _ _ | Chain2 _ _ _ _ _ _ | Chain3 _ _ _ _ _ => 6
  | Extension _ _ _ => 7
  | ReverseChain _ _ _ _ _ => 8
  end.

(** The [substFormat] field of a record. *)
Definition subtableFormat (v : Subtable) : Z :=
  match v with
  | Single1 f _ _ | Single2 f _ _ | Multiple f _ _ | Alternate f _ _
  | LigatureSubst f _ _ | Context1 f _ _ | Context2 f _ _ _ | Context3 f _ _
  | Chain1 f _ _ | Chain2 f _ _ _ _ _ | Chain3 f _ _ _ _ | Extension f _ _
  | ReverseChain f _ _ _ _ => f
  end.

(** The format whose branch of the parser builds a record of this shape. *)
Definition variantFormat (v : Subtable) : Z :=
  match v with
  | Single1 _ _ _ | Multiple _ _ _ | Alternate _ _ _ | LigatureSubst _ _ _
  | Context1 _ _ _ | Chain1 _ _ _ | Extension _ _ _ | ReverseChain _ _ _ _ _ => 1
  | Single2 _ _ _ | Context2 _ _ _ _ | Chain2 _ _ _ _ _ _ => 2
  | Context3 _ _ _ | Chain3 _ _ _ _ _ => 3
  end.

(** A record whose [substFormat] is the format of its shape and, for an
    extension, whose [lookupType] is in 1-8 and is the lookup type of
    the shape of its [extension], itself well formed. *)
Fixpoint wellFormed (v : Subtable) : bool :=
  (subtableFormat v =? variantFormat v) &&
  match v with
  | Extension _ lookupType extension =>
      (1 <=? lookupType) && (lookupType <=? 8) &&
      (subtableKind extension =? lookupType) && wellFormed extension
  | _ => true
  end.

(** A record [v] of the lookup type [kind], well formed, whose
    [substFormat] is the format word at the position of [this]. *)
Definition shaped (kind : Z) (this : Parser) (v : Subtable) : Prop :=
  subtableKind v = kind /\ wellFormed v = true /\
  getUint16 (data this) (position this) = Some (subtableFormat v).

(** ** Layout of the decoded lists *)

(** An item routine that, when it returns, has moved the cursor by [k]
    bytes and nothing else. *)
Definition advances {A : Type} (k : Z) (item : M A) : Prop :=
  forall p a p', item p = Return (a, p') -> p' = advance k p.

(** The list [l] is made of the 16-bit words found from the absolute
    offset [pos] on in the buffer of [this]. *)
Definition wordList (this : Parser) (pos : Z) (l : list Z) : Prop :=
  forall j : nat, (j < List.length l)%nat ->
    nth_error l j = getUint16 (data this) (pos + 2 * Z.of_nat j).

(** What [parsePointer m] yields for the offset word [structOffset] in a
    parser with the base of [this]: [undefined] for a zero offset, and
    otherwise what [m] returns at [this.offset + structOffset]. *)
Definition pointerResult {A : Type} (m : M A) (this : Parser) (structOffset : Z)
    (r : option A) : Prop :=
  match r with
  | None => structOffset = 0
  | Some v =>
      0 < structOffset /\
      exists q, m (newParser (data this) (offset this + structOffset)) = Return (v, q)
  end.

(** The list [l] is what [parsePointer m] yields for the offset words
    found from the absolute offset [pos] on. *)
Definition pointerList {A : Type} (m : M A) (this : Parser) (pos : Z)
    (l : list (option A)) : Prop :=
  forall (j : nat) (r : option A),
    nth_error l j = Some r ->
    exists structOffset,
      getUint16 (data this) (pos + 2 * Z.of_nat j) = Some structOffset /\
      pointerResult m this structOffset r.

(** The list [l] is made of the lookup records -- two 16-bit words each
    -- found from the absolute offset [pos] on. *)
Definition recordList (this : Parser) (pos : Z) (l : list LookupRecord) : Prop :=
  forall (j : nat) (r : LookupRecord),
    nth_error l j = Some r ->
    getUint16 (data this) (pos + 4 * Z.of_nat j) = Some (sequenceIndex r) /\
    getUint16 (data this) (pos + 4 * Z.of_nat j + 2) = Some (lookupListIndex r).

(** A type 1 subtable of format 2: coverage at offset 10, two substitute
    glyphs 0x21 and 0x22; the coverage is format 1 with the glyphs 5, 6. *)
Definition single2_subtable : DataView :=
  [x00; x02; x00; x0a; x00; x02; x00; x21; x00; x22;
   x00; x01; x00; x02; x00; x05; x00; x06].

(** A rule of lookup type 5 format 1: glyph count 3, substitution count
    1, input glyphs 7 and 8, one lookup record (1, 4). *)
Definition rule_glyphs3 : DataView :=
  [x00; x03; x00; x01; x00; x07; x00; x08; x00; x01; x00; x04].

(** A chain rule of lookup type 6: one backtrack glyph 10, input count 2
    with the input glyph 11, no lookahead, one lookup record (0, 3). *)
Definition chain_rule_bytes : DataView :=
  [x00; x01; x00; x0a; x00; x02; x00; x0b; x00; x00; x00; x01; x00; x00; x00; x03].

(** A type 5 subtable of format 3: glyph count 2, substitution count 1,
    coverage offsets 0 and 14, one lookup record (0, 2); at offset 14 a
    coverage of format 1 with the glyph 5. *)
Definition context3_subtable : DataView :=
  [x00; x03; x00; x02; x00; x01; x00; x00; x00; x0e; x00; x00; x00; x02;
   x00; x01; x00; x01; x00; x05].

(** A type 8 subtable: format 1, no coverage, no backtrack and no
    lookahead coverage, two substitutes 0x30 and 0x31. *)
Definition reverse_subtable : DataView :=
  [x00; x01; x00; x00; x00; x00; x00; x00; x00; x02; x00; x30; x00; x31].

(** A call of a slot of the dispatch table that returns the same
    subtable in the host, at the corresponding place, as in the
    standalone buffer. *)
Definition slotRelocates (standalone : DataView) (base : Z) (host : DataView) (base' : Z)
    (slot : option (M Subtable)) : Prop :=
  forall (q q' : Parser) (v : Subtable),
    shifted standalone base host base' q q' ->
    callSlot slot q = Return v -> callSlot slot q' = Return v.

(** A lookup table like the one of [gsub_table]: type 7, one subtable at
    offset 8, an extension of lookup type 7 whose payload, at offset 8
    of it, is [extension_single1]. *)
Definition extension_nested : DataView :=
  ([x00; x01; x00; x07; x00; x00; x00; x08] ++ extension_single1)%list.

(** The entry that a list of lists of glyph ids holds for the offset
    word [start]: [undefined] for a zero offset, and otherwise the
    counted list of words found at [this.offset + start]. *)
Definition countedListAt (this : Parser) (start : Z) (entry : option (list Z)) : Prop :=
  if start =? 0 then entry = None
  else
    exists l : list Z,
      entry = Some l /\
      getUint16 (data this) (offset this + start) = Some (Z.of_nat (List.length l)) /\
      wordList this (offset this + start + 2) l.

(** The entry that a list of sets of items holds for the offset word
    [start]: [undefined] for a zero offset, and otherwise one item per
    offset word of the counted list found at [this.offset + start], the
    item that [item] decodes at [this.offset + start] plus that offset. *)
Definition itemSetAt {A : Type} (item : M A) (this : Parser) (start : Z)
    (entry : option (list A)) : Prop :=
  if start =? 0 then entry = None
  else
    exists (l : list A) (subOffsets : list Z),
      entry = Some l /\
      getUint16 (data this) (offset this + start)
      = Some (Z.of_nat (List.length subOffsets)) /\
      wordList this (offset this + start + 2) subOffsets /\
      Forall2 (fun subOffset x =>
                 exists q,
                   item (mkParser (data this) (offset this) (start + subOffset))
                   = Return (x, q))
        subOffsets l.

(** A type 2 subtable: format 1, no coverage, two sequence offsets 10
    and 0; at offset 10 the sequence of the glyphs 0x41 and 0x42. *)
Definition multiple_subtable : DataView :=
  [x00; x01; x00; x00; x00; x02; x00; x0a; x00; x00; x00; x02; x00; x41; x00; x42].

(** ** The rule callbacks over the list reader *)

(** The item callback of [parseLookup6] formats 1 and 2 with the list
    reader that it calls, [this.parseUShortList] of [src/parse.js],
    taken as a parameter: the count read with [parseShort] is passed to
    the reader, less one. *)
Definition parseChainRuleOver (parseUShortList' : option Z -> M (list Z)) : M ChainRule :=
  backtrack <- parseUShortList' None;;
  inputCount <- parseShort;;
  input <- parseUShortList' (Some (inputCount - 1));;
  lookahead <- parseUShortList' None;;
  lookupRecords <- parseRecordList None lookupRecordDesc;;
  ret (mkChainRule backtrack input lookahead lookupRecords).

(** The item callback of [parseLookup5] format 1, likewise. *)
Definition parseContextRuleOver (parseUShortList' : option Z -> M (list Z)) : M ContextRule :=
  glyphCount <- parseUShort;;
  substCount <- parseUShort;;
  input <- parseUShortList' (Some (glyphCount - 1));;
  lookupRecords <- parseRecordList (Some substCount) lookupRecordDesc;;
  ret (mkContextRule input lookupRecords).

(** The item callback of [parseLookup5] format 2, likewise. *)
Definition parseContextClassRuleOver (parseUShortList' : option Z -> M (list Z))
  : M ContextClassRule :=
  glyphCount <- parseUShort;;
  substCount <- parseUShort;;
  classes <- parseUShortList' (Some (glyphCount - 1));;
  lookupRecords <- parseRecordList (Some substCount) lookupRecordDesc;;
  ret (mkContextClassRule classes lookupRecords).

(** A list reader that reads nothing and returns the count that it was
    called with: the one-element list of the count, or the empty list
    when no count is passed. *)
Definition countProbe (count : option Z) : M (list Z) :=
  ret (match count with
       | Some c => [c]
       | None => []
       end).

(** A type 6 subtable of format 1: no coverage, one rule set at offset
    8 holding one rule at offset 4 of the set, the chain rule
    [chain_rule_bytes]. *)
Definition chain1_subtable : DataView :=
  ([x00; x01; x00; x00; x00; x01; x00; x08; x00; x01; x00; x04] ++ chain_rule_bytes)%list.

(** ** Failures in the lookup directory *)

(** The routine that a lookup table of type [lookupType] runs at each of
    its subtable offsets: the call of the dispatch slot of its type. *)
Definition slotRoutine (lookupTableParsers : Z -> option (M Subtable)) (lookupType : Z)
  : M Subtable :=
  fun parser =>
    match callSlot (lookupTableParsers lookupType) parser with
    | Return v => Return (v, parser)
    | Throw e => Throw e
    | OutOfFuel => OutOfFuel
    end.

(** Each of the first [j] offset words found from the absolute offset
    [pos] on is null, or [m] returns at [this.offset] plus that word. *)
Definition pointersReturn {A : Type} (m : M A) (this : Parser) (pos : Z) (j : nat) : Prop :=
  forall i : nat, (i < j)%nat ->
    exists structOffset,
      getUint16 (data this) (pos + 2 * Z.of_nat i) = Some structOffset /\
      (structOffset = 0 \/
       (0 < structOffset /\
        exists v q, m (newParser (data this) (offset this + structOffset)) = Return (v, q))).

(** The offset word number [j] from [pos] on is not null and [m] throws
    [e] at [this.offset] plus that word. *)
Definition pointerThrows {A : Type} (m : M A) (this : Parser) (pos : Z) (j : nat) (e : exn)
  : Prop :=
  exists structOffset,
    getUint16 (data this) (pos + 2 * Z.of_nat j) = Some structOffset /\
    0 < structOffset /\
    m (newParser (data this) (offset this + structOffset)) = Throw e.

(** The lookup table at [lookup] has a lookup type in 1-8, and among the
    subtables that it lists the one of index [k] is the first whose
    decoding does not return: the slot of the type throws [e] there. *)
Definition subtableFails (lookupTableParsers : Z -> option (M Subtable)) (lookup : Parser)
    (k : nat) (e : exn) : Prop :=
  exists lookupType lookupFlag subTableCount,
    getUint16 (data lookup) (position lookup) = Some lookupType /\
    1 <= lookupType <= 8 /\
    getUint16 (data lookup) (position lookup + 2) = Some lookupFlag /\
    getUint16 (data lookup) (position lookup + 4) = Some subTableCount /\
    Z.of_nat k < subTableCount /\
    pointersReturn (slotRoutine lookupTableParsers lookupType) lookup (position lookup + 6) k /\
    pointerThrows (slotRoutine lookupTableParsers lookupType) lookup (position lookup + 6) k e.

(** The header word at [p] points at a lookup directory, and among the
    lookup tables that the directory lists the one of index [j] is the
    first whose decoding does not return: it throws [e]. *)
Definition lookupFails (lookupTableParsers : Z -> option (M Subtable)) (p : Parser)
    (j : nat) (e : exn) : Prop :=
  exists directoryOffset lookupCount,
    getUint16 (data p) (position p) = Some directoryOffset /\
    0 < directoryOffset /\
    let directory := newParser (data p) (offset p + directoryOffset) in
    getUint16 (data directory) (position directory) = Some lookupCount /\
    Z.of_nat j < lookupCount /\
    pointersReturn (parseLookupTable lookupTableParsers) directory (position directory + 2) j /\
    pointerThrows (parseLookupTable lookupTableParsers) directory (position directory + 2) j e.

(** The same, one level down: the lookup tables before the one of index
    [j] are decoded, and in that one the subtable of index [k] is the
    first that fails, with [e]. *)
Definition subtableOfLookupFails (lookupTableParsers : Z -> option (M Subtable)) (p : Parser)
    (j k : nat) (e : exn) : Prop :=
  exists directoryOffset lookupCount lookupOffset,
    getUint16 (data p) (position p) = Some directoryOffset /\
    0 < directoryOffset /\
    let directory := newParser (data p) (offset p + directoryOffset) in
    getUint16 (data directory) (position directory) = Some lookupCount /\
    Z.of_nat j < lookupCount /\
    pointersReturn (parseLookupTable lookupTableParsers) directory (position directory + 2) j /\
    getUint16 (data directory) (position directory + 2 + 2 * Z.of_nat j) = Some lookupOffset /\
    0 < lookupOffset /\
    subtableFails lookupTableParsers
      (newParser (data directory) (offset directory + lookupOffset)) k e.

(** What a decoded lookup table holds, in terms of the bytes at
    [lookup]: its type, in 1-8, its flag, as many subtables as the count
    word says, each [undefined] exactly for a null offset word and
    otherwise the value that the slot of the type returns at the
    offset, and the mark filtering set when bit 0x10 of the flag is
    set. *)
Definition lookupDecoded (lookupTableParsers : Z -> option (M Subtable)) (lookup : Parser)
    (v : Lookup) : Prop :=
  getUint16 (data lookup) (position lookup) = Some (lookup_lookupType v) /\
  1 <= lookup_lookupType v <= 8 /\
  getUint16 (data lookup) (position lookup + 2) = Some (lookupFlag v) /\
  getUint16 (data lookup) (position lookup + 4) = Some (Z.of_nat (List.length (subtables v))) /\
  (forall (k : nat) (r : option Subtable),
      nth_error (subtables v) k = Some r ->
      exists subtableOffset,
        getUint16 (data lookup) (position lookup + 6 + 2 * Z.of_nat k) = Some subtableOffset /\
        match r with
        | None => subtableOffset = 0
        | Some subtable =>
            0 < subtableOffset /\
            callSlot (lookupTableParsers (lookup_lookupType v))
              (newParser (data lookup) (offset lookup + subtableOffset))
            = Return subtable
        end) /\
  match markFilteringSet v with
  | None => Z.land (lookupFlag v) 16 = 0
  | Some set =>
      Z.land (lookupFlag v) 16 <> 0 /\
      getUint16 (data lookup)
        (position lookup + 6 + 2 * Z.of_nat (List.length (subtables v))) = Some set
  end.

(** What a decoded lookup directory holds, in terms of the bytes: it is
    [undefined] exactly when the header word at [p] is null; otherwise
    it has as many entries as the count word of the directory says, each
    [undefined] exactly for a null offset word and otherwise a lookup
    table decoded at the offset. *)
Definition directoryDecoded (lookupTableParsers : Z -> option (M Subtable)) (p : Parser)
    (lookups : option (list (option Lookup))) : Prop :=
  exists directoryOffset,
    getUint16 (data p) (position p) = Some directoryOffset /\
    match lookups with
    | None => directoryOffset = 0
    | Some entries =>
        0 < directoryOffset /\
        let directory := newParser (data p) (offset p + directoryOffset) in
        getUint16 (data directory) (position directory)
        = Some (Z.of_nat (List.length entries)) /\
        forall (j : nat) (r : option Lookup),
          nth_error entries j = Some r ->
          exists lookupOffset,
            getUint16 (data directory) (position directory + 2 + 2 * Z.of_nat j)
            = Some lookupOffset /\
            match r with
            | None => lookupOffset = 0
            | Some lookup =>
                0 < lookupOffset /\
                lookupDecoded lookupTableParsers
                  (newParser (data directory) (offset directory + lookupOffset)) lookup
            end
    end.

(** * Properties *)

(** ** Reads *)

Lemma getUint8_range (d : DataView) (i v : Z) :
  getUint8 d i = Some v -> 0 <= v <= 255.
Proof.
  unfold getUint8. destruct (i <? 0); [discriminate|].
  destruct (nth_error d (Z.to_nat i)) as [b|]; [|discriminate].
  unfold option_map. intros [= <-].
  generalize (Byte.to_N_bounded b). generalize (Byte.to_N b). lia.
Qed.

Lemma getUint8_nonneg (d : DataView) (i v : Z) :
  getUint8 d i = Some v -> 0 <= i.
Proof.
  unfold getUint8. destruct (i <? 0) eqn:E; [discriminate|]. intros _. lia.
Qed.

Lemma getUint16_range (d : DataView) (i v : Z) :
  getUint16 d i = Some v -> 0 <= v <= 65535.
Proof.
  unfold getUint16.
  destruct (getUint8 d i) as [hi|] eqn:Hhi; [|discriminate].
  destruct (getUint8 d (i + 1)) as [lo|] eqn:Hlo; [|discriminate].
  intros [= <-].
  apply getUint8_range in Hhi. apply getUint8_range in Hlo. lia.
Qed.

Lemma getUint16_nonneg (d : DataView) (i v : Z) :
  getUint16 d i = Some v -> 0 <= i.
Proof.
  unfold getUint16.
  destruct (getUint8 d i) as [hi|] eqn:Hhi; [|discriminate].
  intros _. eauto using getUint8_nonneg.
Qed.

Lemma getInt16_mod (d : DataView) (i u s : Z) :
  getUint16 d i = Some u -> getInt16 d i = Some s -> u = s mod 65536.
Proof.
  intros Hu. unfold getInt16. rewrite Hu. intros [= <-].
  apply getUint16_range in Hu.
  destruct (u <? 32768) eqn:E.
  - rewrite Z.mod_small; lia.
  - replace (u - 65536) with (u + (-1) * 65536) by lia.
    rewrite Z.mod_add by lia. rewrite Z.mod_small; lia.
Qed.

(** ** Running the monad *)

Lemma data_advance (n : Z) (p : Parser) : data (advance n p) = data p.
Proof. reflexivity. Qed.

Lemma offset_advance (n : Z) (p : Parser) : offset (advance n p) = offset p.
Proof. reflexivity. Qed.

Lemma position_advance (n : Z) (p : Parser) : position (advance n p) = position p + n.
Proof. unfold position, advance. cbn. lia. Qed.

Lemma advance_advance (n m : Z) (p : Parser) : advance n (advance m p) = advance (m + n) p.
Proof. unfold advance. cbn. f_equal. lia. Qed.

Create Rewrite HintDb parser_state.
#[local] Hint Rewrite data_advance offset_advance position_advance advance_advance
  : parser_state.

Lemma bind_Return {A B : Type} (m : M A) (k : A -> M B) (p : Parser) (r : B * Parser) :
  bind m k p = Return r <-> exists a p', m p = Return (a, p') /\ k a p' = Return r.
Proof.
  unfold bind. split.
  - destruct (m p) as [[a p']| |]; try discriminate. eauto.
  - intros (a & p' & -> & H). exact H.
Qed.

Lemma bind_run {A B : Type} (m : M A) (k : A -> M B) (p p' : Parser) (a : A) :
  m p = Return (a, p') -> bind m k p = k a p'.
Proof. unfold bind. now intros ->. Qed.

Lemma bind_Throw {A B : Type} (m : M A) (k : A -> M B) (p : Parser) (e : exn) :
  m p = Throw e -> bind m k p = Throw e.
Proof. unfold bind. now intros ->. Qed.

Lemma parseUShort_run (p : Parser) (v : Z) :
  getUint16 (data p) (position p) = Some v -> parseUShort p = Return (v, advance 2 p).
Proof. unfold parseUShort. now intros ->. Qed.

Lemma parseUShort_Return (p p' : Parser) (v : Z) :
  parseUShort p = Return (v, p') ->
  getUint16 (data p) (position p) = Some v /\ p' = advance 2 p.
Proof.
  unfold parseUShort. destruct (getUint16 (data p) (position p)); [|discriminate].
  now intros [= -> ->].
Qed.

Lemma check_argument_Return (b : bool) (message : string) (p : Parser) (r : unit * Parser) :
  check_argument b message p = Return r -> b = true /\ r = (tt, p).
Proof.
  unfold check_argument. destruct b; cbn; [|discriminate]. now intros [= <-].
Qed.

Lemma parsePointer_Return {A : Type} (m : M A) (p p' : Parser) (r : option A) :
  parsePointer m p = Return (r, p') ->
  exists structOffset,
    getUint16 (data p) (position p) = Some structOffset /\ p' = advance 2 p /\
    match r with
    | Some v => 0 < structOffset /\
                exists q, m (newParser (data p) (offset p + structOffset)) = Return (v, q)
    | None => structOffset = 0
    end.
Proof.
  unfold parsePointer, parseOffset16. intros H.
  destruct (parseUShort p) as [[so p1]| |] eqn:E; try discriminate.
  apply parseUShort_Return in E as [E ->].
  exists so. destruct (0 <? so) eqn:Hso.
  - cbn [data offset advance] in H |- *.
    destruct (m _) as [[v q]| |] eqn:Em; try discriminate.
    injection H as <- <-. repeat split; auto; [lia|eauto].
  - injection H as <- <-. repeat split; auto.
    apply getUint16_range in E. lia.
Qed.

(** ** Lookup type 1, format 1: the delta is read unsigned *)

(** C10: in type 1 format 1 the decoded [deltaGlyphId] is the unsigned
    16-bit word that follows the coverage offset: it lies in
    [0, 65535], and when the same two bytes read as a signed 16-bit
    integer give [D], the stored value is [D mod 2^16]. *)
Theorem parseLookup1_delta_unsigned :
  forall (this this' : Parser) (substFormat : Z) (coverage : option Coverage)
         (deltaGlyphId : Z),
    parseLookup1 this = Return (Single1 substFormat coverage deltaGlyphId, this') ->
    0 <= deltaGlyphId <= 65535 /\
    getUint16 (data this) (position this + 4) = Some deltaGlyphId /\
    forall D : Z,
      getInt16 (data this) (position this + 4) = Some D ->
      deltaGlyphId = D mod 65536.
Proof.
  intros this this' sf cov delta H.
  unfold parseLookup1 in H.
  apply bind_Return in H as (f & p1 & Hf & H).
  apply parseUShort_Return in Hf as [Hf ->].
  destruct (f =? 1) eqn:E1.
  - apply bind_Return in H as (c & p2 & Hc & H).
    apply parsePointer_Return in Hc as (so & _ & -> & _).
    apply bind_Return in H as (dl & p3 & Hd & H).
    apply parseUShort_Return in Hd as [Hd ->].
    injection H as _ _ <- _.
    autorewrite with parser_state in Hd. cbn in Hd.
    split; [apply getUint16_range in Hd; lia|].
    split; [exact Hd|].
    intros D HD. eapply getInt16_mod; eauto.
  - destruct (f =? 2).
    + apply bind_Return in H as (c & p2 & Hc & H).
      apply bind_Return in H as (dl & p3 & Hd & H).
      discriminate H.
    + discriminate H.
Qed.

(** ** Error messages that carry an offset *)

Lemma of_pos_digits_aux (f : string -> string) :
  (forall c s, f (String c s) = if Ascii.eqb c ":" then f EmptyString else String c (f s)) ->
  forall (n : nat) (p : positive) (rest : string),
    (Pos.size_nat p <= n)%nat ->
    f (HexString.Raw.of_pos p rest) = HexString.Raw.of_pos p (f rest).
Proof.
  intros Hf. induction n as [|n IH]; intros p rest Hn.
  - destruct p; cbn in Hn; lia.
  - do 4 (try destruct p as [p|p|]); cbn in Hn;
      cbn [HexString.Raw.of_pos];
      try (rewrite Hf; reflexivity);
      (rewrite IH by lia; rewrite Hf; reflexivity).
Qed.

Lemma takeUntilColon_of_pos (p : positive) (rest : string) :
  takeUntilColon (HexString.Raw.of_pos p rest)
  = HexString.Raw.of_pos p (takeUntilColon rest).
Proof.
  apply (of_pos_digits_aux takeUntilColon) with (n := Pos.size_nat p); [|lia].
  intros c s. cbn. destruct (Ascii.eqb c ":"); reflexivity.
Qed.

Lemma of_pos_append (p : positive) (rest tail : string) :
  (HexString.Raw.of_pos p rest ++ tail)%string = HexString.Raw.of_pos p (rest ++ tail)%string.
Proof.
  revert rest.
  assert (H : forall (n : nat) (q : positive) (rest : string),
             (Pos.size_nat q <= n)%nat ->
             (HexString.Raw.of_pos q rest ++ tail)%string
             = HexString.Raw.of_pos q (rest ++ tail)%string).
  { induction n as [|n IH]; intros q rest Hn.
    - destruct q; cbn in Hn; lia.
    - do 4 (try destruct q as [q|q|]); cbn in Hn;
        cbn [HexString.Raw.of_pos];
        try reflexivity; (rewrite IH by lia; reflexivity). }
  intros rest. apply (H (Pos.size_nat p)). lia.
Qed.

(** An offset that was written in front of a message can be read back
    from it. *)
Lemma reportedOffset_message (start : Z) (text : string) :
  0 <= start ->
  reportedOffset ("0x" ++ toString16 start ++ String ":" text)%string = start.
Proof.
  intros Hs. unfold reportedOffset, toString16.
  destruct start as [|p|p]; [reflexivity| |lia].
  rewrite of_pos_append. cbn [append takeUntilColon Ascii.eqb Bool.eqb].
  rewrite takeUntilColon_of_pos. cbn [takeUntilColon Ascii.eqb Bool.eqb].
  change (HexString.to_Z (HexString.of_Z (Z.pos p)) = Z.pos p).
  apply HexString.to_Z_of_Z.
Qed.

(** ** Unsupported format discriminants *)

Lemma eqb_neq_false (a b : Z) : a <> b -> (a =? b) = false.
Proof. apply Z.eqb_neq. Qed.

Ltac read_format H :=
  rewrite (bind_run _ _ _ _ _ (parseUShort_run _ _ H)).

(** C5: a type 5 or type 6 subtable whose format discriminant is
    outside {1, 2, 3} (4, for instance) makes the parser throw an
    [Error] whose message starts with the byte offset at which the
    discriminant was read, in hexadecimal; the offset can be read back
    from the message, and the dispatch table returns no subtable. *)
Theorem parseLookup5_6_unsupported_format :
  forall (fuel : nat) (this : Parser) (substFormat : Z),
    getUint16 (data this) (position this) = Some substFormat ->
    substFormat <> 1 -> substFormat <> 2 -> substFormat <> 3 ->
    let message5 :=
      ("0x" ++ toString16 (position this) ++ ": lookup type 5 format must be 1, 2 or 3.")%string in
    let message6 :=
      ("0x" ++ toString16 (position this) ++ ": lookup type 6 format must be 1, 2 or 3.")%string in
    parseLookup5 this = Throw (Error message5) /\
    parseLookup6 this = Throw (Error message6) /\
    callSlot (subtableParsers fuel 5) this = Throw (Error message5) /\
    callSlot (subtableParsers fuel 6) this = Throw (Error message6) /\
    reportedOffset message5 = position this /\
    reportedOffset message6 = position this.
Proof.
  intros fuel this v Hv H1 H2 H3 message5 message6.
  assert (E5 : parseLookup5 this = Throw (Error message5)).
  { unfold parseLookup5. read_format Hv.
    rewrite !eqb_neq_false by assumption. reflexivity. }
  assert (E6 : parseLookup6 this = Throw (Error message6)).
  { unfold parseLookup6. read_format Hv.
    rewrite !eqb_neq_false by assumption. reflexivity. }
  assert (Hpos : 0 <= position this) by eauto using getUint16_nonneg.
  repeat split; auto.
  - destruct fuel; cbn [subtableParsers Z.eqb Pos.eqb callSlot]; now rewrite E5.
  - destruct fuel; cbn [subtableParsers Z.eqb Pos.eqb callSlot]; now rewrite E6.
  - now apply reportedOffset_message.
  - now apply reportedOffset_message.
Qed.

Lemma parseLookup5_6_unsupported_format_witness :
  getUint16 format4_subtable 2 = Some 4 /\
  parseLookup5 (newParser format4_subtable 2)
  = Throw (Error "0x2: lookup type 5 format must be 1, 2 or 3.") /\
  parseLookup6 (newParser format4_subtable 2)
  = Throw (Error "0x2: lookup type 6 format must be 1, 2 or 3.").
Proof.
  split; [reflexivity|].
  pose proof (parseLookup5_6_unsupported_format 0 (newParser format4_subtable 2) 4
                eq_refl ltac:(lia) ltac:(lia) ltac:(lia)) as (H5 & H6 & _).
  split; [exact H5 | exact H6].
Defined.

(** C2, as stated, fails: lookup type 2 reports the same error for an
    invalid format discriminant read at offset 0 and for one read at
    offset 2 of the same buffer, so the error does not identify the
    offset. *)
Lemma format_error_without_offset :
  let this0 := newParser format2_twice 0 in
  let this2 := newParser format2_twice 2 in
  getUint16 (data this0) (position this0) = Some 2 /\
  getUint16 (data this2) (position this2) = Some 2 /\
  position this0 <> position this2 /\
  parseLookup2 this0
  = Throw (Error "GSUB Multiple Substitution Subtable identifier-format must be 1") /\
  parseLookup2 this2 = parseLookup2 this0 /\
  ~ (exists reported : outcome (Subtable * Parser) -> Z,
        reported (parseLookup2 this0) = position this0 /\
        reported (parseLookup2 this2) = position this2).
Proof.
  cbv zeta. repeat split; try reflexivity.
  - discriminate.
  - intros (reported & H0 & H2).
    change (parseLookup2 (newParser format2_twice 2))
      with (parseLookup2 (newParser format2_twice 0)) in H2.
    rewrite H0 in H2. discriminate H2.
Qed.

(** C2, amended: when the format discriminant read at the start of a
    subtable is not supported, lookup types 1, 5 and 6 throw an [Error]
    whose message starts with the byte offset of the discriminant in
    hexadecimal (it can be read back from the message) and names the
    lookup type and the accepted formats; lookup types 2, 3, 4, 7 and 8
    throw an [Error] with a fixed message that names the structure and
    the accepted format and carries no offset. *)
Theorem unsupported_format_errors :
  forall (tbl : Z -> option (M Subtable)) (this : Parser) (substFormat : Z),
    getUint16 (data this) (position this) = Some substFormat ->
    (substFormat <> 1 -> substFormat <> 2 ->
     let message1 :=
       ("0x" ++ toString16 (position this) ++ ": lookup type 1 format must be 1 or 2.")%string in
     parseLookup1 this = Throw (Error message1) /\
     reportedOffset message1 = position this) /\
    (substFormat <> 1 -> substFormat <> 2 -> substFormat <> 3 ->
     let message5 :=
       ("0x" ++ toString16 (position this) ++ ": lookup type 5 format must be 1, 2 or 3.")%string in
     let message6 :=
       ("0x" ++ toString16 (position this) ++ ": lookup type 6 format must be 1, 2 or 3.")%string in
     parseLookup5 this = Throw (Error message5) /\
     reportedOffset message5 = position this /\
     parseLookup6 this = Throw (Error message6) /\
     reportedOffset message6 = position this) /\
    (substFormat <> 1 ->
     parseLookup2 this
     = Throw (Error "GSUB Multiple Substitution Subtable identifier-format must be 1") /\
     parseLookup3 this
     = Throw (Error "GSUB Alternate Substitution Subtable identifier-format must be 1") /\
     parseLookup4 this
     = Throw (Error "GSUB ligature table identifier-format must be 1") /\
     parseLookup7 tbl this
     = Throw (Error "GSUB Extension Substitution subtable identifier-format must be 1") /\
     parseLookup8 this
     = Throw (Error "GSUB Reverse Chaining Contextual Single Substitution Subtable identifier-format must be 1")).
Proof.
  intros tbl this v Hv.
  assert (Hpos : 0 <= position this) by eauto using getUint16_nonneg.
  split; [|split].
  - intros H1 H2 message1. split; [|now apply reportedOffset_message].
    unfold parseLookup1. read_format Hv.
    rewrite !eqb_neq_false by assumption. reflexivity.
  - intros H1 H2 H3 message5 message6.
    repeat split; try (now apply reportedOffset_message).
    + unfold parseLookup5. read_format Hv.
      rewrite !eqb_neq_false by assumption. reflexivity.
    + unfold parseLookup6. read_format Hv.
      rewrite !eqb_neq_false by assumption. reflexivity.
  - intros H1. repeat split.
    + unfold parseLookup2. read_format Hv. now rewrite eqb_neq_false.
    + unfold parseLookup3. read_format Hv. now rewrite eqb_neq_false.
    + unfold parseLookup4. read_format Hv. now rewrite eqb_neq_false.
    + unfold parseLookup7. read_format Hv. now rewrite eqb_neq_false.
    + unfold parseLookup8. read_format Hv. now rewrite eqb_neq_false.
Qed.

Lemma unsupported_format_errors_witness :
  getUint16 format4_subtable 2 = Some 4 /\
  parseLookup1 (newParser format4_subtable 2)
  = Throw (Error "0x2: lookup type 1 format must be 1 or 2.") /\
  parseLookup2 (newParser format4_subtable 2)
  = Throw (Error "GSUB Multiple Substitution Subtable identifier-format must be 1").
Proof.
  split; [reflexivity|].
  pose proof (unsupported_format_errors (subtableParsers 0) (newParser format4_subtable 2) 4
                eq_refl) as (H1 & _ & H2).
  split.
  - apply H1; lia.
  - apply H2; lia.
Defined.

(** ** Unknown lookup types *)

Lemma subtableParsers_empty_slot (fuel : nat) (i : Z) :
  i < 1 \/ 8 < i -> subtableParsers fuel i = None.
Proof.
  intros H. destruct fuel; cbn [subtableParsers];
    rewrite !eqb_neq_false by lia; reflexivity.
Qed.

Lemma parseULong_unfold (p : Parser) :
  parseULong p = match getUint32 (data p) (position p) with
                 | Some v => Return (v, advance 4 p)
                 | None => Throw RangeError
                 end.
Proof. reflexivity. Qed.

(** C1: a lookup type outside 1-8 is to fail with the
    unknown-lookup-type error on both ways into the dispatch table; the
    extension subtable departs from it.  On the extension subtable
    [extension_type9], whose extension lookup type is 9, [parseLookup7]
    indexes the dispatch table with the word as it was read: slot 9 is
    empty and the call throws a [TypeError], not the unknown-lookup-type
    [Error] that the lookup directory throws for the same type (nor any
    [Error] of [check]); the decode of the table [gsub_type9], which
    holds such a subtable, throws that [TypeError] too. *)
Lemma extension_unknown_type_TypeError :
  let this := newParser extension_type9 0 in
  getUint16 (data this) (position this + 2) = Some 9 /\
  parseLookup7 (subtableParsers 0) this = Throw TypeError /\
  callSlot (subtableParsers 1 7) this = Throw TypeError /\
  callSlot (subtableParsers 1 7) this <> Throw (Error (unknownLookupType 9)) /\
  parseGsub 1 gsub_type9 None = Throw TypeError.
Proof.
  cbv zeta. repeat split; try reflexivity.
  change (callSlot (subtableParsers 1 7) (newParser extension_type9 0))
    with (@Throw Subtable TypeError).
  discriminate.
Qed.

(** The two ways into the dispatch table with a lookup type outside
    1-8.  The lookup table routine checks the type before it indexes the
    table and throws the unknown-lookup-type [Error]; [parseLookup7]
    indexes the table without a check, so that an extension subtable
    whose [extensionLookupType] is outside 1-8 throws the format [Error]
    when the format is not 1, a [RangeError] when the 32-bit offset
    cannot be read, and otherwise the [TypeError] of calling the empty
    slot. *)
Lemma unknown_lookup_type_fails :
  forall (tbl : Z -> option (M Subtable)) (fuel : nat) (this : Parser) (lookupType : Z),
    lookupType < 1 \/ 8 < lookupType ->
    (getUint16 (data this) (position this) = Some lookupType ->
     parseLookupTable tbl this = Throw (Error (unknownLookupType lookupType))) /\
    (forall substFormat : Z,
        getUint16 (data this) (position this) = Some substFormat ->
        getUint16 (data this) (position this + 2) = Some lookupType ->
        parseLookup7 (subtableParsers fuel) this
        = Throw (if substFormat =? 1 then
                   match getUint32 (data this) (position this + 4) with
                   | Some _ => TypeError
                   | None => RangeError
                   end
                 else
                   Error "GSUB Extension Substitution subtable identifier-format must be 1")).
Proof.
  intros tbl fuel this t Ht. split.
  - intros Hv. unfold parseLookupTable. read_format Hv.
    replace ((1 <=? t) && (t <=? 8)) with false; [reflexivity|].
    symmetry. apply andb_false_iff. destruct Ht; [left|right]; lia.
  - intros f Hf Hty. unfold parseLookup7. read_format Hf.
    destruct (f =? 1); [|reflexivity].
    cbn [check_argument]. unfold bind at 1. cbn [ret].
    assert (Hty' : getUint16 (data (advance 2 this)) (position (advance 2 this)) = Some t)
      by (autorewrite with parser_state; exact Hty).
    read_format Hty'.
    unfold bind. rewrite parseULong_unfold. autorewrite with parser_state.
    change (2 + 2) with 4.
    destruct (getUint32 (data this) (position this + 4)); [|reflexivity].
    rewrite subtableParsers_empty_slot by assumption. reflexivity.
Qed.

Lemma unknown_lookup_type_fails_witness :
  (9 < 1 \/ 8 < 9) /\
  parseLookup7 (subtableParsers 1) (newParser extension_type9 0) = Throw TypeError /\
  parseLookupTable (subtableParsers 1) (newParser lookup_type0 0)
  = Throw (Error "GSUB lookup type 0 unknown.") /\
  parseGsub 1 gsub_type0 None = Throw (Error "GSUB lookup type 0 unknown.").
Proof.
  split; [right; lia|]. split; [|split; [|reflexivity]].
  - exact (proj2 (unknown_lookup_type_fails (subtableParsers 1) 1
                    (newParser extension_type9 0) 9 ltac:(right; lia)) 1 eq_refl eq_refl).
  - exact (proj1 (unknown_lookup_type_fails (subtableParsers 1) 1
                    (newParser lookup_type0 0) 0 ltac:(left; lia)) eq_refl).
Defined.

(** ** Termination *)

Lemma total_ret {A : Type} (a : A) : total (ret a).
Proof. intros p. discriminate. Qed.

Lemma total_throw {A : Type} (e : exn) : total (@throw A e).
Proof. intros p. discriminate. Qed.

Lemma total_bind {A B : Type} (m : M A) (k : A -> M B) :
  total m -> (forall a, total (k a)) -> total (bind m k).
Proof.
  intros Hm Hk p. unfold bind. specialize (Hm p).
  destruct (m p) as [[a p']| |]; [apply Hk|discriminate|contradiction].
Qed.

Lemma total_parseUShort : total parseUShort.
Proof. intros p. unfold parseUShort. destruct getUint16; discriminate. Qed.

Lemma total_parseShort : total parseShort.
Proof. intros p. unfold parseShort. destruct getInt16; discriminate. Qed.

Lemma total_parseULong : total parseULong.
Proof. intros p. unfold parseULong. destruct getUint32; discriminate. Qed.

Lemma total_check_argument (b : bool) (message : string) : total (check_argument b message).
Proof. intros p. destruct b; discriminate. Qed.

Lemma total_check_assert_false {A : Type} (message : string) :
  total (@check_assert_false A message).
Proof. intros p. discriminate. Qed.

Lemma total_newArray (count : Z) : total (newArray count).
Proof. intros p. unfold newArray. destruct (_ && _); discriminate. Qed.

Lemma total_getRelativeOffset : total getRelativeOffset.
Proof. intros p. discriminate. Qed.

Lemma total_setRelativeOffset (r : Z) : total (setRelativeOffset r).
Proof. intros p. discriminate. Qed.

Lemma total_repeatM {A : Type} (n : nat) (item : M A) : total item -> total (repeatM n item).
Proof.
  intros Hi. induction n as [|n IH]; cbn [repeatM].
  - apply total_ret.
  - apply total_bind; [exact Hi|]. intros a.
    apply total_bind; [exact IH|]. intros l. apply total_ret.
Qed.

Lemma total_mapM {A B : Type} (f : A -> M B) (l : list A) :
  (forall a, total (f a)) -> total (mapM f l).
Proof.
  intros Hf. induction l as [|a l IH]; cbn [mapM].
  - apply total_ret.
  - apply total_bind; [apply Hf|]. intros b.
    apply total_bind; [exact IH|]. intros bs. apply total_ret.
Qed.

Lemma total_countOrRead (count : option Z) : total (countOrRead count).
Proof. destruct count; [apply total_ret|apply total_parseUShort]. Qed.

Lemma total_parseList {A : Type} (count : option Z) (item : M A) :
  total item -> total (parseList count item).
Proof.
  intros Hi. unfold parseList.
  apply total_bind; [apply total_countOrRead|]. intros c.
  apply total_bind; [apply total_newArray|]. intros _.
  now apply total_repeatM.
Qed.

Lemma total_parsePointer {A : Type} (m : M A) : total m -> total (parsePointer m).
Proof.
  intros Hm p. unfold parsePointer, parseOffset16.
  pose proof (total_parseUShort p) as Hu.
  destruct (parseUShort p) as [[so p']| |]; [|discriminate|contradiction].
  destruct (0 <? so); [|discriminate].
  specialize (Hm (newParser (data p') (offset p' + so))).
  destruct (m _) as [[v q]| |]; [discriminate|discriminate|contradiction].
Qed.

Lemma total_parseListOfListsWith {A : Type} (sub : Z -> M (list A)) :
  (forall start, total (sub start)) -> total (parseListOfListsWith sub).
Proof.
  intros Hs. unfold parseListOfListsWith, parseOffset16List, parseUShortList.
  apply total_bind; [apply total_parseList, total_parseUShort|]. intros offsets.
  apply total_bind; [apply total_getRelativeOffset|]. intros r.
  apply total_bind.
  - apply total_mapM. intros start. destruct (start =? 0); [apply total_ret|].
    apply total_bind; [apply total_setRelativeOffset|]. intros _.
    apply total_bind; [apply Hs|]. intros l. apply total_ret.
  - intros l. apply total_bind; [apply total_setRelativeOffset|]. intros _. apply total_ret.
Qed.

Lemma total_fun {A : Type} (f : Parser -> M A) :
  (forall q, total (f q)) -> total (fun p => f p p).
Proof. intros H p. apply H. Qed.

Create HintDb total discriminated.
#[local] Hint Resolve total_ret total_throw total_parseUShort total_parseShort
  total_parseULong total_check_argument total_check_assert_false total_newArray
  total_getRelativeOffset total_setRelativeOffset total_repeatM total_mapM
  total_countOrRead total_parseList total_parsePointer total_parseListOfListsWith
  : total.

(** Break a computation into its binds and branches, and close each piece
    with the lemmas of the [total] database. *)
Ltac total_steps :=
  repeat first
    [ solve [eauto with total]
    | match goal with |- total (if ?b then _ else _) => destruct b end
    | match goal with |- total (bind _ _) => apply total_bind; [|intros ?] end ].

Lemma total_parseUShortList (count : option Z) : total (parseUShortList count).
Proof. unfold parseUShortList. total_steps. Qed.

Lemma total_parseRecordList {R : Type} (count : option Z) (record : M R) :
  total record -> total (parseRecordList count record).
Proof. intros H. unfold parseRecordList. total_steps. Qed.

#[local] Hint Resolve total_parseUShortList total_parseRecordList : total.

Lemma total_parseRangeRecord : total parseRangeRecord.
Proof. unfold parseRangeRecord. total_steps. Qed.

#[local] Hint Resolve total_parseRangeRecord : total.

Lemma total_parseCoverage : total parseCoverage.
Proof.
  unfold parseCoverage.
  apply (total_fun (fun q => _)). intros q. cbv zeta. total_steps.
Qed.

Lemma total_parseClassDef : total parseClassDef.
Proof.
  unfold parseClassDef.
  apply (total_fun (fun q => _)). intros q. cbv zeta. total_steps.
Qed.

#[local] Hint Resolve total_parseCoverage total_parseClassDef : total.

Lemma total_parseListOfLists : total parseListOfLists.
Proof.
  unfold parseListOfLists. apply total_parseListOfListsWith.
  intros _. apply total_parseUShortList.
Qed.

Lemma total_parseListOfListsOf {A : Type} (item : M A) :
  total item -> total (parseListOfListsOf item).
Proof.
  intros H. unfold parseListOfListsOf, parseOffset16List.
  apply total_parseListOfListsWith. intros start.
  apply total_bind; [apply total_parseUShortList|]. intros subOffsets.
  apply total_mapM. intros subOffset. total_steps.
Qed.

Lemma total_lookupRecordDesc : total lookupRecordDesc.
Proof. unfold lookupRecordDesc. total_steps. Qed.

#[local] Hint Resolve total_parseListOfLists total_parseListOfListsOf
  total_lookupRecordDesc : total.

Lemma total_parseLigature : total parseLigature.
Proof. unfold parseLigature. total_steps. Qed.

Lemma total_parseContextRule : total parseContextRule.
Proof. unfold parseContextRule. total_steps. Qed.

Lemma total_parseContextClassRule : total parseContextClassRule.
Proof. unfold parseContextClassRule. total_steps. Qed.

Lemma total_parseChainRule : total parseChainRule.
Proof. unfold parseChainRule. total_steps. Qed.

#[local] Hint Resolve total_parseLigature total_parseContextRule
  total_parseContextClassRule total_parseChainRule : total.

Lemma total_parseLookup1 : total parseLookup1.
Proof.
  unfold parseLookup1, parseOffset16List.
  apply (total_fun (fun q => _)). intros q. cbv zeta. total_steps.
Qed.

Lemma total_parseLookup2 : total parseLookup2.
Proof. unfold parseLookup2. total_steps. Qed.

Lemma total_parseLookup3 : total parseLookup3.
Proof. unfold parseLookup3. total_steps. Qed.

Lemma total_parseLookup4 : total parseLookup4.
Proof. unfold parseLookup4. total_steps. Qed.

Lemma total_parseLookup5 : total parseLookup5.
Proof.
  unfold parseLookup5.
  apply (total_fun (fun q => _)). intros q. cbv zeta. total_steps.
Qed.

Lemma total_parseLookup6 : total parseLookup6.
Proof.
  unfold parseLookup6.
  apply (total_fun (fun q => _)). intros q. cbv zeta. total_steps.
Qed.

Lemma total_parseLookup8 : total parseLookup8.
Proof. unfold parseLookup8. total_steps. Qed.

(** [parseLookup7] as a function of the bytes of the extension header. *)
Lemma parseLookup7_unfold (tbl : Z -> option (M Subtable)) (this : Parser) :
  parseLookup7 tbl this
  = match getUint16 (data this) (position this) with
    | None => Throw RangeError
    | Some substFormat =>
        if substFormat =? 1 then
          match getUint16 (data this) (position this + 2) with
          | None => Throw RangeError
          | Some extensionLookupType =>
              match getUint32 (data this) (position this + 4) with
              | None => Throw RangeError
              | Some extensionOffset =>
                  match callSlot (tbl extensionLookupType)
                          (newParser (data this) (offset this + extensionOffset)) with
                  | Return extension =>
                      Return (Extension 1 extensionLookupType extension, advance 8 this)
                  | Throw e => Throw e
                  | OutOfFuel => OutOfFuel
                  end
              end
          end
        else
          Throw (Error "GSUB Extension Substitution subtable identifier-format must be 1")
    end.
Proof.
  unfold parseLookup7. unfold bind at 1. unfold parseUShort at 1.
  destruct (getUint16 (data this) (position this)) as [f|]; [|reflexivity].
  unfold bind at 1. destruct (f =? 1); [|reflexivity]. cbn [check_argument ret].
  unfold bind at 1. unfold parseUShort.
  autorewrite with parser_state.
  destruct (getUint16 (data this) (position this + 2)) as [t|]; [|reflexivity].
  unfold bind. rewrite parseULong_unfold. autorewrite with parser_state.
  change (2 + 2) with 4.
  destruct (getUint32 (data this) (position this + 4)) as [k|]; [|reflexivity].
  autorewrite with parser_state. reflexivity.
Qed.

Lemma callSlot_not_OutOfFuel {A : Type} (m : M A) (p : Parser) :
  total m -> callSlot (Some m) p <> OutOfFuel.
Proof.
  intros H. cbn. specialize (H p).
  destruct (m p) as [[v q]| |]; [discriminate|discriminate|contradiction].
Qed.

(** The slots other than 7 do not depend on the nesting budget and never
    exhaust it. *)
Lemma subtableParsers_other_slots (fuel fuel' : nat) (i : Z) :
  i <> 7 ->
  subtableParsers fuel i = subtableParsers fuel' i /\
  forall p, callSlot (subtableParsers fuel i) p <> OutOfFuel.
Proof.
  intros Hi. split.
  - destruct fuel, fuel'; cbn [subtableParsers];
      rewrite (eqb_neq_false i 7) by assumption; reflexivity.
  - intros p. destruct fuel; cbn [subtableParsers];
      rewrite (eqb_neq_false i 7) by assumption;
      repeat match goal with
             | |- context [if ?b then _ else _] => destruct b
             end;
      try (apply callSlot_not_OutOfFuel;
           auto using total_parseLookup1, total_parseLookup2, total_parseLookup3,
             total_parseLookup4, total_parseLookup5, total_parseLookup6,
             total_parseLookup8);
      discriminate.
Qed.

Lemma subtableParsers_slot7 (fuel : nat) :
  subtableParsers (S fuel) 7 = Some (parseLookup7 (subtableParsers fuel)).
Proof. reflexivity. Qed.

Lemma parseLookup7_header_None (this : Parser) :
  extensionHeader this = None ->
  exists e, forall tbl, parseLookup7 tbl this = Throw e.
Proof.
  unfold extensionHeader. intros H.
  destruct (getUint16 (data this) (position this)) as [f|] eqn:Ef.
  - destruct (f =? 1) eqn:E1.
    + destruct (getUint16 (data this) (position this + 2)) as [t|] eqn:Et.
      * destruct (getUint32 (data this) (position this + 4)) as [k|] eqn:Ek;
          [discriminate|].
        exists RangeError. intros tbl.
        rewrite parseLookup7_unfold, Ef, E1, Et, Ek. reflexivity.
      * exists RangeError. intros tbl.
        rewrite parseLookup7_unfold, Ef, E1, Et. reflexivity.
    + eexists. intros tbl. rewrite parseLookup7_unfold, Ef, E1. reflexivity.
  - exists RangeError. intros tbl. rewrite parseLookup7_unfold, Ef. reflexivity.
Qed.

Lemma parseLookup7_header_Some (this : Parser) (f t k : Z) :
  extensionHeader this = Some (f, t, k) ->
  forall tbl,
    parseLookup7 tbl this
    = match callSlot (tbl t) (newParser (data this) (offset this + k)) with
      | Return extension => Return (Extension 1 t extension, advance 8 this)
      | Throw e => Throw e
      | OutOfFuel => OutOfFuel
      end.
Proof.
  unfold extensionHeader. intros H tbl. rewrite parseLookup7_unfold.
  destruct (getUint16 (data this) (position this)) as [f'|]; [|discriminate].
  destruct (f' =? 1); [|discriminate].
  destruct (getUint16 (data this) (position this + 2)) as [t'|]; [|discriminate].
  destruct (getUint32 (data this) (position this + 4)) as [k'|]; [|discriminate].
  injection H as _ -> ->. reflexivity.
Qed.

(** The static chain decides whether a nesting budget suffices. *)
Lemma nesting_budget (d : nat) :
  forall (i : Z) (this : Parser),
    (nestingWithin d i this = true ->
     forall fuel, (d <= fuel)%nat ->
       callSlot (subtableParsers fuel i) this <> OutOfFuel /\
       callSlot (subtableParsers fuel i) this = callSlot (subtableParsers d i) this) /\
    (nestingWithin d i this = false ->
     callSlot (subtableParsers d i) this = OutOfFuel).
Proof.
  assert (Other : forall d i this, (i =? 7) = false ->
            (true = true ->
             forall fuel, (d <= fuel)%nat ->
               callSlot (subtableParsers fuel i) this <> OutOfFuel /\
               callSlot (subtableParsers fuel i) this = callSlot (subtableParsers d i) this) /\
            (true = false -> callSlot (subtableParsers d i) this = OutOfFuel)).
  { intros d' i this E7. apply Z.eqb_neq in E7. split; [|discriminate].
    intros _ fuel _.
    destruct (subtableParsers_other_slots fuel d' i E7) as [-> _].
    split; [apply (proj2 (subtableParsers_other_slots d' d' i E7))|reflexivity]. }
  induction d as [|d IH]; intros i this; cbn [nestingWithin];
    destruct (i =? 7) eqn:E7; auto.
  - apply Z.eqb_eq in E7 as ->. split; [discriminate|reflexivity].
  - apply Z.eqb_eq in E7 as ->.
    rewrite subtableParsers_slot7. cbn [callSlot].
    destruct (extensionHeader this) as [[[f t] k]|] eqn:Eh.
    + rewrite (parseLookup7_header_Some _ _ _ _ Eh).
      destruct (IH t (newParser (data this) (offset this + k))) as [IHt IHf].
      split.
      * intros Hn [|fuel] Hf; [lia|].
        destruct (IHt Hn fuel ltac:(lia)) as [H1 H2].
        destruct (IHt Hn d ltac:(lia)) as [H3 _].
        rewrite subtableParsers_slot7. cbn [callSlot].
        rewrite (parseLookup7_header_Some _ _ _ _ Eh), H2.
        split; [|reflexivity].
        destruct (callSlot (subtableParsers d t) _); [discriminate|discriminate|contradiction].
      * intros Hn. rewrite (IHf Hn). reflexivity.
    + destruct (parseLookup7_header_None _ Eh) as [e He].
      split; [|discriminate].
      intros _ [|fuel] Hf; [lia|].
      rewrite subtableParsers_slot7. cbn [callSlot]. rewrite !He.
      split; [discriminate|reflexivity].
Qed.

Lemma self_extension_OutOfFuel (d : DataView) (o : Z) :
  extensionHeader (newParser d o) = Some (1, 7, 0) ->
  forall fuel, callSlot (subtableParsers fuel 7) (newParser d o) = OutOfFuel.
Proof.
  intros Hh. induction fuel as [|fuel IH]; [reflexivity|].
  rewrite subtableParsers_slot7. cbn [callSlot].
  rewrite (parseLookup7_header_Some _ _ _ _ Hh).
  cbn [data offset newParser]. replace (o + 0) with o by lia.
  rewrite IH. reflexivity.
Qed.

(** C3, as stated, fails: on the extension subtable that names lookup
    type 7 at offset 0 -- itself -- no nesting budget lets the dispatch
    table finish, since every re-entry finds the same header again; and
    no budget lets the decode of a table finish whose lookup directory
    holds such a subtable. *)
Lemma extension_cycle_never_ends :
  let this := newParser extension_cycle 0 in
  extensionHeader this = Some (1, 7, 0) /\
  newParser (data this) (offset this + 0) = this /\
  ~ (exists fuel : nat, callSlot (subtableParsers fuel 7) this <> OutOfFuel) /\
  ~ (exists fuel : nat, parseGsub fuel gsub_cycle None <> OutOfFuel).
Proof.
  cbv zeta. split; [reflexivity|]. split; [reflexivity|]. split.
  - intros [fuel H]. apply H.
    exact (self_extension_OutOfFuel extension_cycle 0 eq_refl fuel).
  - intros [fuel H]. apply H. clear H.
    pose proof (self_extension_OutOfFuel gsub_cycle 22 eq_refl fuel) as H. revert H.
    unfold parseGsub, parseGsubTable, parseGsubTableBody, parseLookupList.
    generalize (subtableParsers fuel). intros tbl H.
    cbv in H. cbv.
    destruct (tbl 7) as [f|]; [|discriminate H].
    destruct (f _) as [[v q]| |]; [discriminate H|discriminate H|reflexivity].
Qed.

Lemma parseLookup1_delta_unsigned_witness :
  parseLookup1 (newParser single1_subtable 0)
  = Return (Single1 1 (Some (CoverageFormat1 [5])) 65535,
            advance 6 (newParser single1_subtable 0)) /\
  0 <= 65535 <= 65535 /\
  getUint16 single1_subtable 4 = Some 65535 /\
  forall D : Z, getInt16 single1_subtable 4 = Some D -> 65535 = D mod 65536.
Proof.
  split; [reflexivity|].
  exact (parseLookup1_delta_unsigned (newParser single1_subtable 0) _ 1
           (Some (CoverageFormat1 [5])) 65535 eq_refl).
Defined.

(** ** The input count of chain rules *)

Lemma parseShort_run_high (p : Parser) (count : Z) :
  getUint16 (data p) (position p) = Some count -> 32768 <= count ->
  parseShort p = Return (count - 65536, advance 2 p).
Proof.
  intros H Hc. unfold parseShort, getInt16. rewrite H.
  replace (count <? 32768) with false by (symmetry; apply Z.ltb_ge; lia).
  reflexivity.
Qed.

(** With the array allocation of [parseUShortList], a chain rule whose
    input count field is [0x8000] or more cannot be decoded. *)
Lemma parseChainRule_high_count_throws (this this1 : Parser) (backtrack : list Z) (count : Z) :
  parseUShortList None this = Return (backtrack, this1) ->
  getUint16 (data this1) (position this1) = Some count ->
  32768 <= count ->
  parseChainRule this = Throw RangeError.
Proof.
  intros Hb Hv Hc.
  pose proof (getUint16_range _ _ _ Hv) as Hr.
  unfold parseChainRule.
  rewrite (bind_run _ _ _ _ _ Hb).
  rewrite (bind_run _ _ _ _ _ (parseShort_run_high _ _ Hv Hc)).
  unfold parseUShortList, parseList, countOrRead.
  unfold bind at 1. unfold bind at 1. cbn [ret].
  unfold bind at 1. unfold newArray.
  replace (0 <=? count - 65536 - 1) with false by (symmetry; apply Z.leb_gt; lia).
  reflexivity.
Qed.

(** ** The table assembler *)

Section AssemblerProperties.

Variables ScriptList FeatureList LookupList : Type.
Variable parseVersion' : M Q.
Variable parseScriptList' : M ScriptList.
Variable parseFeatureList' : M FeatureList.
Variable parseLookupList' : (Z -> option (M Subtable)) -> M LookupList.

#[local] Abbreviation parse :=
  (parseGsubTable parseVersion' parseScriptList' parseFeatureList' parseLookupList').

(** The outcome of [parseGsubTable] in terms of the outcomes of the four
    decoders that it runs in sequence. *)
Lemma parseGsubTable_unfold (fuel : nat) (d : DataView) (start : option Z) :
  parse fuel d start
  = match parseVersion' (newParser d (startOffset start)) with
    | Return (tableVersion, p1) =>
        if Qeq_bool tableVersion 1 then
          match parseScriptList' p1 with
          | Return (scripts, p2) =>
              match parseFeatureList' p2 with
              | Return (features, p3) =>
                  match parseLookupList' (subtableParsers fuel) p3 with
                  | Return (lookups, _) =>
                      Return (mkTable tableVersion scripts features lookups)
                  | Throw e => Throw e
                  | OutOfFuel => OutOfFuel
                  end
              | Throw e => Throw e
              | OutOfFuel => OutOfFuel
              end
          | Throw e => Throw e
          | OutOfFuel => OutOfFuel
          end
        else Throw (Error "Unsupported GSUB table version.")
    | Throw e => Throw e
    | OutOfFuel => OutOfFuel
    end.
Proof.
  unfold parse, parseGsubTable, parseGsubTableBody, startOffset, bind.
  destruct (parseVersion' _) as [[v p1]| |]; try reflexivity.
  destruct (Qeq_bool v 1); [|reflexivity]. cbn [check_argument ret].
  destruct (parseScriptList' p1) as [[s p2]| |]; try reflexivity.
  destruct (parseFeatureList' p2) as [[f p3]| |]; try reflexivity.
  destruct (parseLookupList' _ p3) as [[l p4]| |]; reflexivity.
Qed.

(** C7: when the version decoder returns a value other than 1, the
    assembler throws the [Error] "Unsupported GSUB table version.",
    whatever the decoders of the script directory, of the feature
    directory and of the lookup directory are: none of them is run. *)
Theorem unsupported_version_aborts :
  forall (fuel : nat) (d : DataView) (start : option Z) (tableVersion : Q) (p1 : Parser),
    parseVersion' (newParser d (startOffset start)) = Return (tableVersion, p1) ->
    ~ (tableVersion == 1)%Q ->
    parse fuel d start = Throw (Error "Unsupported GSUB table version.").
Proof.
  intros fuel d start v p1 Hv Hne.
  rewrite parseGsubTable_unfold, Hv.
  destruct (Qeq_bool v 1) eqn:E; [|reflexivity].
  apply Qeq_bool_iff in E. contradiction.
Qed.

(** The three ways in which [parseGsubTable] ends. *)
Lemma parseGsubTable_outcome (fuel : nat) (d : DataView) (start : option Z) :
  match parse fuel d start with
  | Return table =>
      exists p1 p2 p3 p4,
        parseVersion' (newParser d (startOffset start)) = Return (version table, p1) /\
        Qeq_bool (version table) 1 = true /\
        parseScriptList' p1 = Return (scripts table, p2) /\
        parseFeatureList' p2 = Return (features table, p3) /\
        parseLookupList' (subtableParsers fuel) p3 = Return (lookups table, p4)
  | Throw e =>
      parseVersion' (newParser d (startOffset start)) = Throw e \/
      exists tableVersion p1,
        parseVersion' (newParser d (startOffset start)) = Return (tableVersion, p1) /\
        ((Qeq_bool tableVersion 1 = false /\ e = Error "Unsupported GSUB table version.") \/
         parseScriptList' p1 = Throw e \/
         exists scripts p2,
           parseScriptList' p1 = Return (scripts, p2) /\
           (parseFeatureList' p2 = Throw e \/
            exists features p3,
              parseFeatureList' p2 = Return (features, p3) /\
              parseLookupList' (subtableParsers fuel) p3 = Throw e))
  | OutOfFuel =>
      parseVersion' (newParser d (startOffset start)) = OutOfFuel \/
      exists tableVersion p1,
        parseVersion' (newParser d (startOffset start)) = Return (tableVersion, p1) /\
        (parseScriptList' p1 = OutOfFuel \/
         exists scripts p2,
           parseScriptList' p1 = Return (scripts, p2) /\
           (parseFeatureList' p2 = OutOfFuel \/
            exists features p3,
              parseFeatureList' p2 = Return (features, p3) /\
              parseLookupList' (subtableParsers fuel) p3 = OutOfFuel))
  end.
Proof.
  rewrite parseGsubTable_unfold.
  destruct (parseVersion' _) as [[v p1]| |]; [|now left|now left].
  destruct (Qeq_bool v 1) eqn:Ev.
  2:{ right. exists v, p1. split; [reflexivity|]. left. now split. }
  destruct (parseScriptList' p1) as [[s p2]| |] eqn:Es.
  2:{ right. exists v, p1. split; [reflexivity|]. right. now left. }
  2:{ right. exists v, p1. split; [reflexivity|]. now left. }
  destruct (parseFeatureList' p2) as [[f p3]| |] eqn:Ef.
  2:{ right. exists v, p1. split; [reflexivity|]. right. right.
      exists s, p2. split; [assumption|]. now left. }
  2:{ right. exists v, p1. split; [reflexivity|]. right.
      exists s, p2. split; [assumption|]. now left. }
  destruct (parseLookupList' _ p3) as [[l p4]| |] eqn:El.
  - exists p1, p2, p3, p4. cbn. auto.
  - right. exists v, p1. split; [reflexivity|]. right. right.
    exists s, p2. split; [assumption|]. right. exists f, p3. auto.
  - right. exists v, p1. split; [reflexivity|]. right.
    exists s, p2. split; [assumption|]. right. exists f, p3. auto.
Qed.

End AssemblerProperties.

Lemma unsupported_version_aborts_witness :
  parseVersion (newParser version2_table 0)
  = Return (81920 # 40960, advance 4 (newParser version2_table 0)) /\
  ~ (81920 # 40960 == 1)%Q /\
  parseGsub 0 version2_table None = Throw (Error "Unsupported GSUB table version.").
Proof.
  split; [reflexivity|]. split; [discriminate|].
  apply (unsupported_version_aborts _ _ _ parseVersion parseScriptList parseFeatureList
           parseLookupList 0 version2_table None (81920 # 40960) _ eq_refl).
  discriminate.
Defined.

(** ** The cursor is the only state *)

Lemma stable_ret {A : Type} (a : A) : stable (ret a).
Proof. intros p x p' [= _ <-]. auto. Qed.

Lemma stable_throw {A : Type} (e : exn) : stable (@throw A e).
Proof. intros p x p' H. discriminate H. Qed.

Lemma stable_bind {A B : Type} (m : M A) (k : A -> M B) :
  stable m -> (forall a, stable (k a)) -> stable (bind m k).
Proof.
  intros Hm Hk p b p' H. apply bind_Return in H as (a & q & H1 & H2).
  apply Hm in H1 as [D1 O1]. apply Hk in H2 as [D2 O2]. split; congruence.
Qed.

Lemma stable_parseUShort : stable parseUShort.
Proof. intros p v p' H. apply parseUShort_Return in H as [_ ->]. auto. Qed.

Lemma stable_parseShort : stable parseShort.
Proof.
  intros p v p'. unfold parseShort. destruct getInt16; [|discriminate].
  intros [= _ <-]. auto.
Qed.

Lemma stable_parseULong : stable parseULong.
Proof.
  intros p v p'. unfold parseULong. destruct getUint32; [|discriminate].
  intros [= _ <-]. auto.
Qed.

Lemma stable_check_argument (b : bool) (message : string) : stable (check_argument b message).
Proof. intros p x p' H. apply check_argument_Return in H as [_ [= _ <-]]. auto. Qed.

Lemma stable_check_assert_false {A : Type} (message : string) :
  stable (@check_assert_false A message).
Proof. intros p x p' H. discriminate H. Qed.

Lemma stable_newArray (count : Z) : stable (newArray count).
Proof.
  intros p x p'. unfold newArray. destruct (_ && _); [|discriminate].
  intros [= _ <-]. auto.
Qed.

Lemma stable_getRelativeOffset : stable getRelativeOffset.
Proof. intros p x p' [= _ <-]. auto. Qed.

Lemma stable_setRelativeOffset (r : Z) : stable (setRelativeOffset r).
Proof. intros p x p' [= _ <-]. auto. Qed.

Lemma stable_repeatM {A : Type} (n : nat) (item : M A) : stable item -> stable (repeatM n item).
Proof.
  intros Hi. induction n as [|n IH]; cbn [repeatM].
  - apply stable_ret.
  - apply stable_bind; [exact Hi|]. intros a.
    apply stable_bind; [exact IH|]. intros l. apply stable_ret.
Qed.

Lemma stable_mapM {A B : Type} (f : A -> M B) (l : list A) :
  (forall a, stable (f a)) -> stable (mapM f l).
Proof.
  intros Hf. induction l as [|a l IH]; cbn [mapM].
  - apply stable_ret.
  - apply stable_bind; [apply Hf|]. intros b.
    apply stable_bind; [exact IH|]. intros bs. apply stable_ret.
Qed.

Lemma stable_countOrRead (count : option Z) : stable (countOrRead count).
Proof. destruct count; [apply stable_ret|apply stable_parseUShort]. Qed.

Lemma stable_parseList {A : Type} (count : option Z) (item : M A) :
  stable item -> stable (parseList count item).
Proof.
  intros Hi. unfold parseList.
  apply stable_bind; [apply stable_countOrRead|]. intros c.
  apply stable_bind; [apply stable_newArray|]. intros _.
  now apply stable_repeatM.
Qed.

Lemma stable_parsePointer {A : Type} (m : M A) : stable (parsePointer m).
Proof.
  intros p r p' H. apply parsePointer_Return in H as (so & _ & -> & _). auto.
Qed.

Create HintDb stable discriminated.
#[local] Hint Resolve stable_ret stable_throw stable_parseUShort stable_parseShort
  stable_parseULong stable_check_argument stable_check_assert_false stable_newArray
  stable_getRelativeOffset stable_setRelativeOffset stable_repeatM stable_mapM
  stable_countOrRead stable_parseList stable_parsePointer : stable.

Ltac stable_steps :=
  repeat first
    [ solve [eauto with stable]
    | match goal with |- stable (if ?b then _ else _) => destruct b end
    | match goal with |- stable (bind _ _) => apply stable_bind; [|intros ?] end ].

Lemma stable_parseUShortList (count : option Z) : stable (parseUShortList count).
Proof. unfold parseUShortList. stable_steps. Qed.

Lemma stable_parseLigature : stable parseLigature.
Proof.
  unfold parseLigature. pose proof stable_parseUShortList. stable_steps.
Qed.

Lemma stable_parseLookupTable (tbl : Z -> option (M Subtable)) :
  stable (parseLookupTable tbl).
Proof. unfold parseLookupTable. stable_steps. Qed.

(** ** Every decoded item comes from a run of its item routine *)

Lemma sameBuffer_refl (p : Parser) : sameBuffer p p.
Proof. split; reflexivity. Qed.

Lemma sameBuffer_trans (p q r : Parser) : sameBuffer p q -> sameBuffer q r -> sameBuffer p r.
Proof. intros [H1 H2] [H3 H4]. split; congruence. Qed.

Lemma stable_sameBuffer {A : Type} (m : M A) (p p' : Parser) (a : A) :
  stable m -> m p = Return (a, p') -> sameBuffer p p'.
Proof. intros H Hm. apply H in Hm. exact Hm. Qed.

Lemma Forall_sameBuffer_weaken {A : Type} (P : Parser -> A -> Prop) (p p0 : Parser) (l : list A) :
  sameBuffer p p0 ->
  Forall (fun x => exists q, sameBuffer p0 q /\ P q x) l ->
  Forall (fun x => exists q, sameBuffer p q /\ P q x) l.
Proof.
  intros Hp. apply Forall_impl. intros x (q & Hq & H).
  exists q. split; [eapply sameBuffer_trans; eauto|exact H].
Qed.

Lemma repeatM_Return_items {A : Type} (item : M A) (n : nat) :
  stable item ->
  forall (p p' : Parser) (l : list A),
    repeatM n item p = Return (l, p') ->
    List.length l = n /\
    Forall (fun x => exists q, sameBuffer p q /\ exists q', item q = Return (x, q')) l.
Proof.
  intros Hs. induction n as [|n IH]; intros p p' l H; cbn [repeatM] in H.
  - injection H as <- <-. split; [reflexivity|constructor].
  - apply bind_Return in H as (x & p1 & Hx & H).
    apply bind_Return in H as (xs & p2 & Hxs & H).
    injection H as <- <-.
    destruct (IH _ _ _ Hxs) as [Hlen Hall].
    split; [cbn; congruence|]. constructor.
    + exists p. split; [apply sameBuffer_refl|eauto].
    + apply (Forall_sameBuffer_weaken (fun q x => exists q', item q = Return (x, q')) p p1);
        [eapply stable_sameBuffer; eauto|exact Hall].
Qed.

Lemma mapM_Return_items {A B : Type} (f : A -> M B) :
  (forall a, stable (f a)) ->
  forall (l : list A) (p p' : Parser) (r : list B),
    mapM f l p = Return (r, p') ->
    Forall (fun b => exists q, sameBuffer p q /\ exists a q', In a l /\ f a q = Return (b, q')) r.
Proof.
  intros Hs. induction l as [|a l IH]; intros p p' r H; cbn [mapM] in H.
  - injection H as <- <-. constructor.
  - apply bind_Return in H as (x & p1 & Hx & H).
    apply bind_Return in H as (xs & p2 & Hxs & H).
    injection H as <- <-.
    constructor.
    + exists p. split; [apply sameBuffer_refl|]. exists a, p1. split; [now left|exact Hx].
    + apply (Forall_sameBuffer_weaken
               (fun q b => exists a0 q', In a0 (a :: l) /\ f a0 q = Return (b, q')) p p1);
        [eapply stable_sameBuffer; eauto|].
      eapply Forall_impl; [|exact (IH _ _ _ Hxs)].
      intros b (q & Hq & a0 & q' & Hin & Hf). exists q. split; [exact Hq|].
      exists a0, q'. split; [now right|exact Hf].
Qed.

Lemma parseList_Return_items {A : Type} (count : option Z) (item : M A) :
  stable item ->
  forall (p p' : Parser) (l : list A),
    parseList count item p = Return (l, p') ->
    Forall (fun x => exists q, sameBuffer p q /\ exists q', item q = Return (x, q')) l.
Proof.
  intros Hs p p' l H. unfold parseList in H.
  apply bind_Return in H as (c & p1 & Hc & H).
  apply bind_Return in H as ([] & p2 & Hn & H).
  apply repeatM_Return_items in H as [_ H]; [|exact Hs].
  apply (Forall_sameBuffer_weaken (fun q x => exists q', item q = Return (x, q')) p p2);
    [|exact H].
  eapply sameBuffer_trans.
  - eapply stable_sameBuffer; [apply stable_countOrRead|exact Hc].
  - eapply stable_sameBuffer; [apply stable_newArray|exact Hn].
Qed.

Lemma parseListOfListsOf_Return_items {A : Type} (item : M A) :
  stable item ->
  forall (p p' : Parser) (sets : list (option (list A))),
    parseListOfListsOf item p = Return (sets, p') ->
    Forall (fun set =>
              forall l, set = Some l ->
                Forall (fun x => exists q, sameBuffer p q /\
                                 exists q', item q = Return (x, q')) l) sets.
Proof.
  intros Hs p p' sets H.
  unfold parseListOfListsOf, parseListOfListsWith in H.
  apply bind_Return in H as (offsets & p1 & Ho & H).
  apply bind_Return in H as (rel & p2 & Hr & H).
  apply bind_Return in H as (list & p3 & Hl & H).
  apply bind_Return in H as ([] & p4 & Hset & H).
  injection H as <- <-.
  assert (Hp2 : sameBuffer p p2).
  { eapply sameBuffer_trans.
    - eapply stable_sameBuffer; [apply stable_parseUShortList|exact Ho].
    - eapply stable_sameBuffer; [apply stable_getRelativeOffset|exact Hr]. }
  assert (HsubStable : forall start,
             stable (subOffsets <- parseOffset16List;;
                     mapM (fun subOffset => setRelativeOffset (start + subOffset);;; item)
                       subOffsets)).
  { intros start. apply stable_bind; [apply stable_parseUShortList|]. intros subOffsets.
    apply stable_mapM. intros so. stable_steps. }
  apply mapM_Return_items in Hl.
  2:{ intros start. destruct (start =? 0); [apply stable_ret|].
      apply stable_bind; [apply stable_setRelativeOffset|]. intros _.
      apply stable_bind; [apply HsubStable|]. intros l. apply stable_ret. }
  eapply Forall_impl; [|exact Hl].
  intros set (q & Hq & start & q' & _ & Hf) l ->.
  destruct (start =? 0); [discriminate Hf|].
  apply bind_Return in Hf as ([] & q1 & Hq1 & Hf).
  apply bind_Return in Hf as (subList & q2 & Hsub & Hf).
  injection Hf as <- <-.
  apply bind_Return in Hsub as (subOffsets & q3 & Hso & Hsub).
  apply mapM_Return_items in Hsub; [|intros so; stable_steps].
  assert (Hq3 : sameBuffer p q3).
  { eapply sameBuffer_trans; [exact Hp2|].
    eapply sameBuffer_trans; [exact Hq|].
    eapply sameBuffer_trans.
    - eapply stable_sameBuffer; [apply stable_setRelativeOffset|exact Hq1].
    - eapply stable_sameBuffer; [apply stable_parseUShortList|exact Hso]. }
  eapply Forall_impl; [|exact Hsub].
  intros x (r & Hr' & so & r' & _ & Hitem).
  apply bind_Return in Hitem as ([] & r1 & Hr1 & Hitem).
  exists r1. split; [|eauto].
  eapply sameBuffer_trans; [exact Hq3|].
  eapply sameBuffer_trans; [exact Hr'|].
  eapply stable_sameBuffer; [apply stable_setRelativeOffset|exact Hr1].
Qed.

(** ** Ligature rules *)

Lemma repeatM_parseUShort_Return (n : nat) :
  forall (p p' : Parser) (l : list Z),
    repeatM n parseUShort p = Return (l, p') ->
    List.length l = n /\
    p' = advance (2 * Z.of_nat n) p /\
    forall j : nat, (j < n)%nat ->
      nth_error l j = getUint16 (data p) (position p + 2 * Z.of_nat j).
Proof.
  induction n as [|n IH]; intros p p' l H; cbn [repeatM] in H.
  - injection H as <- <-. split; [reflexivity|]. split.
    + unfold advance. destruct p; cbn. f_equal. lia.
    + intros j Hj. lia.
  - apply bind_Return in H as (x & p1 & Hx & H).
    apply bind_Return in H as (xs & p2 & Hxs & H).
    injection H as <- <-.
    apply parseUShort_Return in Hx as [Hx ->].
    destruct (IH _ _ _ Hxs) as (Hlen & -> & Hnth).
    split; [cbn; congruence|]. split.
    + rewrite advance_advance. f_equal. lia.
    + intros [|j] Hj.
      * cbn [nth_error]. rewrite <- Hx. f_equal. lia.
      * cbn [nth_error]. rewrite Hnth by lia.
        autorewrite with parser_state. f_equal. lia.
Qed.

Lemma parseUShortList_count_Return (count : Z) (p p' : Parser) (l : list Z) :
  parseUShortList (Some count) p = Return (l, p') ->
  0 <= count /\
  Z.of_nat (List.length l) = count /\
  p' = advance (2 * count) p /\
  forall j : nat, (j < List.length l)%nat ->
    nth_error l j = getUint16 (data p) (position p + 2 * Z.of_nat j).
Proof.
  unfold parseUShortList, parseList, countOrRead. intros H.
  apply bind_Return in H as (c & p1 & Hc & H). injection Hc as <- <-.
  apply bind_Return in H as ([] & p2 & Hn & H).
  unfold newArray in Hn.
  destruct (0 <=? count) eqn:E0; [|discriminate Hn].
  destruct (count <? 4294967296); [|discriminate Hn].
  injection Hn as <-. apply Z.leb_le in E0.
  apply repeatM_parseUShort_Return in H as (Hlen & -> & Hnth).
  split; [exact E0|]. split; [lia|]. split.
  - f_equal. lia.
  - intros j Hj. apply Hnth. lia.
Qed.

Lemma parseLigature_Return (this this' : Parser) (lig : Ligature) :
  parseLigature this = Return (lig, this') ->
  exists glyphCount : Z,
    getUint16 (data this) (position this) = Some (ligGlyph lig) /\
    getUint16 (data this) (position this + 2) = Some glyphCount /\
    Z.of_nat (List.length (components lig)) = glyphCount - 1 /\
    this' = advance (4 + 2 * (glyphCount - 1)) this /\
    forall j : nat, (j < List.length (components lig))%nat ->
      nth_error (components lig) j
      = getUint16 (data this) (position this + 4 + 2 * Z.of_nat j).
Proof.
  unfold parseLigature. intros H.
  apply bind_Return in H as (g & p1 & Hg & H).
  apply bind_Return in H as (c & p2 & Hc & H).
  apply bind_Return in H as (l & p3 & Hl & H).
  injection H as <- <-.
  apply parseUShort_Return in Hg as [Hg ->].
  apply parseUShort_Return in Hc as [Hc ->].
  apply parseUShortList_count_Return in Hl as (_ & Hlen & -> & Hnth).
  autorewrite with parser_state in *. cbn [ligGlyph components].
  exists c. split; [exact Hg|]. split; [exact Hc|]. split; [exact Hlen|]. split.
  - f_equal; lia.
  - intros j Hj. rewrite Hnth by exact Hj. f_equal; lia.
Qed.



(** ** Failures abort the whole decode *)

Lemma parseLookupTable_Return (tbl : Z -> option (M Subtable)) (p p' : Parser) (lookup : Lookup) :
  parseLookupTable tbl p = Return (lookup, p') ->
  1 <= lookup_lookupType lookup <= 8 /\
  Forall (fun subtable =>
            forall v, subtable = Some v ->
              exists parser, callSlot (tbl (lookup_lookupType lookup)) parser = Return v)
    (subtables lookup).
Proof.
  unfold parseLookupTable. intros H.
  apply bind_Return in H as (t & p1 & Ht & H).
  apply bind_Return in H as ([] & p2 & Hck & H).
  apply bind_Return in H as (flag & p3 & Hflag & H).
  apply bind_Return in H as (sts & p4 & Hsts & H).
  apply bind_Return in H as (mfs & p5 & Hmfs & H).
  injection H as <- <-. cbn [lookup_lookupType subtables].
  apply check_argument_Return in Hck as [Hck _].
  apply andb_true_iff in Hck as [H1 H8]. split; [lia|].
  apply parseList_Return_items in Hsts; [|apply stable_parsePointer].
  eapply Forall_impl; [|exact Hsts].
  intros st (q & _ & q' & Hq) v ->.
  apply parsePointer_Return in Hq as (so & _ & _ & _ & q2 & Hcall).
  destruct (callSlot (tbl t) _) as [v'| |] eqn:E; try discriminate Hcall.
  injection Hcall as -> _. eauto.
Qed.

Lemma parseLookupList_Return (tbl : Z -> option (M Subtable)) (p p' : Parser)
      (lookups : list (option Lookup)) :
  parseLookupList tbl p = Return (Some lookups, p') ->
  Forall (fun entry =>
            forall lookup, entry = Some lookup ->
              1 <= lookup_lookupType lookup <= 8 /\
              Forall (fun subtable =>
                        forall v, subtable = Some v ->
                          exists parser,
                            callSlot (tbl (lookup_lookupType lookup)) parser = Return v)
                (subtables lookup))
    lookups.
Proof.
  unfold parseLookupList. intros H.
  apply parsePointer_Return in H as (so & _ & _ & _ & q & H).
  apply parseList_Return_items in H; [|apply stable_parsePointer].
  eapply Forall_impl; [|exact H].
  intros entry (q1 & _ & q2 & Hq) lookup ->.
  apply parsePointer_Return in Hq as (so' & _ & _ & _ & q3 & Hl).
  eapply parseLookupTable_Return; eauto.
Qed.

(** ** An extension of lookup type 1 against the standalone subtable *)

Section Relocation.

Variables (standalone : DataView) (base : Z) (host : DataView) (base' : Z).
Hypothesis Hembedded : embedded standalone base host base'.

#[local] Abbreviation related := (shifted standalone base host base').
#[local] Abbreviation simulates := (relocates standalone base host base').

Lemma getUint16_embedded (p p' : Parser) (v : Z) :
  related p p' ->
  getUint16 (data p) (position p) = Some v ->
  getUint16 (data p') (position p') = Some v.
Proof.
  intros (Hd & Hd' & Hb & Hr & Ho & Hr') H. unfold getUint16 in *.
  destruct (getUint8 (data p) (position p)) as [hi|] eqn:Hhi; [|discriminate].
  destruct (getUint8 (data p) (position p + 1)) as [lo|] eqn:Hlo; [|discriminate].
  rewrite Hd in Hhi, Hlo. rewrite Hd'. unfold position in *.
  replace (offset p + relativeOffset p)
    with (base + (offset p + relativeOffset p - base)) in Hhi by lia.
  replace (offset p + relativeOffset p + 1)
    with (base + (offset p + relativeOffset p - base + 1)) in Hlo by lia.
  apply Hembedded in Hhi; [|lia]. apply Hembedded in Hlo; [|lia].
  replace (offset p' + relativeOffset p')
    with (base' + (offset p + relativeOffset p - base)) by lia.
  replace (base' + (offset p + relativeOffset p - base) + 1)
    with (base' + (offset p + relativeOffset p - base + 1)) by lia.
  now rewrite Hhi, Hlo.
Qed.

Lemma related_advance (n : Z) (p p' : Parser) :
  0 <= n -> related p p' -> related (advance n p) (advance n p').
Proof.
  intros Hn (Hd & Hd' & Hb & Hr & Ho & Hr'). unfold related, shifted, advance. cbn.
  repeat split; auto; lia.
Qed.

Lemma simulates_ret {A : Type} (a : A) : simulates (ret a).
Proof. intros p p' x q Hrel [= <- <-]. exists p'. split; [reflexivity|exact Hrel]. Qed.

Lemma simulates_bind {A B : Type} (m : M A) (k : A -> M B) :
  simulates m -> (forall a, simulates (k a)) -> simulates (bind m k).
Proof.
  intros Hm Hk p p' b q Hrel H.
  apply bind_Return in H as (a & p1 & H1 & H2).
  destruct (Hm _ _ _ _ Hrel H1) as (p1' & H1' & Hrel1).
  destruct (Hk a _ _ _ _ Hrel1 H2) as (q' & H2' & Hrel2).
  exists q'. split; [|exact Hrel2]. now rewrite (bind_run _ _ _ _ _ H1').
Qed.

Lemma simulates_parseUShort : simulates parseUShort.
Proof.
  intros p p' v q Hrel H. apply parseUShort_Return in H as [H ->].
  exists (advance 2 p'). split.
  - apply parseUShort_run. eapply getUint16_embedded; eauto.
  - apply related_advance; [lia|exact Hrel].
Qed.

Lemma simulates_newArray (count : Z) : simulates (newArray count).
Proof.
  intros p p' x q Hrel. unfold newArray.
  destruct (_ && _); [|discriminate]. intros [= <- <-].
  exists p'. split; [reflexivity|exact Hrel].
Qed.

Lemma simulates_repeatM {A : Type} (n : nat) (item : M A) :
  simulates item -> simulates (repeatM n item).
Proof.
  intros Hi. induction n as [|n IH]; cbn [repeatM].
  - apply simulates_ret.
  - apply simulates_bind; [exact Hi|]. intros a.
    apply simulates_bind; [exact IH|]. intros l. apply simulates_ret.
Qed.

Lemma simulates_parseList {A : Type} (count : option Z) (item : M A) :
  simulates item -> simulates (parseList count item).
Proof.
  intros Hi. unfold parseList.
  apply simulates_bind.
  - destruct count; [apply simulates_ret|apply simulates_parseUShort].
  - intros c. apply simulates_bind; [apply simulates_newArray|].
    intros _. now apply simulates_repeatM.
Qed.

Lemma simulates_parsePointer {A : Type} (m : M A) :
  simulates m -> simulates (parsePointer m).
Proof.
  intros Hm p p' r q Hrel H.
  apply parsePointer_Return in H as (so & Hso & -> & Hr).
  pose proof (getUint16_embedded _ _ _ Hrel Hso) as Hso'.
  exists (advance 2 p'). split; [|apply related_advance; [lia|exact Hrel]].
  unfold parsePointer, parseOffset16. rewrite (parseUShort_run _ _ Hso').
  destruct r as [v|].
  - destruct Hr as (Hpos & q2 & Hq2).
    replace (0 <? so) with true by (symmetry; apply Z.ltb_lt; exact Hpos).
    assert (Hrel2 : related (newParser (data p) (offset p + so))
                      (newParser (data (advance 2 p')) (offset (advance 2 p') + so))).
    { destruct Hrel as (Hd & Hd' & Hb & Hr0 & Ho & Hr').
      unfold related, shifted, newParser, advance. cbn. repeat split; auto; lia. }
    destruct (Hm _ _ _ _ Hrel2 Hq2) as (q2' & -> & _). reflexivity.
  - subst so. reflexivity.
Qed.

Lemma simulates_parseRangeRecord : simulates parseRangeRecord.
Proof.
  unfold parseRangeRecord.
  repeat (apply simulates_bind; [apply simulates_parseUShort|intros ?]).
  apply simulates_ret.
Qed.

Lemma simulates_parseCoverage : simulates parseCoverage.
Proof.
  intros p p' c q Hrel H. unfold parseCoverage in *.
  revert H. generalize (position p). generalize (position p'). intros start' start H.
  apply bind_Return in H as (f & p1 & Hf & H).
  destruct (simulates_parseUShort _ _ _ _ Hrel Hf) as (p1' & Hf' & Hrel1).
  rewrite (bind_run _ _ _ _ _ Hf').
  destruct (f =? 1).
  - revert H. apply simulates_bind; [|intros l; apply simulates_ret|exact Hrel1].
    apply simulates_parseList, simulates_parseUShort.
  - destruct (f =? 2); [|discriminate H].
    revert H. apply simulates_bind; [|intros l; apply simulates_ret|exact Hrel1].
    apply simulates_parseList, simulates_parseRangeRecord.
Qed.

Lemma simulates_parseLookup1 : simulates parseLookup1.
Proof.
  intros p p' v q Hrel H. unfold parseLookup1 in *.
  revert H. generalize (offset p + relativeOffset p).
  generalize (offset p' + relativeOffset p'). intros start' start H.
  apply bind_Return in H as (f & p1 & Hf & H).
  destruct (simulates_parseUShort _ _ _ _ Hrel Hf) as (p1' & Hf' & Hrel1).
  rewrite (bind_run _ _ _ _ _ Hf').
  destruct (f =? 1).
  - revert H. apply simulates_bind; [| |exact Hrel1].
    + apply simulates_parsePointer, simulates_parseCoverage.
    + intros c. apply simulates_bind; [apply simulates_parseUShort|].
      intros d. apply simulates_ret.
  - destruct (f =? 2); [|discriminate H].
    revert H. apply simulates_bind; [| |exact Hrel1].
    + apply simulates_parsePointer, simulates_parseCoverage.
    + intros c. apply simulates_bind; [apply simulates_parseList, simulates_parseUShort|].
      intros d. apply simulates_ret.
Qed.

(** The standalone subtable, decoded from [base], and the same bytes
    decoded inside the host from [base'], give the same subtable. *)
Lemma parseLookup1_relocated (v : Subtable) (q : Parser) :
  parseLookup1 (newParser standalone base) = Return (v, q) ->
  exists q', parseLookup1 (newParser host base') = Return (v, q').
Proof.
  intros H.
  destruct (simulates_parseLookup1 (newParser standalone base) (newParser host base') v q)
    as (q' & Hq' & _); [|exact H|eauto].
  unfold related, shifted, newParser. cbn. repeat split; auto; lia.
Qed.

End Relocation.

Lemma embedded_app (pre l : DataView) :
  embedded l 0 (pre ++ l)%list (Z.of_nat (List.length pre)).
Proof.
  intros i v Hi. unfold getUint8.
  replace (0 + i <? 0) with false by (symmetry; apply Z.ltb_ge; lia).
  replace (Z.of_nat (List.length pre) + i <? 0) with false
    by (symmetry; apply Z.ltb_ge; lia).
  replace (Z.to_nat (Z.of_nat (List.length pre) + i))
    with (List.length pre + Z.to_nat (0 + i))%nat by lia.
  rewrite nth_error_app2 by lia.
  replace (List.length pre + Z.to_nat (0 + i) - List.length pre)%nat
    with (Z.to_nat (0 + i)) by lia.
  auto.
Qed.

(** C4: when a type 7 extension subtable names lookup type 1 and the
    bytes at its resolved offset ([this.offset] plus the 32-bit offset)
    are, byte for byte, those of a standalone type 1 subtable that
    decodes to [v], then the extension decodes to the record
    [{ substFormat: 1, lookupType: 1, extension: v }]: its [extension]
    field is equal to the standalone result, and only the wrapping
    record is added. *)
Theorem extension_of_type1_equals_standalone :
  forall (fuel : nat) (this : Parser) (substFormat extensionOffset : Z)
         (standalone : DataView) (base : Z) (v : Subtable) (q : Parser),
    extensionHeader this = Some (substFormat, 1, extensionOffset) ->
    embedded standalone base (data this) (offset this + extensionOffset) ->
    parseLookup1 (newParser standalone base) = Return (v, q) ->
    parseLookup7 (subtableParsers fuel) this = Return (Extension 1 1 v, advance 8 this) /\
    callSlot (subtableParsers (S fuel) 7) this = Return (Extension 1 1 v) /\
    callSlot (subtableParsers fuel 1) (newParser standalone base) = Return v.
Proof.
  intros fuel this f k standalone base v q Hh Hemb Hv.
  destruct (parseLookup1_relocated _ _ _ _ Hemb v q Hv) as (q' & Hq').
  assert (H7 : parseLookup7 (subtableParsers fuel) this
               = Return (Extension 1 1 v, advance 8 this)).
  { rewrite (parseLookup7_header_Some _ _ _ _ Hh).
    replace (subtableParsers fuel 1) with (Some parseLookup1) by (now destruct fuel).
    cbn [callSlot]. rewrite Hq'. reflexivity. }
  split; [exact H7|]. split.
  - rewrite subtableParsers_slot7. cbn [callSlot]. now rewrite H7.
  - replace (subtableParsers fuel 1) with (Some parseLookup1) by (now destruct fuel).
    cbn [callSlot]. now rewrite Hv.
Qed.

Lemma extension_of_type1_equals_standalone_witness :
  extensionHeader (newParser extension_single1 0) = Some (1, 1, 8) /\
  embedded single1_subtable 0 extension_single1 8 /\
  parseLookup1 (newParser single1_subtable 0)
  = Return (Single1 1 (Some (CoverageFormat1 [5])) 65535,
            advance 6 (newParser single1_subtable 0)) /\
  callSlot (subtableParsers 1 7) (newParser extension_single1 0)
  = Return (Extension 1 1 (Single1 1 (Some (CoverageFormat1 [5])) 65535)).
Proof.
  assert (Hemb : embedded single1_subtable 0 extension_single1 8)
    by exact (embedded_app [x00; x01; x00; x01; x00; x00; x00; x08] single1_subtable).
  split; [reflexivity|]. split; [exact Hemb|]. split; [reflexivity|].
  exact (proj1 (proj2 (extension_of_type1_equals_standalone 0
                         (newParser extension_single1 0) 1 8 single1_subtable 0
                         _ _ eq_refl Hemb eq_refl))).
Defined.

(** ** Termination of the whole decode *)

Lemma getUint8_outside (d : DataView) (o : Z) :
  o < 0 \/ Z.of_nat (List.length d) <= o -> getUint8 d o = None.
Proof.
  intros H. unfold getUint8. destruct (o <? 0) eqn:E; [reflexivity|].
  apply Z.ltb_ge in E.
  replace (nth_error d (Z.to_nat o)) with (@None byte); [reflexivity|].
  symmetry. apply nth_error_None. lia.
Qed.

Lemma position_newParser (d : DataView) (o : Z) : position (newParser d o) = o.
Proof. unfold position, newParser. cbn. lia. Qed.

Lemma chainsWithin_spec (n : nat) (d : DataView) :
  chainsWithin (S n) d = true ->
  forall (i o : Z), nestingWithin (S n) i (newParser d o) = true.
Proof.
  intros H i o. unfold chainsWithin in H. rewrite forallb_forall in H.
  destruct (Z.eq_dec i 7) as [->|Hi].
  2:{ cbn [nestingWithin]. now rewrite eqb_neq_false. }
  destruct (Z_lt_dec o 0) as [Hneg|Hpos];
    [|destruct (Z_le_dec (Z.of_nat (List.length d)) o) as [Hbig|Hin]].
  - cbn [nestingWithin Z.eqb Pos.eqb]. unfold extensionHeader, getUint16.
    cbn [data newParser]. rewrite position_newParser.
    rewrite (getUint8_outside d o) by lia. reflexivity.
  - cbn [nestingWithin Z.eqb Pos.eqb]. unfold extensionHeader, getUint16.
    cbn [data newParser]. rewrite position_newParser.
    rewrite (getUint8_outside d o) by lia. reflexivity.
  - replace o with (Z.of_nat (Z.to_nat o)) by lia.
    apply H. apply in_seq. lia.
Qed.

Lemma totalOn_of_total {A : Type} (d : DataView) (m : M A) : total m -> totalOn d m.
Proof. intros H p _. apply H. Qed.

Lemma totalOn_bind {A B : Type} (d : DataView) (m : M A) (k : A -> M B) :
  totalOn d m -> stable m -> (forall a, totalOn d (k a)) -> totalOn d (bind m k).
Proof.
  intros Hm Hs Hk p Hp. unfold bind. specialize (Hm p Hp).
  destruct (m p) as [[a p']| |] eqn:E; [|discriminate|contradiction].
  apply Hk. apply Hs in E as [-> _]. exact Hp.
Qed.

Lemma totalOn_repeatM {A : Type} (d : DataView) (n : nat) (item : M A) :
  totalOn d item -> stable item -> totalOn d (repeatM n item).
Proof.
  intros Hi Hs. induction n as [|n IH]; cbn [repeatM].
  - apply totalOn_of_total, total_ret.
  - apply totalOn_bind; [exact Hi|exact Hs|]. intros a.
    apply totalOn_bind; [exact IH|now apply stable_repeatM|]. intros l.
    apply totalOn_of_total, total_ret.
Qed.

Lemma totalOn_parseList {A : Type} (d : DataView) (count : option Z) (item : M A) :
  totalOn d item -> stable item -> totalOn d (parseList count item).
Proof.
  intros Hi Hs. unfold parseList.
  apply totalOn_bind;
    [apply totalOn_of_total, total_countOrRead|apply stable_countOrRead|]. intros c.
  apply totalOn_bind;
    [apply totalOn_of_total, total_newArray|apply stable_newArray|]. intros _.
  now apply totalOn_repeatM.
Qed.

Lemma totalOn_parsePointer {A : Type} (d : DataView) (m : M A) :
  (forall o, m (newParser d o) <> OutOfFuel) -> totalOn d (parsePointer m).
Proof.
  intros Hm p Hp. unfold parsePointer, parseOffset16.
  pose proof (total_parseUShort p) as Hu.
  destruct (parseUShort p) as [[so p']| |] eqn:E; [|discriminate|contradiction].
  apply parseUShort_Return in E as [_ ->]. rewrite data_advance, Hp.
  destruct (0 <? so); [|discriminate].
  specialize (Hm (offset (advance 2 p) + so)).
  destruct (m _) as [[v q]| |]; [discriminate|discriminate|contradiction].
Qed.

Lemma totalOn_parseLookupTable (d : DataView) (tbl : Z -> option (M Subtable)) :
  (forall i o, callSlot (tbl i) (newParser d o) <> OutOfFuel) ->
  totalOn d (parseLookupTable tbl).
Proof.
  intros H. unfold parseLookupTable.
  apply totalOn_bind;
    [apply totalOn_of_total, total_parseUShort|apply stable_parseUShort|]. intros t.
  apply totalOn_bind;
    [apply totalOn_of_total, total_check_argument|apply stable_check_argument|]. intros _.
  apply totalOn_bind;
    [apply totalOn_of_total, total_parseUShort|apply stable_parseUShort|]. intros flag.
  apply totalOn_bind.
  - apply totalOn_parseList; [|apply stable_parsePointer].
    apply totalOn_parsePointer. intros o. specialize (H t o).
    destruct (callSlot (tbl t) (newParser d o)); [discriminate|discriminate|contradiction].
  - apply stable_parseList, stable_parsePointer.
  - intros sts. apply totalOn_of_total. total_steps.
Qed.

Lemma totalOn_parseLookupList (d : DataView) (tbl : Z -> option (M Subtable)) :
  (forall i o, callSlot (tbl i) (newParser d o) <> OutOfFuel) ->
  totalOn d (parseLookupList tbl).
Proof.
  intros H. unfold parseLookupList.
  apply totalOn_parsePointer. intros o.
  apply (totalOn_parseList d); [|apply stable_parsePointer|reflexivity].
  apply totalOn_parsePointer. intros o'.
  now apply (totalOn_parseLookupTable d).
Qed.

Lemma total_parseVersion : total parseVersion.
Proof. unfold parseVersion. total_steps. Qed.

Lemma stable_parseVersion : stable parseVersion.
Proof. unfold parseVersion. stable_steps. Qed.

Lemma total_parseScriptList : total parseScriptList.
Proof. unfold parseScriptList. total_steps. Qed.

(** C3, as stated, fails; amended: the decode ends on every input whose
    chains of type 7 indirections are finite.  A dispatch of lookup type
    [i] at a parser ends -- it returns or throws -- within the nesting
    budget [d] exactly when the static chain of extension headers that
    starts there has at most [d] nested extensions, and a larger budget
    then gives the same outcome; so the nesting depth is bounded by the
    chain.  When every chain that starts in the buffer has at most
    [n + 1] nested extensions, the table decode ends with that budget,
    for version, script and feature decoders that end and only move the
    cursor. *)
Theorem decode_ends_on_finite_chains :
  (forall (d : nat) (i : Z) (this : Parser),
      (nestingWithin d i this = true ->
       forall fuel, (d <= fuel)%nat ->
         callSlot (subtableParsers fuel i) this <> OutOfFuel /\
         callSlot (subtableParsers fuel i) this = callSlot (subtableParsers d i) this) /\
      (nestingWithin d i this = false ->
       callSlot (subtableParsers d i) this = OutOfFuel)) /\
  (forall (ScriptList FeatureList : Type)
          (parseVersion' : M Q) (parseScriptList' : M ScriptList)
          (parseFeatureList' : M FeatureList)
          (n fuel : nat) (d : DataView) (start : option Z),
      total parseVersion' -> stable parseVersion' ->
      total parseScriptList' -> stable parseScriptList' ->
      total parseFeatureList' -> stable parseFeatureList' ->
      chainsWithin (S n) d = true ->
      (S n <= fuel)%nat ->
      parseGsubTable parseVersion' parseScriptList' parseFeatureList' parseLookupList
        fuel d start <> OutOfFuel).
Proof.
  split; [intros d; apply nesting_budget|].
  intros SL FL PV PS PF n fuel d start HtV HsV HtS HsS HtF HsF Hchains Hfuel.
  assert (Hslots : forall i o,
             callSlot (subtableParsers fuel i) (newParser d o) <> OutOfFuel).
  { intros i o.
    apply (proj1 (nesting_budget (S n) i (newParser d o))); [|exact Hfuel].
    now apply chainsWithin_spec. }
  rewrite parseGsubTable_unfold.
  specialize (HtV (newParser d (startOffset start))).
  destruct (PV _) as [[v p1]| |] eqn:EV; [|discriminate|contradiction].
  apply HsV in EV as [D1 _]. cbn [data newParser] in D1.
  destruct (Qeq_bool v 1); [|discriminate].
  specialize (HtS p1).
  destruct (PS p1) as [[s p2]| |] eqn:ES; [|discriminate|contradiction].
  apply HsS in ES as [D2 _].
  specialize (HtF p2).
  destruct (PF p2) as [[f p3]| |] eqn:EF; [|discriminate|contradiction].
  apply HsF in EF as [D3 _].
  pose proof (totalOn_parseLookupList d _ Hslots p3 ltac:(congruence)) as HL.
  destruct (parseLookupList _ p3) as [[l p4]| |]; [discriminate|discriminate|contradiction].
Qed.

Lemma decode_ends_on_finite_chains_witness :
  nestingWithin 1 7 (newParser extension_single1 0) = true /\
  callSlot (subtableParsers 1 7) (newParser extension_single1 0) <> OutOfFuel /\
  chainsWithin 1 gsub_table = true /\
  parseGsub 1 gsub_table None <> OutOfFuel.
Proof.
  split; [reflexivity|]. split; [|split; [reflexivity|]].
  - exact (proj1 (proj1 (proj1 decode_ends_on_finite_chains 1%nat 7
                           (newParser extension_single1 0)) eq_refl 1%nat (le_n 1))).
  - exact (proj2 decode_ends_on_finite_chains _ _ parseVersion parseScriptList
             parseFeatureList 0%nat 1%nat gsub_table None
             total_parseVersion stable_parseVersion
             total_parseScriptList (stable_parsePointer (ret tt))
             total_parseScriptList (stable_parsePointer (ret tt))
             eq_refl (le_n 1)).
Defined.

(** * Further properties of the subtable parsers *)

(** ** The shape of what the dispatch table returns *)

(** Undo the binds and branches of a run that returned. *)
Ltac run_inv H :=
  repeat first
    [ match type of H with
      | bind _ _ _ = Return _ => apply bind_Return in H as (? & ? & ? & H)
      end
    | match type of H with
      | (if ?b then _ else _) _ = Return _ => destruct b eqn:?
      end
    | match type of H with
      | check_assert_false _ _ = Return _ => discriminate H
      end ].

Lemma parseLookup1_shaped (this this' : Parser) (v : Subtable) :
  parseLookup1 this = Return (v, this') -> shaped 1 this v.
Proof.
  unfold parseLookup1. intros H.
  apply bind_Return in H as (f & p1 & Hf & H).
  apply parseUShort_Return in Hf as [Hf ->].
  destruct (f =? 1) eqn:E1; [|destruct (f =? 2) eqn:E2; [|discriminate H]];
    run_inv H; injection H as <- _.
  - apply Z.eqb_eq in E1. subst f. now repeat split.
  - apply Z.eqb_eq in E2. subst f. now repeat split.
Qed.

(** The parsers that accept format 1 only. *)
Ltac format1_shaped H :=
  let f := fresh "f" in
  let p1 := fresh "p" in
  let Hf := fresh "Hf" in
  let Hck := fresh "Hck" in
  apply bind_Return in H as (f & p1 & Hf & H);
  apply parseUShort_Return in Hf as [Hf ->];
  apply bind_Return in H as ([] & ? & Hck & H);
  apply check_argument_Return in Hck as [Hck _];
  apply Z.eqb_eq in Hck; subst f.

Lemma parseLookup2_shaped (this this' : Parser) (v : Subtable) :
  parseLookup2 this = Return (v, this') -> shaped 2 this v.
Proof.
  unfold parseLookup2. intros H. format1_shaped H.
  run_inv H. injection H as <- _. now repeat split.
Qed.

Lemma parseLookup3_shaped (this this' : Parser) (v : Subtable) :
  parseLookup3 this = Return (v, this') -> shaped 3 this v.
Proof.
  unfold parseLookup3. intros H. format1_shaped H.
  run_inv H. injection H as <- _. now repeat split.
Qed.

Lemma parseLookup4_shaped (this this' : Parser) (v : Subtable) :
  parseLookup4 this = Return (v, this') -> shaped 4 this v.
Proof.
  unfold parseLookup4. intros H. format1_shaped H.
  run_inv H. injection H as <- _. now repeat split.
Qed.

Lemma parseLookup8_shaped (this this' : Parser) (v : Subtable) :
  parseLookup8 this = Return (v, this') -> shaped 8 this v.
Proof.
  unfold parseLookup8. intros H. format1_shaped H.
  run_inv H. injection H as <- _. now repeat split.
Qed.

Lemma parseLookup5_shaped (this this' : Parser) (v : Subtable) :
  parseLookup5 this = Return (v, this') -> shaped 5 this v.
Proof.
  unfold parseLookup5. intros H.
  apply bind_Return in H as (f & p1 & Hf & H).
  apply parseUShort_Return in Hf as [Hf ->].
  destruct (f =? 1) eqn:E1;
    [|destruct (f =? 2) eqn:E2; [|destruct (f =? 3) eqn:E3; [|discriminate H]]];
    run_inv H; injection H as <- _.
  - apply Z.eqb_eq in E1. subst f. now repeat split.
  - apply Z.eqb_eq in E2. subst f. now repeat split.
  - apply Z.eqb_eq in E3. subst f. now repeat split.
Qed.

Lemma parseLookup6_shaped (this this' : Parser) (v : Subtable) :
  parseLookup6 this = Return (v, this') -> shaped 6 this v.
Proof.
  unfold parseLookup6. intros H.
  apply bind_Return in H as (f & p1 & Hf & H).
  apply parseUShort_Return in Hf as [Hf ->].
  destruct (f =? 1) eqn:E1;
    [|destruct (f =? 2) eqn:E2; [|destruct (f =? 3) eqn:E3; [|discriminate H]]];
    run_inv H; injection H as <- _.
  - apply Z.eqb_eq in E1. subst f. now repeat split.
  - apply Z.eqb_eq in E2. subst f. now repeat split.
  - apply Z.eqb_eq in E3. subst f. now repeat split.
Qed.

(** What [parseLookup7] returned, read back from the header. *)
Lemma parseLookup7_Return (tbl : Z -> option (M Subtable)) (this this' : Parser) (v : Subtable) :
  parseLookup7 tbl this = Return (v, this') ->
  exists (extensionLookupType extensionOffset : Z) (extension : Subtable),
    extensionHeader this = Some (1, extensionLookupType, extensionOffset) /\
    callSlot (tbl extensionLookupType)
      (newParser (data this) (offset this + extensionOffset)) = Return extension /\
    v = Extension 1 extensionLookupType extension /\
    this' = advance 8 this.
Proof.
  rewrite parseLookup7_unfold. unfold extensionHeader. intros H.
  destruct (getUint16 (data this) (position this)) as [f|]; [|discriminate H].
  destruct (f =? 1) eqn:E1; [|discriminate H]. apply Z.eqb_eq in E1. subst f.
  destruct (getUint16 (data this) (position this + 2)) as [t|]; [|discriminate H].
  destruct (getUint32 (data this) (position this + 4)) as [k|]; [|discriminate H].
  destruct (callSlot (tbl t) _) as [ext| |] eqn:E; try discriminate H.
  injection H as <- <-. exists t, k, ext. auto.
Qed.

Lemma callSlot_Return {A : Type} (slot : option (M A)) (p : Parser) (v : A) :
  callSlot slot p = Return v -> exists m q, slot = Some m /\ m p = Return (v, q).
Proof.
  unfold callSlot. destruct slot as [m|]; [|discriminate].
  destruct (m p) as [[x q]| |] eqn:E; try discriminate.
  intros [= <-]. eauto.
Qed.

Lemma subtableParsers_filled (fuel : nat) (i : Z) (m : M Subtable) :
  subtableParsers fuel i = Some m -> 1 <= i <= 8.
Proof.
  intros H. destruct (Z_lt_dec i 1); [|destruct (Z_lt_dec 8 i); [|lia]];
    rewrite subtableParsers_empty_slot in H by lia; discriminate H.
Qed.

Lemma dispatch_shaped (fuel : nat) :
  forall (i : Z) (this : Parser) (v : Subtable),
    callSlot (subtableParsers fuel i) this = Return v ->
    1 <= i <= 8 /\ shaped i this v.
Proof.
  induction fuel as [|fuel IH]; intros i this v H;
    apply callSlot_Return in H as (m & q & Hm & H);
    pose proof (subtableParsers_filled _ _ _ Hm) as Hi; (split; [exact Hi|]);
    cbn [subtableParsers] in Hm;
    repeat match type of Hm with
           | (if ?b then _ else _) = _ => destruct b eqn:?
           end;
    try discriminate Hm; injection Hm as <-;
    repeat match goal with
           | E : (i =? _) = true |- _ => apply Z.eqb_eq in E; subst i
           end;
    eauto using parseLookup1_shaped, parseLookup2_shaped, parseLookup3_shaped,
      parseLookup4_shaped, parseLookup5_shaped, parseLookup6_shaped, parseLookup8_shaped;
    try discriminate H.
  apply parseLookup7_Return in H as (t & k & ext & Hh & Hcall & -> & _).
  destruct (IH _ _ _ Hcall) as (Ht & Hk & Hw & _).
  unfold shaped. cbn [subtableKind wellFormed subtableFormat variantFormat].
  split; [reflexivity|]. split.
  - rewrite Hk, Hw.
    replace (1 <=? t) with true by (symmetry; apply Z.leb_le; lia).
    replace (t <=? 8) with true by (symmetry; apply Z.leb_le; lia).
    rewrite !Z.eqb_refl. reflexivity.
  - unfold extensionHeader in Hh.
    destruct (getUint16 (data this) (position this)) as [f|]; [|discriminate Hh].
    destruct (f =? 1) eqn:E; [|discriminate Hh]. apply Z.eqb_eq in E. now subst f.
Qed.

(** X1: whatever the dispatch table returns for lookup type [i] is a
    record of the shape that the parser of type [i] builds, [i] is in
    1-8, the [substFormat] of the record is the format word read at the
    start of the subtable and is the format of the record's shape, and
    an extension record names a lookup type in 1-8 that is the type of
    the shape of its payload, at every level of nesting. *)
Theorem dispatch_returns_well_formed :
  forall (fuel : nat) (i : Z) (this : Parser) (v : Subtable),
    callSlot (subtableParsers fuel i) this = Return v ->
    1 <= i <= 8 /\
    subtableKind v = i /\
    wellFormed v = true /\
    getUint16 (data this) (position this) = Some (subtableFormat v).
Proof.
  intros fuel i this v H.
  destruct (dispatch_shaped fuel i this v H) as (Hi & Hkind & Hformed & Hformat).
  split; [exact Hi|]. split; [exact Hkind|]. split; [exact Hformed|exact Hformat].
Qed.

Lemma dispatch_returns_well_formed_witness :
  callSlot (subtableParsers 1 7) (newParser extension_single1 0)
  = Return (Extension 1 1 (Single1 1 (Some (CoverageFormat1 [5])) 65535)) /\
  subtableKind (Extension 1 1 (Single1 1 (Some (CoverageFormat1 [5])) 65535)) = 7 /\
  wellFormed (Extension 1 1 (Single1 1 (Some (CoverageFormat1 [5])) 65535)) = true.
Proof.
  split; [reflexivity|].
  destruct (dispatch_returns_well_formed 1 7 (newParser extension_single1 0) _ eq_refl)
    as (_ & Hk & Hw & _).
  split; [exact Hk|exact Hw].
Defined.

(** ** Counted lists *)

Lemma advances_parseUShort : advances 2 parseUShort.
Proof. intros p a p' H. now apply parseUShort_Return in H as [_ ->]. Qed.

Lemma advances_parsePointer {A : Type} (m : M A) : advances 2 (parsePointer m).
Proof. intros p a p' H. now apply parsePointer_Return in H as (so & _ & -> & _). Qed.

Lemma advances_lookupRecordDesc : advances 4 lookupRecordDesc.
Proof.
  intros p a p' H. unfold lookupRecordDesc in H. run_inv H.
  injection H as _ <-.
  repeat match goal with
         | E : parseUShort _ = Return _ |- _ => apply parseUShort_Return in E as [_ ->]
         end.
  now rewrite advance_advance.
Qed.

Lemma repeatM_slots {A : Type} (k : Z) (item : M A) :
  advances k item ->
  forall (n : nat) (p p' : Parser) (l : list A),
    repeatM n item p = Return (l, p') ->
    List.length l = n /\
    p' = advance (k * Z.of_nat n) p /\
    forall (j : nat) (x : A),
      nth_error l j = Some x ->
      exists q, item (advance (k * Z.of_nat j) p) = Return (x, q).
Proof.
  intros Hadv. induction n as [|n IH]; intros p p' l H; cbn [repeatM] in H.
  - injection H as <- <-. split; [reflexivity|]. split.
    + unfold advance. destruct p; cbn. f_equal; lia.
    + intros [|j] x Hx; discriminate Hx.
  - apply bind_Return in H as (x & p1 & Hx & H).
    apply bind_Return in H as (xs & p2 & Hxs & H).
    injection H as <- <-.
    pose proof (Hadv _ _ _ Hx) as ->.
    destruct (IH _ _ _ Hxs) as (Hlen & -> & Hnth).
    split; [cbn; congruence|]. split.
    + rewrite advance_advance. f_equal; lia.
    + intros [|j] y Hy; cbn [nth_error] in Hy.
      * injection Hy as <-. exists (advance k p).
        replace (advance (k * Z.of_nat 0) p) with p; [exact Hx|].
        unfold advance. destruct p; cbn. f_equal; lia.
      * destruct (Hnth _ _ Hy) as (q & Hq). exists q.
        rewrite advance_advance in Hq.
        replace (k * Z.of_nat (S j)) with (k + k * Z.of_nat j) by lia. exact Hq.
Qed.

Lemma parseList_given_slots {A : Type} (k count : Z) (item : M A) (p p' : Parser) (l : list A) :
  advances k item ->
  parseList (Some count) item p = Return (l, p') ->
  0 <= count /\
  Z.of_nat (List.length l) = count /\
  p' = advance (k * count) p /\
  forall (j : nat) (x : A),
    nth_error l j = Some x ->
    exists q, item (advance (k * Z.of_nat j) p) = Return (x, q).
Proof.
  intros Hadv H. unfold parseList, countOrRead in H.
  apply bind_Return in H as (c & p1 & Hc & H). injection Hc as <- <-.
  apply bind_Return in H as ([] & p2 & Hn & H).
  unfold newArray in Hn.
  destruct (0 <=? count) eqn:E0; [|discriminate Hn].
  destruct (count <? 4294967296); [|discriminate Hn].
  injection Hn as <-. apply Z.leb_le in E0.
  apply (repeatM_slots k item Hadv) in H as (Hlen & -> & Hnth).
  rewrite Z2Nat.id by exact E0.
  split; [exact E0|]. split; [lia|]. split; [reflexivity|exact Hnth].
Qed.

Lemma parseList_read_slots {A : Type} (k : Z) (item : M A) (p p' : Parser) (l : list A) :
  advances k item ->
  parseList None item p = Return (l, p') ->
  exists count : Z,
    getUint16 (data p) (position p) = Some count /\
    Z.of_nat (List.length l) = count /\
    p' = advance (2 + k * count) p /\
    forall (j : nat) (x : A),
      nth_error l j = Some x ->
      exists q, item (advance (2 + k * Z.of_nat j) p) = Return (x, q).
Proof.
  intros Hadv H. unfold parseList, countOrRead in H.
  apply bind_Return in H as (c & p1 & Hc & H).
  apply parseUShort_Return in Hc as [Hc ->].
  pose proof (getUint16_range _ _ _ Hc) as Hr.
  apply bind_Return in H as ([] & p2 & Hn & H).
  unfold newArray in Hn.
  destruct ((0 <=? c) && (c <? 4294967296)); [|discriminate Hn].
  injection Hn as <-.
  apply (repeatM_slots k item Hadv) in H as (Hlen & -> & Hnth).
  rewrite Z2Nat.id by lia.
  exists c. split; [exact Hc|]. split; [lia|]. split.
  - rewrite advance_advance. reflexivity.
  - intros j x Hx. destruct (Hnth _ _ Hx) as (q & Hq). exists q.
    rewrite advance_advance in Hq. exact Hq.
Qed.

Lemma nth_error_Some_lt {A : Type} (l : list A) (j : nat) :
  (j < List.length l)%nat -> exists x, nth_error l j = Some x.
Proof.
  intros H. destruct (nth_error l j) as [x|] eqn:E; [eauto|].
  apply nth_error_None in E. lia.
Qed.

(** The words of a list read by [parseUShort] from the cursor [p] on,
    the first one [skip] bytes after it. *)
Lemma slots_wordList (skip : Z) (p : Parser) (l : list Z) :
  (forall (j : nat) (x : Z),
      nth_error l j = Some x ->
      exists q, parseUShort (advance (skip + 2 * Z.of_nat j) p) = Return (x, q)) ->
  wordList p (position p + skip) l.
Proof.
  intros H j Hj. destruct (nth_error_Some_lt l j Hj) as (x & Hx). rewrite Hx.
  destruct (H _ _ Hx) as (q & Hq). apply parseUShort_Return in Hq as [Hq _].
  autorewrite with parser_state in Hq. rewrite <- Hq. f_equal. lia.
Qed.

Lemma slots_pointerList {A : Type} (m : M A) (skip : Z) (p : Parser) (l : list (option A)) :
  (forall (j : nat) (r : option A),
      nth_error l j = Some r ->
      exists q, parsePointer m (advance (skip + 2 * Z.of_nat j) p) = Return (r, q)) ->
  pointerList m p (position p + skip) l.
Proof.
  intros H j r Hr. destruct (H _ _ Hr) as (q & Hq).
  apply parsePointer_Return in Hq as (so & Hso & _ & Hres).
  autorewrite with parser_state in Hso, Hres.
  exists so. split.
  - rewrite <- Hso. f_equal. lia.
  - unfold pointerResult. destruct r; exact Hres.
Qed.

Lemma slots_recordList (skip : Z) (p : Parser) (l : list LookupRecord) :
  (forall (j : nat) (r : LookupRecord),
      nth_error l j = Some r ->
      exists q, lookupRecordDesc (advance (skip + 4 * Z.of_nat j) p) = Return (r, q)) ->
  recordList p (position p + skip) l.
Proof.
  intros H j r Hr. destruct (H _ _ Hr) as (q & Hq).
  unfold lookupRecordDesc in Hq.
  apply bind_Return in Hq as (s & p1 & Hs & Hq).
  apply bind_Return in Hq as (i & p2 & Hi & Hq).
  injection Hq as <- _. cbn [sequenceIndex lookupListIndex].
  apply parseUShort_Return in Hs as [Hs ->].
  apply parseUShort_Return in Hi as [Hi _].
  autorewrite with parser_state in Hs, Hi.
  split.
  - rewrite <- Hs. f_equal. lia.
  - rewrite <- Hi. f_equal. lia.
Qed.

Lemma pointer_step {A : Type} (m : M A) (this p p' : Parser) (skip : Z) (r : option A) :
  p = advance skip this ->
  parsePointer m p = Return (r, p') ->
  p' = advance (skip + 2) this /\
  exists structOffset,
    getUint16 (data this) (position this + skip) = Some structOffset /\
    pointerResult m this structOffset r.
Proof.
  intros -> H. apply parsePointer_Return in H as (so & Hso & -> & Hres).
  autorewrite with parser_state in *. split; [reflexivity|].
  exists so. split; [exact Hso|]. unfold pointerResult. destruct r; exact Hres.
Qed.

Lemma word_step (this p p' : Parser) (skip v : Z) :
  p = advance skip this ->
  parseUShort p = Return (v, p') ->
  p' = advance (skip + 2) this /\
  getUint16 (data this) (position this + skip) = Some v.
Proof.
  intros -> H. apply parseUShort_Return in H as [H ->].
  autorewrite with parser_state in *. auto.
Qed.

Lemma wordList_step (this p p' : Parser) (skip : Z) (l : list Z) :
  p = advance skip this ->
  parseUShortList None p = Return (l, p') ->
  exists count,
    getUint16 (data this) (position this + skip) = Some count /\
    Z.of_nat (List.length l) = count /\
    wordList this (position this + skip + 2) l /\
    p' = advance (skip + (2 + 2 * count)) this.
Proof.
  intros -> H. unfold parseUShortList in H.
  apply (parseList_read_slots 2 _ _ _ _ advances_parseUShort) in H
    as (count & Hc & Hlen & -> & Hnth).
  autorewrite with parser_state in *.
  exists count. split; [exact Hc|]. split; [exact Hlen|]. split; [|reflexivity].
  pose proof (slots_wordList 2 (advance skip this) l Hnth) as Hw.
  autorewrite with parser_state in Hw. exact Hw.
Qed.

Lemma pointerList_step {A : Type} (m : M A) (this p p' : Parser) (skip : Z)
      (l : list (option A)) :
  p = advance skip this ->
  parseList None (parsePointer m) p = Return (l, p') ->
  exists count,
    getUint16 (data this) (position this + skip) = Some count /\
    Z.of_nat (List.length l) = count /\
    pointerList m this (position this + skip + 2) l /\
    p' = advance (skip + (2 + 2 * count)) this.
Proof.
  intros -> H.
  apply (parseList_read_slots 2 _ _ _ _ (advances_parsePointer m)) in H
    as (count & Hc & Hlen & -> & Hnth).
  autorewrite with parser_state in *.
  exists count. split; [exact Hc|]. split; [exact Hlen|]. split; [|reflexivity].
  pose proof (slots_pointerList m 2 (advance skip this) l Hnth) as Hw.
  autorewrite with parser_state in Hw. exact Hw.
Qed.

Lemma recordList_step (this p p' : Parser) (skip : Z) (l : list LookupRecord) :
  p = advance skip this ->
  parseRecordList None lookupRecordDesc p = Return (l, p') ->
  exists count,
    getUint16 (data this) (position this + skip) = Some count /\
    Z.of_nat (List.length l) = count /\
    recordList this (position this + skip + 2) l /\
    p' = advance (skip + (2 + 4 * count)) this.
Proof.
  intros -> H. unfold parseRecordList in H.
  apply (parseList_read_slots 4 _ _ _ _ advances_lookupRecordDesc) in H
    as (count & Hc & Hlen & -> & Hnth).
  autorewrite with parser_state in *.
  exists count. split; [exact Hc|]. split; [exact Hlen|]. split; [|reflexivity].
  pose proof (slots_recordList 2 (advance skip this) l Hnth) as Hw.
  autorewrite with parser_state in Hw. exact Hw.
Qed.

Lemma ret_Return {A : Type} (a x : A) (p q : Parser) :
  ret a p = Return (x, q) -> x = a /\ q = p.
Proof. intros [= <- <-]. auto. Qed.

(** The last step of a run: the value and the cursor that were returned,
    left as they are written. *)
Ltac ret_inv H := apply ret_Return in H as [-> ->].

Lemma advance_0 (p : Parser) : p = advance 0 p.
Proof. unfold advance. destruct p; cbn. f_equal; lia. Qed.

(** ** Lookup type 1 *)

(** X2: what a decoded type 1 subtable holds, in terms of the bytes.
    The [coverage] field is [undefined] exactly when the offset word
    after the format is 0 and is otherwise the coverage decoded at
    [this.offset] plus that offset.  In format 1 the delta is the next
    word and 6 bytes are consumed; in format 2 the next word is a count,
    [substitute] holds that many glyph ids, which are the words that
    follow, and the cursor ends after them. *)
Theorem parseLookup1_decoding :
  forall (this this' : Parser) (v : Subtable),
    parseLookup1 this = Return (v, this') ->
    exists (structOffset : Z) (coverage : option Coverage),
      getUint16 (data this) (position this + 2) = Some structOffset /\
      pointerResult parseCoverage this structOffset coverage /\
      ((exists deltaGlyphId : Z,
           getUint16 (data this) (position this) = Some 1 /\
           v = Single1 1 coverage deltaGlyphId /\
           getUint16 (data this) (position this + 4) = Some deltaGlyphId /\
           this' = advance 6 this) \/
       (exists (substitute : list Z) (count : Z),
           getUint16 (data this) (position this) = Some 2 /\
           v = Single2 2 coverage substitute /\
           getUint16 (data this) (position this + 4) = Some count /\
           Z.of_nat (List.length substitute) = count /\
           wordList this (position this + 6) substitute /\
           this' = advance (6 + 2 * count) this)).
Proof.
  intros this this' v H. unfold parseLookup1 in H.
  apply bind_Return in H as (f & p1 & Hf & H).
  apply (word_step this _ _ 0 _ (advance_0 this)) in Hf as [-> Hf].
  rewrite Z.add_0_r in Hf.
  destruct (f =? 1) eqn:E1; [|destruct (f =? 2) eqn:E2; [|discriminate H]].
  - apply Z.eqb_eq in E1. subst f.
    apply bind_Return in H as (c & p2 & Hc & H).
    apply (pointer_step _ this _ _ 2 _ eq_refl) in Hc as (-> & so & Hso & Hres).
    apply bind_Return in H as (d & p3 & Hd & H).
    apply (word_step this _ _ 4 _ eq_refl) in Hd as [-> Hd].
    ret_inv H.
    exists so, c. split; [exact Hso|]. split; [exact Hres|]. left.
    exists d. repeat split; auto.
  - apply Z.eqb_eq in E2. subst f.
    apply bind_Return in H as (c & p2 & Hc & H).
    apply (pointer_step _ this _ _ 2 _ eq_refl) in Hc as (-> & so & Hso & Hres).
    apply bind_Return in H as (l & p3 & Hl & H).
    apply (wordList_step this _ _ 4 _ eq_refl) in Hl as (n & Hn & Hlen & Hw & ->).
    ret_inv H.
    replace (position this + 4 + 2) with (position this + 6) in Hw by lia.
    exists so, c. split; [exact Hso|]. split; [exact Hres|]. right.
    exists l, n. split; [exact Hf|]. split; [reflexivity|]. split; [exact Hn|].
    split; [exact Hlen|]. split; [exact Hw|]. f_equal; lia.
Qed.

Lemma parseLookup1_decoding_witness :
  parseLookup1 (newParser single2_subtable 0)
  = Return (Single2 2 (Some (CoverageFormat1 [5; 6])) [33; 34],
            advance 10 (newParser single2_subtable 0)) /\
  exists (structOffset : Z) (coverage : option Coverage),
    getUint16 single2_subtable 2 = Some structOffset /\
    pointerResult parseCoverage (newParser single2_subtable 0) structOffset coverage.
Proof.
  split; [reflexivity|].
  destruct (parseLookup1_decoding (newParser single2_subtable 0) _ _ eq_refl)
    as (so & c & Hso & Hres & _).
  exists so, c. split; [exact Hso|exact Hres].
Defined.

(** ** Lists whose count the caller passes *)

Lemma wordList_given_step (this p p' : Parser) (skip count : Z) (l : list Z) :
  p = advance skip this ->
  parseUShortList (Some count) p = Return (l, p') ->
  0 <= count /\
  Z.of_nat (List.length l) = count /\
  wordList this (position this + skip) l /\
  p' = advance (skip + 2 * count) this.
Proof.
  intros -> H. unfold parseUShortList in H.
  apply (parseList_given_slots 2 _ _ _ _ _ advances_parseUShort) in H
    as (H0 & Hlen & -> & Hnth).
  autorewrite with parser_state in *.
  split; [exact H0|]. split; [exact Hlen|]. split; [|reflexivity].
  assert (Hnth' : forall (j : nat) (x : Z),
             nth_error l j = Some x ->
             exists q, parseUShort (advance (0 + 2 * Z.of_nat j) (advance skip this))
                       = Return (x, q)).
  { intros j x Hx. rewrite Z.add_0_l. eauto. }
  pose proof (slots_wordList 0 (advance skip this) l Hnth') as Hw.
  autorewrite with parser_state in Hw. rewrite Z.add_0_r in Hw. exact Hw.
Qed.

Lemma pointerList_given_step {A : Type} (m : M A) (this p p' : Parser) (skip count : Z)
      (l : list (option A)) :
  p = advance skip this ->
  parseList (Some count) (parsePointer m) p = Return (l, p') ->
  0 <= count /\
  Z.of_nat (List.length l) = count /\
  pointerList m this (position this + skip) l /\
  p' = advance (skip + 2 * count) this.
Proof.
  intros -> H.
  apply (parseList_given_slots 2 _ _ _ _ _ (advances_parsePointer m)) in H
    as (H0 & Hlen & -> & Hnth).
  autorewrite with parser_state in *.
  split; [exact H0|]. split; [exact Hlen|]. split; [|reflexivity].
  assert (Hnth' : forall (j : nat) (r : option A),
             nth_error l j = Some r ->
             exists q, parsePointer m (advance (0 + 2 * Z.of_nat j) (advance skip this))
                       = Return (r, q)).
  { intros j x Hx. rewrite Z.add_0_l. eauto. }
  pose proof (slots_pointerList m 0 (advance skip this) l Hnth') as Hw.
  autorewrite with parser_state in Hw. rewrite Z.add_0_r in Hw. exact Hw.
Qed.

Lemma recordList_given_step (this p p' : Parser) (skip count : Z) (l : list LookupRecord) :
  p = advance skip this ->
  parseRecordList (Some count) lookupRecordDesc p = Return (l, p') ->
  0 <= count /\
  Z.of_nat (List.length l) = count /\
  recordList this (position this + skip) l /\
  p' = advance (skip + 4 * count) this.
Proof.
  intros -> H. unfold parseRecordList in H.
  apply (parseList_given_slots 4 _ _ _ _ _ advances_lookupRecordDesc) in H
    as (H0 & Hlen & -> & Hnth).
  autorewrite with parser_state in *.
  split; [exact H0|]. split; [exact Hlen|]. split; [|reflexivity].
  assert (Hnth' : forall (j : nat) (r : LookupRecord),
             nth_error l j = Some r ->
             exists q, lookupRecordDesc (advance (0 + 4 * Z.of_nat j) (advance skip this))
                       = Return (r, q)).
  { intros j x Hx. rewrite Z.add_0_l. eauto. }
  pose proof (slots_recordList 0 (advance skip this) l Hnth') as Hw.
  autorewrite with parser_state in Hw. rewrite Z.add_0_r in Hw. exact Hw.
Qed.

Lemma wordList_at (this : Parser) (pos pos' : Z) (l : list Z) :
  wordList this pos l -> pos = pos' -> wordList this pos' l.
Proof. now intros H <-. Qed.

Lemma pointerList_at {A : Type} (m : M A) (this : Parser) (pos pos' : Z) (l : list (option A)) :
  pointerList m this pos l -> pos = pos' -> pointerList m this pos' l.
Proof. now intros H <-. Qed.

Lemma recordList_at (this : Parser) (pos pos' : Z) (l : list LookupRecord) :
  recordList this pos l -> pos = pos' -> recordList this pos' l.
Proof. now intros H <-. Qed.

Lemma getUint16_at (d : DataView) (pos pos' v : Z) :
  getUint16 d pos = Some v -> pos = pos' -> getUint16 d pos' = Some v.
Proof. now intros H <-. Qed.

(** Close a goal about a place of the buffer with a fact about the same
    place written otherwise. *)
Ltac at_place :=
  first
    [ eassumption
    | eapply getUint16_at; [eassumption|lia]
    | eapply wordList_at; [eassumption|lia]
    | eapply pointerList_at; [eassumption|lia]
    | eapply recordList_at; [eassumption|lia]
    | f_equal; lia
    | lia ].

Ltac layout_done := repeat (split; [at_place|]); try at_place.

(** ** Context rules (lookup type 5) *)

(** X3: a decoded rule of lookup type 5, formats 1 and 2, was read from
    a glyph count of at least 1 and a substitution count; its input (or
    class) list holds exactly [glyphCount - 1] words, those that follow
    the two counts, its lookup records are the [substCount] pairs of
    words after them, and the cursor ends after the last record.  A
    rule whose glyph count is 0 is therefore never decoded. *)
Theorem context_rule_layout :
  (forall (this this' : Parser) (rule : ContextRule),
      parseContextRule this = Return (rule, this') ->
      exists glyphCount substCount : Z,
        getUint16 (data this) (position this) = Some glyphCount /\
        getUint16 (data this) (position this + 2) = Some substCount /\
        1 <= glyphCount /\
        Z.of_nat (List.length (rule_input rule)) = glyphCount - 1 /\
        wordList this (position this + 4) (rule_input rule) /\
        Z.of_nat (List.length (rule_lookupRecords rule)) = substCount /\
        recordList this (position this + 4 + 2 * (glyphCount - 1))
          (rule_lookupRecords rule) /\
        this' = advance (4 + 2 * (glyphCount - 1) + 4 * substCount) this) /\
  (forall (this this' : Parser) (rule : ContextClassRule),
      parseContextClassRule this = Return (rule, this') ->
      exists glyphCount substCount : Z,
        getUint16 (data this) (position this) = Some glyphCount /\
        getUint16 (data this) (position this + 2) = Some substCount /\
        1 <= glyphCount /\
        Z.of_nat (List.length (rule_classes rule)) = glyphCount - 1 /\
        wordList this (position this + 4) (rule_classes rule) /\
        Z.of_nat (List.length (classRule_lookupRecords rule)) = substCount /\
        recordList this (position this + 4 + 2 * (glyphCount - 1))
          (classRule_lookupRecords rule) /\
        this' = advance (4 + 2 * (glyphCount - 1) + 4 * substCount) this).
Proof.
  split; intros this this' rule H;
    [unfold parseContextRule in H|unfold parseContextClassRule in H];
    apply bind_Return in H as (gc & p1 & Hgc & H);
    apply (word_step this _ _ 0 _ (advance_0 this)) in Hgc as [-> Hgc];
    apply bind_Return in H as (sc & p2 & Hsc & H);
    apply (word_step this _ _ 2 _ eq_refl) in Hsc as [-> Hsc];
    apply bind_Return in H as (l & p3 & Hl & H);
    apply (wordList_given_step this _ _ 4 _ _ eq_refl) in Hl as (H0 & Hlen & Hw & ->);
    apply bind_Return in H as (rs & p4 & Hrs & H);
    apply (recordList_given_step this _ _ _ _ _ eq_refl) in Hrs as (_ & Hrlen & Hr & ->);
    ret_inv H; cbn [rule_input rule_lookupRecords rule_classes classRule_lookupRecords];
    exists gc, sc; layout_done.
Qed.

Lemma context_rule_layout_witness :
  parseContextRule (newParser rule_glyphs3 0)
  = Return (mkContextRule [7; 8] [mkLookupRecord 1 4],
            advance 12 (newParser rule_glyphs3 0)) /\
  exists glyphCount substCount : Z,
    getUint16 rule_glyphs3 0 = Some glyphCount /\
    getUint16 rule_glyphs3 2 = Some substCount /\
    1 <= glyphCount /\
    Z.of_nat (List.length [7; 8]) = glyphCount - 1.
Proof.
  split; [reflexivity|].
  destruct (proj1 context_rule_layout (newParser rule_glyphs3 0) _ _ eq_refl)
    as (gc & sc & Hgc & Hsc & H1 & Hlen & _).
  exists gc, sc. auto.
Defined.

(** ** Chain rules (lookup type 6) *)

Lemma parseShort_Return (p p' : Parser) (v : Z) :
  parseShort p = Return (v, p') ->
  getInt16 (data p) (position p) = Some v /\ p' = advance 2 p.
Proof.
  unfold parseShort. destruct (getInt16 (data p) (position p)); [|discriminate].
  now intros [= -> ->].
Qed.

Lemma short_step (this p p' : Parser) (skip v : Z) :
  p = advance skip this ->
  parseShort p = Return (v, p') ->
  p' = advance (skip + 2) this /\
  getInt16 (data this) (position this + skip) = Some v.
Proof.
  intros -> H. apply parseShort_Return in H as [H ->].
  autorewrite with parser_state in *. auto.
Qed.

Lemma getInt16_positive (d : DataView) (pos v : Z) :
  getInt16 d pos = Some v -> 0 <= v ->
  getUint16 d pos = Some v /\ v <= 32767.
Proof.
  unfold getInt16. destruct (getUint16 d pos) as [u|] eqn:E; [|discriminate].
  pose proof (getUint16_range _ _ _ E) as Hr.
  destruct (u <? 32768) eqn:Eu; intros Hv H0.
  - apply Z.ltb_lt in Eu. assert (u = v) by congruence. subst u. split; [reflexivity|lia].
  - assert (u - 65536 = v) by congruence. lia.
Qed.

(** X4: a decoded chain rule of lookup type 6 lies in the buffer as a
    counted backtrack list, an input count, the input glyphs, a counted
    lookahead list and a counted list of lookup records, one after the
    other.  The input count, read signed, is between 1 and 32767 and the
    input list holds one word less; a rule whose input count is 0, or
    0x8000 and more, is never decoded. *)
Theorem chain_rule_layout :
  forall (this this' : Parser) (rule : ChainRule),
    parseChainRule this = Return (rule, this') ->
    exists b i l r : Z,
      getUint16 (data this) (position this) = Some b /\
      Z.of_nat (List.length (chain_backtrack rule)) = b /\
      wordList this (position this + 2) (chain_backtrack rule) /\
      getUint16 (data this) (position this + 2 + 2 * b) = Some i /\
      1 <= i <= 32767 /\
      Z.of_nat (List.length (chain_input rule)) = i - 1 /\
      wordList this (position this + 4 + 2 * b) (chain_input rule) /\
      getUint16 (data this) (position this + 4 + 2 * b + 2 * (i - 1)) = Some l /\
      Z.of_nat (List.length (chain_lookahead rule)) = l /\
      wordList this (position this + 6 + 2 * b + 2 * (i - 1)) (chain_lookahead rule) /\
      getUint16 (data this) (position this + 6 + 2 * b + 2 * (i - 1) + 2 * l) = Some r /\
      Z.of_nat (List.length (chain_lookupRecords rule)) = r /\
      recordList this (position this + 8 + 2 * b + 2 * (i - 1) + 2 * l)
        (chain_lookupRecords rule) /\
      this' = advance (8 + 2 * b + 2 * (i - 1) + 2 * l + 4 * r) this.
Proof.
  intros this this' rule H. unfold parseChainRule in H.
  apply bind_Return in H as (bt & p1 & Hbt & H).
  apply (wordList_step this _ _ 0 _ (advance_0 this)) in Hbt as (b & Hb & Hblen & Hbw & ->).
  apply bind_Return in H as (i & p2 & Hi & H).
  apply (short_step this _ _ _ _ eq_refl) in Hi as [-> Hi].
  apply bind_Return in H as (inp & p3 & Hinp & H).
  apply (wordList_given_step this _ _ _ _ _ eq_refl) in Hinp as (Hi0 & Hilen & Hiw & ->).
  apply bind_Return in H as (la & p4 & Hla & H).
  apply (wordList_step this _ _ _ _ eq_refl) in Hla as (l & Hl & Hllen & Hlw & ->).
  apply bind_Return in H as (rs & p5 & Hrs & H).
  apply (recordList_step this _ _ _ _ eq_refl) in Hrs as (r & Hr & Hrlen & Hrw & ->).
  ret_inv H.
  cbn [chain_backtrack chain_input chain_lookahead chain_lookupRecords].
  apply getInt16_positive in Hi as [Hiu Himax]; [|lia].
  exists b, i, l, r. layout_done.
Qed.

Lemma chain_rule_layout_witness :
  parseChainRule (newParser chain_rule_bytes 0)
  = Return (mkChainRule [10] [11] [] [mkLookupRecord 0 3],
            advance 16 (newParser chain_rule_bytes 0)) /\
  exists b i l r : Z,
    getUint16 chain_rule_bytes 0 = Some b /\
    getUint16 chain_rule_bytes (0 + 2 + 2 * b) = Some i /\
    1 <= i <= 32767 /\
    getUint16 chain_rule_bytes (0 + 4 + 2 * b + 2 * (i - 1)) = Some l /\
    getUint16 chain_rule_bytes (0 + 6 + 2 * b + 2 * (i - 1) + 2 * l) = Some r.
Proof.
  split; [reflexivity|].
  destruct (chain_rule_layout (newParser chain_rule_bytes 0) _ _ eq_refl)
    as (b & i & l & r & Hb & _ & _ & Hi & Hir & _ & _ & Hl & _ & _ & Hr & _).
  exists b, i, l, r. auto.
Defined.

(** ** The coverage-based formats *)

(** X5: format 3 of lookup types 5 and 6.  A decoded type 5 format 3
    subtable holds one coverage per glyph position -- [glyphCount]
    entries, read through the offset words after the two counts, an
    entry being [undefined] for a zero offset -- and [substCount] lookup
    records after them.  A decoded type 6 format 3 subtable holds three
    counted lists of coverages (backtrack, input, lookahead) and a
    counted list of lookup records, one after the other. *)
Theorem format3_layout :
  (forall (this this' : Parser) (substFormat : Z) (coverages : list (option Coverage))
          (lookupRecords : list LookupRecord),
      parseLookup5 this = Return (Context3 substFormat coverages lookupRecords, this') ->
      exists glyphCount substCount : Z,
        substFormat = 3 /\
        getUint16 (data this) (position this) = Some 3 /\
        getUint16 (data this) (position this + 2) = Some glyphCount /\
        getUint16 (data this) (position this + 4) = Some substCount /\
        Z.of_nat (List.length coverages) = glyphCount /\
        pointerList parseCoverage this (position this + 6) coverages /\
        Z.of_nat (List.length lookupRecords) = substCount /\
        recordList this (position this + 6 + 2 * glyphCount) lookupRecords /\
        this' = advance (6 + 2 * glyphCount + 4 * substCount) this) /\
  (forall (this this' : Parser) (substFormat : Z)
          (backtrackCoverage inputCoverage lookaheadCoverage : list (option Coverage))
          (lookupRecords : list LookupRecord),
      parseLookup6 this
      = Return (Chain3 substFormat backtrackCoverage inputCoverage lookaheadCoverage
                  lookupRecords, this') ->
      exists b i l r : Z,
        substFormat = 3 /\
        getUint16 (data this) (position this) = Some 3 /\
        getUint16 (data this) (position this + 2) = Some b /\
        Z.of_nat (List.length backtrackCoverage) = b /\
        pointerList parseCoverage this (position this + 4) backtrackCoverage /\
        getUint16 (data this) (position this + 4 + 2 * b) = Some i /\
        Z.of_nat (List.length inputCoverage) = i /\
        pointerList parseCoverage this (position this + 6 + 2 * b) inputCoverage /\
        getUint16 (data this) (position this + 6 + 2 * b + 2 * i) = Some l /\
        Z.of_nat (List.length lookaheadCoverage) = l /\
        pointerList parseCoverage this (position this + 8 + 2 * b + 2 * i)
          lookaheadCoverage /\
        getUint16 (data this) (position this + 8 + 2 * b + 2 * i + 2 * l) = Some r /\
        Z.of_nat (List.length lookupRecords) = r /\
        recordList this (position this + 10 + 2 * b + 2 * i + 2 * l) lookupRecords /\
        this' = advance (10 + 2 * b + 2 * i + 2 * l + 4 * r) this).
Proof.
  split.
  - intros this this' sf covs recs H. unfold parseLookup5 in H.
    apply bind_Return in H as (f & p1 & Hf & H).
    apply (word_step this _ _ 0 _ (advance_0 this)) in Hf as [-> Hf].
    rewrite Z.add_0_r in Hf.
    destruct (f =? 1); [run_inv H; apply ret_Return in H as [H _]; discriminate H|].
    destruct (f =? 2); [run_inv H; apply ret_Return in H as [H _]; discriminate H|].
    destruct (f =? 3) eqn:E3; [|discriminate H]. apply Z.eqb_eq in E3. subst f.
    apply bind_Return in H as (gc & p2 & Hgc & H).
    apply (word_step this _ _ 2 _ eq_refl) in Hgc as [-> Hgc].
    apply bind_Return in H as (sc & p3 & Hsc & H).
    apply (word_step this _ _ 4 _ eq_refl) in Hsc as [-> Hsc].
    apply bind_Return in H as (cs & p4 & Hcs & H).
    apply (pointerList_given_step _ this _ _ 6 _ _ eq_refl) in Hcs as (_ & Hclen & Hcw & ->).
    apply bind_Return in H as (rs & p5 & Hrs & H).
    apply (recordList_given_step this _ _ _ _ _ eq_refl) in Hrs as (_ & Hrlen & Hrw & ->).
    apply ret_Return in H as [H ->]. injection H as -> -> ->.
    exists gc, sc. layout_done.
  - intros this this' sf bc ic lc recs H. unfold parseLookup6 in H.
    apply bind_Return in H as (f & p1 & Hf & H).
    apply (word_step this _ _ 0 _ (advance_0 this)) in Hf as [-> Hf].
    rewrite Z.add_0_r in Hf.
    destruct (f =? 1); [run_inv H; apply ret_Return in H as [H _]; discriminate H|].
    destruct (f =? 2); [run_inv H; apply ret_Return in H as [H _]; discriminate H|].
    destruct (f =? 3) eqn:E3; [|discriminate H]. apply Z.eqb_eq in E3. subst f.
    apply bind_Return in H as (bs & p2 & Hbs & H).
    apply (pointerList_step _ this _ _ 2 _ eq_refl) in Hbs as (b & Hb & Hblen & Hbw & ->).
    apply bind_Return in H as (ics & p3 & His & H).
    apply (pointerList_step _ this _ _ _ _ eq_refl) in His as (i & Hi & Hilen & Hiw & ->).
    apply bind_Return in H as (ls & p4 & Hls & H).
    apply (pointerList_step _ this _ _ _ _ eq_refl) in Hls as (l & Hl & Hllen & Hlw & ->).
    apply bind_Return in H as (rs & p5 & Hrs & H).
    apply (recordList_step this _ _ _ _ eq_refl) in Hrs as (r & Hr & Hrlen & Hrw & ->).
    apply ret_Return in H as [H ->]. injection H as -> -> -> -> ->.
    exists b, i, l, r. layout_done.
Qed.

Lemma format3_layout_witness :
  parseLookup5 (newParser context3_subtable 0)
  = Return (Context3 3 [None; Some (CoverageFormat1 [5])] [mkLookupRecord 0 2],
            advance 14 (newParser context3_subtable 0)) /\
  exists glyphCount substCount : Z,
    getUint16 context3_subtable 2 = Some glyphCount /\
    getUint16 context3_subtable 4 = Some substCount /\
    Z.of_nat (List.length [None; Some (CoverageFormat1 [5])]) = glyphCount /\
    pointerList parseCoverage (newParser context3_subtable 0) 6
      [None; Some (CoverageFormat1 [5])].
Proof.
  split; [reflexivity|].
  destruct (proj1 format3_layout (newParser context3_subtable 0) _ _ _ _ eq_refl)
    as (gc & sc & _ & _ & Hgc & Hsc & Hlen & Hp & _).
  exists gc, sc. auto.
Defined.

(** ** Lookup type 8 *)

(** X6: a decoded type 8 subtable has format 1; its coverage is read
    through the offset after the format, its backtrack and lookahead
    coverages are two counted lists of offsets, and its substitutes are
    the counted list of words that follows; the cursor ends after the
    last substitute. *)
Theorem parseLookup8_layout :
  forall (this this' : Parser) (v : Subtable),
    parseLookup8 this = Return (v, this') ->
    exists (structOffset b l s : Z) (coverage : option Coverage)
           (backtrackCoverage lookaheadCoverage : list (option Coverage))
           (substitutes : list Z),
      v = ReverseChain 1 coverage backtrackCoverage lookaheadCoverage substitutes /\
      getUint16 (data this) (position this) = Some 1 /\
      getUint16 (data this) (position this + 2) = Some structOffset /\
      pointerResult parseCoverage this structOffset coverage /\
      getUint16 (data this) (position this + 4) = Some b /\
      Z.of_nat (List.length backtrackCoverage) = b /\
      pointerList parseCoverage this (position this + 6) backtrackCoverage /\
      getUint16 (data this) (position this + 6 + 2 * b) = Some l /\
      Z.of_nat (List.length lookaheadCoverage) = l /\
      pointerList parseCoverage this (position this + 8 + 2 * b) lookaheadCoverage /\
      getUint16 (data this) (position this + 8 + 2 * b + 2 * l) = Some s /\
      Z.of_nat (List.length substitutes) = s /\
      wordList this (position this + 10 + 2 * b + 2 * l) substitutes /\
      this' = advance (10 + 2 * b + 2 * l + 2 * s) this.
Proof.
  intros this this' v H. unfold parseLookup8 in H.
  apply bind_Return in H as (f & p1 & Hf & H).
  apply (word_step this _ _ 0 _ (advance_0 this)) in Hf as [-> Hf].
  rewrite Z.add_0_r in Hf.
  apply bind_Return in H as ([] & p2 & Hck & H).
  apply check_argument_Return in Hck as [Hck Hp2].
  apply Z.eqb_eq in Hck. subst f.
  apply pair_equal_spec in Hp2 as [_ ->].
  apply bind_Return in H as (c & p3 & Hc & H).
  apply (pointer_step _ this _ _ 2 _ eq_refl) in Hc as (-> & so & Hso & Hres).
  apply bind_Return in H as (bs & p4 & Hbs & H).
  apply (pointerList_step _ this _ _ 4 _ eq_refl) in Hbs as (b & Hb & Hblen & Hbw & ->).
  apply bind_Return in H as (ls & p5 & Hls & H).
  apply (pointerList_step _ this _ _ _ _ eq_refl) in Hls as (l & Hl & Hllen & Hlw & ->).
  apply bind_Return in H as (ss & p6 & Hss & H).
  apply (wordList_step this _ _ _ _ eq_refl) in Hss as (s & Hs & Hslen & Hsw & ->).
  ret_inv H.
  exists so, b, l, s, c, bs, ls, ss. layout_done.
Qed.

Lemma parseLookup8_layout_witness :
  parseLookup8 (newParser reverse_subtable 0)
  = Return (ReverseChain 1 None [] [] [48; 49], advance 14 (newParser reverse_subtable 0)) /\
  exists s : Z,
    getUint16 reverse_subtable 8 = Some s /\
    Z.of_nat (List.length [48; 49]) = s.
Proof.
  split; [reflexivity|].
  destruct (parseLookup8_layout (newParser reverse_subtable 0) _ _ eq_refl)
    as (so & b & l & s & c & bs & ls & ss & Hv & _ & _ & _ & Hb & Hblen & _ & Hl & Hllen & _
        & Hs & Hslen & _).
  injection Hv as <- <- <- <-.
  cbn [List.length Z.of_nat] in Hblen, Hllen. subst b l.
  exists s. split; [exact Hs|exact Hslen].
Defined.

(** ** Subtables decode alike wherever their bytes lie *)

Section RelocationOfSubtables.

Variables (standalone : DataView) (base : Z) (host : DataView) (base' : Z).
Hypothesis Hembedded : embedded standalone base host base'.

#[local] Abbreviation related := (shifted standalone base host base').
#[local] Abbreviation reloc := (relocates standalone base host base').

Lemma reloc_bind_strong {A B : Type} (m : M A) (k : A -> M B) :
  reloc m ->
  (forall a, (exists p p' q, related p p' /\ m p = Return (a, q)) -> reloc (k a)) ->
  reloc (bind m k).
Proof.
  intros Hm Hk p p' b q Hrel H.
  apply bind_Return in H as (a & p1 & H1 & H2).
  destruct (Hm _ _ _ _ Hrel H1) as (p1' & H1' & Hrel1).
  destruct (Hk a (ex_intro _ p (ex_intro _ p' (ex_intro _ p1 (conj Hrel H1))))
              _ _ _ _ Hrel1 H2) as (q' & H2' & Hrel2).
  exists q'. split; [|exact Hrel2]. now rewrite (bind_run _ _ _ _ _ H1').
Qed.

Lemma Return_pair {A : Type} (a x : A) (p q : Parser) :
  Return (a, p) = Return (x, q) -> a = x /\ p = q.
Proof. now intros [= -> ->]. Qed.

Lemma reloc_check_argument (b : bool) (message : string) : reloc (check_argument b message).
Proof.
  intros p p' x q Hrel H. apply check_argument_Return in H as [-> H].
  apply pair_equal_spec in H as [-> ->]. exists p'. split; [reflexivity|exact Hrel].
Qed.

Lemma reloc_check_assert_false {A : Type} (message : string) :
  reloc (@check_assert_false A message).
Proof. intros p p' x q Hrel H. discriminate H. Qed.

Lemma reloc_parseShort : reloc parseShort.
Proof.
  intros p p' v q Hrel H. apply parseShort_Return in H as [H ->].
  exists (advance 2 p'). split; [|apply related_advance; [lia|exact Hrel]].
  unfold parseShort, getInt16 in *.
  destruct (getUint16 (data p) (position p)) as [u|] eqn:E; [|discriminate H].
  rewrite (getUint16_embedded _ _ _ _ Hembedded _ _ _ Hrel E).
  now injection H as <-.
Qed.

Lemma reloc_parseULong : reloc parseULong.
Proof.
  intros p p' v q Hrel H. rewrite parseULong_unfold in *.
  unfold getUint32 in *.
  destruct (getUint16 (data p) (position p)) as [hi|] eqn:Ehi; [|discriminate H].
  destruct (getUint16 (data p) (position p + 2)) as [lo|] eqn:Elo; [|discriminate H].
  rewrite (getUint16_embedded _ _ _ _ Hembedded _ _ _ Hrel Ehi).
  assert (Hrel2 : related (advance 2 p) (advance 2 p'))
    by (apply related_advance; [lia|exact Hrel]).
  assert (Elo' : getUint16 (data (advance 2 p)) (position (advance 2 p)) = Some lo)
    by (autorewrite with parser_state; exact Elo).
  pose proof (getUint16_embedded _ _ _ _ Hembedded _ _ _ Hrel2 Elo') as Elo2.
  autorewrite with parser_state in Elo2. rewrite Elo2.
  apply Return_pair in H as [-> <-].
  exists (advance 4 p'). split; [reflexivity|].
  apply related_advance; [lia|exact Hrel].
Qed.

Lemma reloc_getRelativeOffset : reloc getRelativeOffset.
Proof.
  intros p p' r q Hrel H. unfold getRelativeOffset in *.
  apply Return_pair in H as [<- <-].
  exists p'. split; [|exact Hrel].
  destruct Hrel as (_ & _ & _ & _ & _ & ->). reflexivity.
Qed.

Lemma reloc_setRelativeOffset (r : Z) : 0 <= r -> reloc (setRelativeOffset r).
Proof.
  intros Hr p p' x q Hrel H. unfold setRelativeOffset in *.
  apply Return_pair in H as [<- <-].
  exists (mkParser (data p') (offset p') r). split; [reflexivity|].
  destruct Hrel as (Hd & Hd' & Hb & _ & Ho & _).
  unfold shifted. cbn. repeat (split; [assumption|]). reflexivity.
Qed.

Lemma reloc_mapM {A B : Type} (P : A -> Prop) (f : A -> M B) (l : list A) :
  Forall P l -> (forall a, P a -> reloc (f a)) -> reloc (mapM f l).
Proof.
  intros Hl Hf. induction Hl as [|a l Ha Hl IH]; cbn [mapM].
  - apply simulates_ret.
  - apply simulates_bind; [now apply Hf|]. intros b.
    apply simulates_bind; [exact IH|]. intros bs. apply simulates_ret.
Qed.

Lemma repeatM_parseUShort_range (n : nat) :
  forall (p p' : Parser) (l : list Z),
    repeatM n parseUShort p = Return (l, p') -> Forall (fun x => 0 <= x) l.
Proof.
  induction n as [|n IH]; intros p p' l H; cbn [repeatM] in H.
  - apply ret_Return in H as [-> _]. constructor.
  - apply bind_Return in H as (x & p1 & Hx & H).
    apply bind_Return in H as (xs & p2 & Hxs & H).
    apply ret_Return in H as [-> _].
    apply parseUShort_Return in Hx as [Hx _]. apply getUint16_range in Hx.
    constructor; [lia|eauto].
Qed.

Lemma parseUShortList_range (count : option Z) (p p' : Parser) (l : list Z) :
  parseUShortList count p = Return (l, p') -> Forall (fun x => 0 <= x) l.
Proof.
  unfold parseUShortList, parseList. intros H.
  apply bind_Return in H as (c & p1 & _ & H).
  apply bind_Return in H as ([] & p2 & _ & H).
  eapply repeatM_parseUShort_range; eauto.
Qed.

Lemma reloc_parseUShortList (count : option Z) : reloc (parseUShortList count).
Proof.
  unfold parseUShortList.
  apply simulates_parseList; [exact Hembedded|].
  apply simulates_parseUShort; exact Hembedded.
Qed.

Lemma reloc_parseListOfListsWith {A : Type} (sub : Z -> M (list A)) :
  (forall start, 0 <= start -> reloc (sub start)) ->
  reloc (parseListOfListsWith sub).
Proof.
  intros Hsub. unfold parseListOfListsWith, parseOffset16List.
  apply reloc_bind_strong; [apply reloc_parseUShortList|].
  intros offsets (p & p' & q & _ & Hoffsets).
  apply parseUShortList_range in Hoffsets.
  apply reloc_bind_strong; [apply reloc_getRelativeOffset|].
  intros r (p0 & p0' & q0 & Hrel0 & Hr).
  assert (Hr0 : 0 <= r).
  { unfold getRelativeOffset in Hr. apply Return_pair in Hr as [<- _].
    destruct Hrel0 as (_ & _ & _ & H0 & _). exact H0. }
  apply simulates_bind.
  - apply (reloc_mapM (fun x => 0 <= x)); [exact Hoffsets|].
    intros start Hstart. destruct (start =? 0); [apply simulates_ret|].
    apply simulates_bind; [now apply reloc_setRelativeOffset|]. intros _.
    apply simulates_bind; [now apply Hsub|]. intros l. apply simulates_ret.
  - intros l. apply simulates_bind; [now apply reloc_setRelativeOffset|].
    intros _. apply simulates_ret.
Qed.

Lemma reloc_parseListOfLists : reloc parseListOfLists.
Proof.
  unfold parseListOfLists. apply reloc_parseListOfListsWith.
  intros _ _. apply reloc_parseUShortList.
Qed.

Lemma reloc_parseListOfListsOf {A : Type} (item : M A) :
  reloc item -> reloc (parseListOfListsOf item).
Proof.
  intros Hitem. unfold parseListOfListsOf, parseOffset16List.
  apply reloc_parseListOfListsWith. intros start Hstart.
  apply reloc_bind_strong; [apply reloc_parseUShortList|].
  intros subOffsets (p & p' & q & _ & Hso).
  apply parseUShortList_range in Hso.
  apply (reloc_mapM (fun x => 0 <= x)); [exact Hso|].
  intros so Hso0.
  apply simulates_bind; [apply reloc_setRelativeOffset; lia|]. intros _. exact Hitem.
Qed.

(** Build a proof that a parser relocates from the proofs for its parts. *)
Ltac reloc_steps :=
  unfold parseRecordList, parseOffset16List;
  repeat first
    [ apply simulates_ret
    | apply reloc_check_argument
    | apply reloc_check_assert_false
    | apply reloc_parseShort
    | apply reloc_parseListOfLists
    | apply reloc_parseUShortList
    | match goal with
      | |- relocates _ _ _ _ parseUShort => apply simulates_parseUShort; exact Hembedded
      | |- relocates _ _ _ _ parseCoverage => apply simulates_parseCoverage; exact Hembedded
      | |- relocates _ _ _ _ (parsePointer _) =>
          apply simulates_parsePointer; [exact Hembedded|]
      | |- relocates _ _ _ _ (parseList _ _) =>
          apply simulates_parseList; [exact Hembedded|]
      | |- relocates _ _ _ _ (parseListOfListsOf _) => apply reloc_parseListOfListsOf
      | |- relocates _ _ _ _ (bind _ _) => apply simulates_bind; [|intros ?]
      | |- relocates _ _ _ _ (if ?b then _ else _) => destruct b
      end
    | assumption ].

Lemma reloc_lookupRecordDesc : reloc lookupRecordDesc.
Proof. unfold lookupRecordDesc. reloc_steps. Qed.

Lemma reloc_parseClassDef : reloc parseClassDef.
Proof.
  intros p p' c q Hrel H. unfold parseClassDef in *.
  revert H. generalize (position p). generalize (position p'). intros start' start H.
  apply bind_Return in H as (f & p1 & Hf & H).
  destruct (simulates_parseUShort _ _ _ _ Hembedded _ _ _ _ Hrel Hf) as (p1' & Hf' & Hrel1).
  rewrite (bind_run _ _ _ _ _ Hf').
  destruct (f =? 1); [|destruct (f =? 2); [|discriminate H]];
    revert H; generalize Hrel1; generalize q; generalize c; generalize p1'; generalize p1;
    change (reloc ?m) with (reloc m).
  - assert (R : reloc (startGlyph <- parseUShort;;
                       classes <- parseUShortList None;;
                       ret (ClassDefFormat1 startGlyph classes))) by reloc_steps.
    intros a b x y Hab. apply R. exact Hab.
  - assert (R : reloc (ranges <- parseRecordList None parseRangeRecord;;
                       ret (ClassDefFormat2 ranges))).
    { unfold parseRecordList. apply simulates_bind; [|intros ?; apply simulates_ret].
      apply simulates_parseList; [exact Hembedded|].
      apply simulates_parseRangeRecord; exact Hembedded. }
    intros a b x y Hab. apply R. exact Hab.
Qed.

Lemma reloc_parseLigature : reloc parseLigature.
Proof. unfold parseLigature. reloc_steps. Qed.

Lemma reloc_parseContextRule : reloc parseContextRule.
Proof. unfold parseContextRule. pose proof reloc_lookupRecordDesc. reloc_steps. Qed.

Lemma reloc_parseContextClassRule : reloc parseContextClassRule.
Proof. unfold parseContextClassRule. pose proof reloc_lookupRecordDesc. reloc_steps. Qed.

Lemma reloc_parseChainRule : reloc parseChainRule.
Proof. unfold parseChainRule. pose proof reloc_lookupRecordDesc. reloc_steps. Qed.

Lemma reloc_parseLookup2 : reloc parseLookup2.
Proof. unfold parseLookup2. reloc_steps. Qed.

Lemma reloc_parseLookup3 : reloc parseLookup3.
Proof. unfold parseLookup3. reloc_steps. Qed.

Lemma reloc_parseLookup4 : reloc parseLookup4.
Proof. unfold parseLookup4. pose proof reloc_parseLigature. reloc_steps. Qed.

Lemma reloc_parseLookup8 : reloc parseLookup8.
Proof. unfold parseLookup8. reloc_steps. Qed.

(** The start offset that types 5 and 6 take at entry only reaches the
    message of the error; a run that returns does not depend on it. *)
Lemma reloc_with_start {A : Type} (body : Z -> M A) (start : Parser -> Z) :
  (forall s s' p a q, body s p = Return (a, q) -> body s' p = Return (a, q)) ->
  (forall s, reloc (body s)) ->
  reloc (fun this => body (start this) this).
Proof.
  intros Hind Hbody p p' a q Hrel H.
  destruct (Hbody (start p) p p' a q Hrel H) as (q' & Hq' & Hrel').
  exists q'. split; [|exact Hrel']. eapply Hind. exact Hq'.
Qed.

Lemma reloc_parseLookup5 : reloc parseLookup5.
Proof.
  pose proof reloc_lookupRecordDesc. pose proof reloc_parseContextRule.
  pose proof reloc_parseContextClassRule. pose proof reloc_parseClassDef.
  unfold parseLookup5.
  apply (reloc_with_start
           (fun start =>
              substFormat <- parseUShort;;
              if substFormat =? 1 then
                coverage <- parsePointer parseCoverage;;
                ruleSets <- parseListOfListsOf parseContextRule;;
                ret (Context1 substFormat coverage ruleSets)
              else if substFormat =? 2 then
                coverage <- parsePointer parseCoverage;;
                classDef <- parsePointer parseClassDef;;
                classSets <- parseListOfListsOf parseContextClassRule;;
                ret (Context2 substFormat coverage classDef classSets)
              else if substFormat =? 3 then
                glyphCount <- parseUShort;;
                substCount <- parseUShort;;
                coverages <- parseList (Some glyphCount) (parsePointer parseCoverage);;
                lookupRecords <- parseRecordList (Some substCount) lookupRecordDesc;;
                ret (Context3 substFormat coverages lookupRecords)
              else
                check_assert_false
                  ("0x" ++ toString16 start
                     ++ ": lookup type 5 format must be 1, 2 or 3.")%string)
           (fun this => offset this + relativeOffset this)).
  - intros s s' p a q Hrun.
    apply bind_Return in Hrun as (f & p1 & Hf & Hrun). rewrite (bind_run _ _ _ _ _ Hf).
    destruct (f =? 1); [exact Hrun|]. destruct (f =? 2); [exact Hrun|].
    destruct (f =? 3); [exact Hrun|discriminate Hrun].
  - intros s. reloc_steps.
Qed.

Lemma reloc_parseLookup6 : reloc parseLookup6.
Proof.
  pose proof reloc_lookupRecordDesc. pose proof reloc_parseChainRule.
  pose proof reloc_parseClassDef.
  unfold parseLookup6.
  apply (reloc_with_start
           (fun start =>
              substFormat <- parseUShort;;
              if substFormat =? 1 then
                coverage <- parsePointer parseCoverage;;
                chainRuleSets <- parseListOfListsOf parseChainRule;;
                ret (Chain1 1 coverage chainRuleSets)
              else if substFormat =? 2 then
                coverage <- parsePointer parseCoverage;;
                backtrackClassDef <- parsePointer parseClassDef;;
                inputClassDef <- parsePointer parseClassDef;;
                lookaheadClassDef <- parsePointer parseClassDef;;
                chainClassSet <- parseListOfListsOf parseChainRule;;
                ret (Chain2 2 coverage backtrackClassDef inputClassDef lookaheadClassDef
                       chainClassSet)
              else if substFormat =? 3 then
                backtrackCoverage <- parseList None (parsePointer parseCoverage);;
                inputCoverage <- parseList None (parsePointer parseCoverage);;
                lookaheadCoverage <- parseList None (parsePointer parseCoverage);;
                lookupRecords <- parseRecordList None lookupRecordDesc;;
                ret (Chain3 3 backtrackCoverage inputCoverage lookaheadCoverage
                       lookupRecords)
              else
                check_assert_false
                  ("0x" ++ toString16 start
                     ++ ": lookup type 6 format must be 1, 2 or 3.")%string)
           (fun this => offset this + relativeOffset this)).
  - intros s s' p a q Hrun.
    apply bind_Return in Hrun as (f & p1 & Hf & Hrun). rewrite (bind_run _ _ _ _ _ Hf).
    destruct (f =? 1); [exact Hrun|]. destruct (f =? 2); [exact Hrun|].
    destruct (f =? 3); [exact Hrun|discriminate Hrun].
  - intros s. reloc_steps.
Qed.

Lemma slotRelocates_Some (m : M Subtable) :
  reloc m -> slotRelocates standalone base host base' (Some m).
Proof.
  intros Hm q q' v Hrel H. apply callSlot_Return in H as (m' & r & [= <-] & H).
  destruct (Hm _ _ _ _ Hrel H) as (r' & Hr' & _). cbn. now rewrite Hr'.
Qed.

Lemma reloc_parseLookup7 (tbl : Z -> option (M Subtable)) :
  (forall t, slotRelocates standalone base host base' (tbl t)) ->
  reloc (parseLookup7 tbl).
Proof.
  intros Htbl. unfold parseLookup7.
  apply simulates_bind; [apply simulates_parseUShort; exact Hembedded|]. intros f.
  apply simulates_bind; [apply reloc_check_argument|]. intros _.
  apply simulates_bind; [apply simulates_parseUShort; exact Hembedded|]. intros t.
  apply reloc_bind_strong; [apply reloc_parseULong|].
  intros k (p0 & p0' & q0 & _ & Hk).
  assert (Hk0 : 0 <= k).
  { rewrite parseULong_unfold in Hk. unfold getUint32 in Hk.
    destruct (getUint16 (data p0) (position p0)) as [hi|] eqn:Ehi; [|discriminate Hk].
    destruct (getUint16 (data p0) (position p0 + 2)) as [lo|] eqn:Elo; [|discriminate Hk].
    apply Return_pair in Hk as [<- _].
    apply getUint16_range in Ehi. apply getUint16_range in Elo. lia. }
  intros p p' v q Hrel H.
  destruct (callSlot (tbl t) (newParser (data p) (offset p + k))) as [ext| |] eqn:E;
    try discriminate H.
  apply Return_pair in H as [<- <-].
  assert (Hrel2 : related (newParser (data p) (offset p + k))
                    (newParser (data p') (offset p' + k))).
  { destruct Hrel as (Hd & Hd' & Hb & Hr0 & Ho & Hr').
    unfold shifted, newParser. cbn. repeat (split; [assumption || lia|]). reflexivity. }
  rewrite (Htbl t _ _ _ Hrel2 E). exists p'. split; [reflexivity|exact Hrel].
Qed.

Lemma slotRelocates_dispatch (fuel : nat) :
  forall i, slotRelocates standalone base host base' (subtableParsers fuel i).
Proof.
  induction fuel as [|fuel IH]; intros i; cbn [subtableParsers];
    repeat match goal with
           | |- context [if ?b then _ else _] => destruct b
           end;
    try (apply slotRelocates_Some;
         first [ apply simulates_parseLookup1; exact Hembedded
               | apply reloc_parseLookup2 | apply reloc_parseLookup3
               | apply reloc_parseLookup4 | apply reloc_parseLookup5
               | apply reloc_parseLookup6 | apply reloc_parseLookup8
               | apply reloc_parseLookup7; exact IH ]);
    intros q q' v Hrel H; discriminate H.
Qed.

End RelocationOfSubtables.

Lemma shifted_newParser (standalone : DataView) (base : Z) (host : DataView) (base' : Z) :
  shifted standalone base host base' (newParser standalone base) (newParser host base').
Proof. unfold shifted, newParser. cbn. repeat split; lia. Qed.

(** X7: a subtable of any lookup type decodes to the same record
    wherever its bytes lie.  When the bytes of a buffer from [base] on
    are found in a host buffer from [base'] on and the dispatch table
    returns [v] for the first, it returns [v] for the second; so an
    extension subtable of any lookup type [t] -- another extension
    included -- whose payload bytes are those of a standalone subtable
    of type [t] decodes to that subtable's record under the extension
    tag. *)
Theorem subtable_decoding_relocates :
  (forall (fuel : nat) (i : Z) (standalone : DataView) (base : Z) (host : DataView)
          (base' : Z) (v : Subtable),
      embedded standalone base host base' ->
      callSlot (subtableParsers fuel i) (newParser standalone base) = Return v ->
      callSlot (subtableParsers fuel i) (newParser host base') = Return v) /\
  (forall (fuel : nat) (this : Parser) (substFormat t extensionOffset : Z)
          (standalone : DataView) (base : Z) (v : Subtable),
      extensionHeader this = Some (substFormat, t, extensionOffset) ->
      embedded standalone base (data this) (offset this + extensionOffset) ->
      callSlot (subtableParsers fuel t) (newParser standalone base) = Return v ->
      parseLookup7 (subtableParsers fuel) this = Return (Extension 1 t v, advance 8 this)).
Proof.
  split.
  - intros fuel i standalone base host base' v Hemb H.
    exact (slotRelocates_dispatch _ _ _ _ Hemb fuel i _ _ v (shifted_newParser _ _ _ _) H).
  - intros fuel this f t k standalone base v Hh Hemb H.
    rewrite (parseLookup7_header_Some _ _ _ _ Hh).
    rewrite (slotRelocates_dispatch _ _ _ _ Hemb fuel t _ _ v
               (shifted_newParser _ _ _ _) H).
    reflexivity.
Qed.

Lemma subtable_decoding_relocates_witness :
  extensionHeader (newParser extension_nested 0) = Some (1, 7, 8) /\
  embedded extension_single1 0 extension_nested 8 /\
  callSlot (subtableParsers 1 7) (newParser extension_single1 0)
  = Return (Extension 1 1 (Single1 1 (Some (CoverageFormat1 [5])) 65535)) /\
  parseLookup7 (subtableParsers 1) (newParser extension_nested 0)
  = Return (Extension 1 7 (Extension 1 1 (Single1 1 (Some (CoverageFormat1 [5])) 65535)),
            advance 8 (newParser extension_nested 0)).
Proof.
  assert (Hemb : embedded extension_single1 0 extension_nested 8)
    by exact (embedded_app [x00; x01; x00; x07; x00; x00; x00; x08] extension_single1).
  split; [reflexivity|]. split; [exact Hemb|]. split; [reflexivity|].
  exact (proj2 subtable_decoding_relocates 1%nat (newParser extension_nested 0) 1 7 8
           extension_single1 0 _ eq_refl Hemb eq_refl).
Defined.

(** ** Truncated subtables *)

Lemma parseUShort_None (p : Parser) :
  getUint16 (data p) (position p) = None -> parseUShort p = Throw RangeError.
Proof. unfold parseUShort. now intros ->. Qed.

(** X8: when the two bytes of the format word cannot be read -- the
    buffer is empty, or ends before or inside the word, or the position
    is negative -- every parser of the dispatch table throws a
    [RangeError]; none returns a record. *)
Theorem truncated_subtable_throws :
  forall (fuel : nat) (i : Z) (this : Parser),
    1 <= i <= 8 ->
    getUint16 (data this) (position this) = None ->
    callSlot (subtableParsers (S fuel) i) this = Throw RangeError.
Proof.
  intros fuel i this Hi Hnone.
  pose proof (parseUShort_None this Hnone) as Hu.
  assert (Hcases : i = 1 \/ i = 2 \/ i = 3 \/ i = 4 \/ i = 5 \/ i = 6 \/ i = 7 \/ i = 8)
    by lia.
  destruct Hcases as [->|[->|[->|[->|[->|[->|[->| ->]]]]]]];
    cbn [subtableParsers Z.eqb Pos.eqb callSlot].
  - unfold parseLookup1. now rewrite (bind_Throw _ _ _ _ Hu).
  - unfold parseLookup2. now rewrite (bind_Throw _ _ _ _ Hu).
  - unfold parseLookup3. now rewrite (bind_Throw _ _ _ _ Hu).
  - unfold parseLookup4. now rewrite (bind_Throw _ _ _ _ Hu).
  - unfold parseLookup5. now rewrite (bind_Throw _ _ _ _ Hu).
  - unfold parseLookup6. now rewrite (bind_Throw _ _ _ _ Hu).
  - unfold parseLookup7. now rewrite (bind_Throw _ _ _ _ Hu).
  - unfold parseLookup8. now rewrite (bind_Throw _ _ _ _ Hu).
Qed.

Lemma truncated_subtable_throws_witness :
  1 <= 4 <= 8 /\
  getUint16 [x00] 0 = None /\
  callSlot (subtableParsers 1 4) (newParser [x00] 0) = Throw RangeError.
Proof.
  split; [lia|]. split; [reflexivity|].
  exact (truncated_subtable_throws 0 4 (newParser [x00] 0) ltac:(lia) eq_refl).
Defined.

(** ** The subtables of a decoded table *)

(** X9: in a table that [parseGsubTable] returns, over the lookup
    directory decoder, every lookup has a lookup type in 1-8 and every
    subtable listed in it is a well-formed record of the shape of that
    lookup type. *)
Theorem decoded_table_subtables_well_formed :
  forall (ScriptList FeatureList : Type)
         (parseVersion' : M Q) (parseScriptList' : M ScriptList)
         (parseFeatureList' : M FeatureList)
         (fuel : nat) (d : DataView) (start : option Z)
         (table : Table ScriptList FeatureList (option (list (option Lookup))))
         (entries : list (option Lookup)),
    parseGsubTable parseVersion' parseScriptList' parseFeatureList' parseLookupList
      fuel d start = Return table ->
    lookups table = Some entries ->
    Forall (fun entry =>
              forall lookup, entry = Some lookup ->
                1 <= lookup_lookupType lookup <= 8 /\
                Forall (fun subtable =>
                          forall v, subtable = Some v ->
                            subtableKind v = lookup_lookupType lookup /\
                            wellFormed v = true)
                  (subtables lookup))
      entries.
Proof.
  intros SL FL PV PS PF fuel d start table entries H Hl.
  pose proof (parseGsubTable_outcome SL FL _ PV PS PF parseLookupList fuel d start) as Ho.
  rewrite H in Ho. destruct Ho as (p1 & p2 & p3 & p4 & _ & _ & _ & _ & HL).
  rewrite Hl in HL. apply parseLookupList_Return in HL.
  eapply Forall_impl; [|exact HL].
  intros entry He lookup ->. destruct (He lookup eq_refl) as [Ht Hs].
  split; [exact Ht|].
  eapply Forall_impl; [|exact Hs].
  intros st Hst v ->. destruct (Hst v eq_refl) as (parser & Hcall).
  apply dispatch_shaped in Hcall as (_ & Hk & Hw & _). auto.
Qed.

Lemma decoded_table_subtables_well_formed_witness :
  parseGsub 1 gsub_table None
  = Return (mkTable (40960 # 40960) None None
              (Some [Some (mkLookup 7 0
                             [Some (Extension 1 1
                                      (Single1 1 (Some (CoverageFormat1 [5])) 65535))]
                             None)])) /\
  Forall (fun entry =>
            forall lookup, entry = Some lookup ->
              1 <= lookup_lookupType lookup <= 8 /\
              Forall (fun subtable =>
                        forall v, subtable = Some v ->
                          subtableKind v = lookup_lookupType lookup /\
                          wellFormed v = true)
                (subtables lookup))
    [Some (mkLookup 7 0
             [Some (Extension 1 1 (Single1 1 (Some (CoverageFormat1 [5])) 65535))]
             None)].
Proof.
  split; [reflexivity|].
  exact (decoded_table_subtables_well_formed _ _ parseVersion parseScriptList
           parseFeatureList 1%nat gsub_table None _ _ eq_refl eq_refl).
Defined.

(** ** Lists of lists *)

Lemma mapM_Return_Forall2 {A B : Type} (f : A -> M B) :
  (forall a, stable (f a)) ->
  forall (l : list A) (p p' : Parser) (r : list B),
    mapM f l p = Return (r, p') ->
    sameBuffer p p' /\
    Forall2 (fun a b => exists q q', sameBuffer p q /\ f a q = Return (b, q')) l r.
Proof.
  intros Hs. induction l as [|a l IH]; intros p p' r H; cbn [mapM] in H.
  - apply ret_Return in H as [-> ->]. split; [apply sameBuffer_refl|constructor].
  - apply bind_Return in H as (x & p1 & Hx & H).
    apply bind_Return in H as (xs & p2 & Hxs & H).
    apply ret_Return in H as [-> ->].
    pose proof (stable_sameBuffer _ _ _ _ (Hs a) Hx) as Hp1.
    destruct (IH _ _ _ Hxs) as [Hp2 Hall].
    split; [eapply sameBuffer_trans; eauto|].
    constructor.
    + exists p, p1. split; [apply sameBuffer_refl|exact Hx].
    + eapply Forall2_impl; [|exact Hall].
      intros a0 b (q & q' & Hq & Hf). exists q, q'.
      split; [eapply sameBuffer_trans; eauto|exact Hf].
Qed.

Lemma mkParser_sameBuffer (this q : Parser) (r : Z) :
  sameBuffer this q -> mkParser (data q) (offset q) r = mkParser (data this) (offset this) r.
Proof. intros [-> ->]. reflexivity. Qed.

Lemma sameBuffer_advance (this : Parser) (n : Z) : sameBuffer this (advance n this).
Proof. split; reflexivity. Qed.

Lemma parseListOfListsWith_layout {A : Type} (sub : Z -> M (list A)) :
  (forall start, stable (sub start)) ->
  forall (this p p' : Parser) (skip : Z) (entries : list (option (list A))),
    p = advance skip this ->
    parseListOfListsWith sub p = Return (entries, p') ->
    exists (offsets : list Z) (count : Z),
      getUint16 (data this) (position this + skip) = Some count /\
      Z.of_nat (List.length offsets) = count /\
      wordList this (position this + skip + 2) offsets /\
      p' = advance (skip + (2 + 2 * count)) this /\
      Forall2 (fun start entry =>
                 if start =? 0 then entry = None
                 else exists l q,
                     entry = Some l /\
                     sub start (mkParser (data this) (offset this) start) = Return (l, q))
        offsets entries.
Proof.
  intros Hs this p p' skip entries -> H. unfold parseListOfListsWith in H.
  apply bind_Return in H as (offsets & p1 & Ho & H).
  apply (wordList_step this _ _ skip _ eq_refl) in Ho as (count & Hc & Hlen & Hw & ->).
  apply bind_Return in H as (rel & p2 & Hrel & H).
  unfold getRelativeOffset in Hrel. apply Return_pair in Hrel as [<- <-].
  apply bind_Return in H as (l & p3 & Hl & H).
  apply bind_Return in H as ([] & p4 & Hset & H).
  apply ret_Return in H as [-> ->].
  unfold setRelativeOffset in Hset. apply Return_pair in Hset as [_ <-].
  apply mapM_Return_Forall2 in Hl.
  2:{ intros start. destruct (start =? 0); [apply stable_ret|].
      apply stable_bind; [apply stable_setRelativeOffset|]. intros _.
      apply stable_bind; [apply Hs|]. intros x. apply stable_ret. }
  destruct Hl as [Hp3 Hall].
  exists offsets, count. split; [exact Hc|]. split; [exact Hlen|]. split; [exact Hw|].
  split.
  - rewrite (mkParser_sameBuffer _ _ _ Hp3). reflexivity.
  - eapply Forall2_impl; [|exact Hall].
    intros start entry (q & q' & Hq & Hf).
    destruct (start =? 0); [now apply ret_Return in Hf as [-> _]|].
    apply bind_Return in Hf as ([] & q1 & Hq1 & Hf).
    apply bind_Return in Hf as (sl & q2 & Hsub & Hf).
    apply ret_Return in Hf as [-> _].
    unfold setRelativeOffset in Hq1. apply Return_pair in Hq1 as [_ <-].
    rewrite (mkParser_sameBuffer (advance (skip + (2 + 2 * count)) this) q start Hq)
      in Hsub.
    exists sl, q2. split; [reflexivity|exact Hsub].
Qed.

Lemma advance_mkParser (d : DataView) (o r : Z) :
  mkParser d o r = advance 0 (mkParser d o r).
Proof. unfold advance. cbn. f_equal; lia. Qed.

Lemma parseListOfLists_layout (this p p' : Parser) (skip : Z)
      (entries : list (option (list Z))) :
  p = advance skip this ->
  parseListOfLists p = Return (entries, p') ->
  exists (offsets : list Z) (count : Z),
    getUint16 (data this) (position this + skip) = Some count /\
    Z.of_nat (List.length offsets) = count /\
    wordList this (position this + skip + 2) offsets /\
    p' = advance (skip + (2 + 2 * count)) this /\
    Forall2 (countedListAt this) offsets entries.
Proof.
  intros Hp H. unfold parseListOfLists in H.
  apply (parseListOfListsWith_layout _ (fun _ => stable_parseUShortList None)
           this _ _ skip _ Hp) in H
    as (offsets & count & Hc & Hlen & Hw & Hp' & Hall).
  exists offsets, count. repeat (split; [assumption|]).
  eapply Forall2_impl; [|exact Hall].
  intros start entry Hentry. unfold countedListAt. cbv beta in Hentry.
  destruct (start =? 0); [exact Hentry|].
  destruct Hentry as (l & q & -> & Hl).
  apply (wordList_step (mkParser (data this) (offset this) start) _ _ 0 _
           (advance_mkParser _ _ _)) in Hl as (n & Hn & Hnlen & Hnw & _).
  exists l. split; [reflexivity|]. subst n. split.
  - eapply getUint16_at; [exact Hn|]. unfold position; cbn; lia.
  - eapply wordList_at; [exact Hnw|]. unfold position; cbn; lia.
Qed.

Lemma parseListOfListsOf_layout {A : Type} (item : M A) :
  stable item ->
  forall (this p p' : Parser) (skip : Z) (entries : list (option (list A))),
    p = advance skip this ->
    parseListOfListsOf item p = Return (entries, p') ->
    exists (offsets : list Z) (count : Z),
      getUint16 (data this) (position this + skip) = Some count /\
      Z.of_nat (List.length offsets) = count /\
      wordList this (position this + skip + 2) offsets /\
      p' = advance (skip + (2 + 2 * count)) this /\
      Forall2 (itemSetAt item this) offsets entries.
Proof.
  intros Hitem this p p' skip entries Hp H. unfold parseListOfListsOf in H.
  assert (HsubStable : forall start,
             stable (subOffsets <- parseOffset16List;;
                     mapM (fun subOffset => setRelativeOffset (start + subOffset);;; item)
                       subOffsets)).
  { intros start. apply stable_bind; [apply stable_parseUShortList|]. intros subOffsets.
    apply stable_mapM. intros so. stable_steps. }
  apply (parseListOfListsWith_layout _ HsubStable this _ _ skip _ Hp) in H
    as (offsets & count & Hc & Hlen & Hw & Hp' & Hall).
  exists offsets, count. repeat (split; [assumption|]).
  eapply Forall2_impl; [|exact Hall].
  intros start entry Hentry. unfold itemSetAt. cbv beta in Hentry.
  destruct (start =? 0); [exact Hentry|].
  destruct Hentry as (l & q & -> & Hl).
  apply bind_Return in Hl as (subOffsets & q1 & Hso & Hl).
  apply (wordList_step (mkParser (data this) (offset this) start) _ _ 0 _
           (advance_mkParser _ _ _)) in Hso as (n & Hn & Hnlen & Hnw & ->).
  apply mapM_Return_Forall2 in Hl; [|intros so; stable_steps].
  destruct Hl as [_ Hitems].
  exists l, subOffsets. split; [reflexivity|]. subst n. split; [|split].
  - eapply getUint16_at; [exact Hn|]. unfold position; cbn; lia.
  - eapply wordList_at; [exact Hnw|]. unfold position; cbn; lia.
  - eapply Forall2_impl; [|exact Hitems].
    intros so x (r & r' & Hr & Hrun).
    apply bind_Return in Hrun as ([] & r1 & Hr1 & Hrun).
    unfold setRelativeOffset in Hr1. apply Return_pair in Hr1 as [_ <-].
    destruct Hr as [Hd Ho]. cbn [data offset advance] in Hd, Ho.
    rewrite Hd, Ho in Hrun. eauto.
Qed.

(** Read the format word of a parser that accepts format 1 only. *)
Ltac format1_step this H :=
  let f := fresh "f" in
  let Hf := fresh "Hf" in
  let Hck := fresh "Hck" in
  let Hp := fresh "Hp" in
  apply bind_Return in H as (f & ? & Hf & H);
  apply (word_step this _ _ 0 _ (advance_0 this)) in Hf as [-> Hf];
  rewrite Z.add_0_r in Hf;
  apply bind_Return in H as ([] & ? & Hck & H);
  apply check_argument_Return in Hck as [Hck Hp];
  apply Z.eqb_eq in Hck; subst f;
  apply pair_equal_spec in Hp as [_ ->].

(** X10: what the decoded type 2 and type 3 subtables hold, in terms of
    the bytes.  After the format (1) and the coverage offset comes a
    counted list of offset words; [sequences] (or [alternateSets]) has
    one entry per offset word, [undefined] for a zero offset and
    otherwise the counted list of glyph ids found at [this.offset] plus
    the offset; the cursor ends after the offset words, wherever the
    lists lie. *)
Theorem glyph_lists_layout :
  (forall (this this' : Parser) (v : Subtable),
      parseLookup2 this = Return (v, this') ->
      exists (structOffset count : Z) (coverage : option Coverage) (offsets : list Z)
             (sequences : list (option (list Z))),
        v = Multiple 1 coverage sequences /\
        getUint16 (data this) (position this) = Some 1 /\
        getUint16 (data this) (position this + 2) = Some structOffset /\
        pointerResult parseCoverage this structOffset coverage /\
        getUint16 (data this) (position this + 4) = Some count /\
        Z.of_nat (List.length offsets) = count /\
        wordList this (position this + 6) offsets /\
        Forall2 (countedListAt this) offsets sequences /\
        this' = advance (6 + 2 * count) this) /\
  (forall (this this' : Parser) (v : Subtable),
      parseLookup3 this = Return (v, this') ->
      exists (structOffset count : Z) (coverage : option Coverage) (offsets : list Z)
             (alternateSets : list (option (list Z))),
        v = Alternate 1 coverage alternateSets /\
        getUint16 (data this) (position this) = Some 1 /\
        getUint16 (data this) (position this + 2) = Some structOffset /\
        pointerResult parseCoverage this structOffset coverage /\
        getUint16 (data this) (position this + 4) = Some count /\
        Z.of_nat (List.length offsets) = count /\
        wordList this (position this + 6) offsets /\
        Forall2 (countedListAt this) offsets alternateSets /\
        this' = advance (6 + 2 * count) this).
Proof.
  split; intros this this' v H; [unfold parseLookup2 in H|unfold parseLookup3 in H];
    format1_step this H;
    apply bind_Return in H as (c & p3 & Hc & H);
    apply (pointer_step _ this _ _ 2 _ eq_refl) in Hc as (-> & so & Hso & Hres);
    apply bind_Return in H as (ll & p4 & Hll & H);
    apply (parseListOfLists_layout this _ _ 4 _ eq_refl) in Hll
      as (offsets & count & Hcount & Hlen & Hw & -> & Hall);
    ret_inv H;
    exists so, count, c, offsets, ll; layout_done.
Qed.

Lemma glyph_lists_layout_witness :
  parseLookup2 (newParser multiple_subtable 0)
  = Return (Multiple 1 None [Some [65; 66]; None], advance 10 (newParser multiple_subtable 0)) /\
  exists offsets : list Z,
    wordList (newParser multiple_subtable 0) 6 offsets /\
    Forall2 (countedListAt (newParser multiple_subtable 0)) offsets [Some [65; 66]; None].
Proof.
  split; [reflexivity|].
  destruct (proj1 glyph_lists_layout (newParser multiple_subtable 0) _ _ eq_refl)
    as (so & count & c & offsets & seqs & Hv & _ & _ & _ & _ & _ & Hw & Hall & _).
  injection Hv as _ <-. exists offsets. split; [exact Hw|exact Hall].
Defined.

Lemma stable_lookupRecordDesc : stable lookupRecordDesc.
Proof. unfold lookupRecordDesc. stable_steps. Qed.

Lemma stable_parseContextRule : stable parseContextRule.
Proof.
  unfold parseContextRule, parseRecordList.
  pose proof stable_parseUShortList. pose proof stable_lookupRecordDesc. stable_steps.
Qed.

Lemma stable_parseContextClassRule : stable parseContextClassRule.
Proof.
  unfold parseContextClassRule, parseRecordList.
  pose proof stable_parseUShortList. pose proof stable_lookupRecordDesc. stable_steps.
Qed.

Lemma stable_parseChainRule : stable parseChainRule.
Proof.
  unfold parseChainRule, parseRecordList.
  pose proof stable_parseUShortList. pose proof stable_lookupRecordDesc.
  pose proof stable_parseShort. stable_steps.
Qed.

(** X11: where the rules of the decoded types 4, 5 and 6 (formats 1 and
    2) come from.  The list of sets has one entry per offset word of the
    counted list that follows the coverage (and class definition)
    offsets; an entry is [undefined] for a zero offset; otherwise the
    set lies at [this.offset] plus the offset, starts with its own
    counted list of offset words, and holds one rule per word: the rule
    decoded at the start of the set plus that word.  The cursor ends
    after the offset words of the subtable. *)
Theorem rule_sets_layout :
  (forall (this this' : Parser) (substFormat : Z) (coverage : option Coverage)
          (ligatureSets : list (option (list Ligature))),
      parseLookup4 this = Return (LigatureSubst substFormat coverage ligatureSets, this') ->
      exists (count : Z) (offsets : list Z),
        getUint16 (data this) (position this + 4) = Some count /\
        Z.of_nat (List.length offsets) = count /\
        wordList this (position this + 6) offsets /\
        Forall2 (itemSetAt parseLigature this) offsets ligatureSets /\
        this' = advance (6 + 2 * count) this) /\
  (forall (this this' : Parser) (substFormat : Z) (coverage : option Coverage)
          (ruleSets : list (option (list ContextRule))),
      parseLookup5 this = Return (Context1 substFormat coverage ruleSets, this') ->
      exists (count : Z) (offsets : list Z),
        getUint16 (data this) (position this + 4) = Some count /\
        Z.of_nat (List.length offsets) = count /\
        wordList this (position this + 6) offsets /\
        Forall2 (itemSetAt parseContextRule this) offsets ruleSets /\
        this' = advance (6 + 2 * count) this) /\
  (forall (this this' : Parser) (substFormat : Z) (coverage : option Coverage)
          (classDef : option ClassDef) (classSets : list (option (list ContextClassRule))),
      parseLookup5 this = Return (Context2 substFormat coverage classDef classSets, this') ->
      exists (classOffset count : Z) (offsets : list Z),
        getUint16 (data this) (position this + 4) = Some classOffset /\
        pointerResult parseClassDef this classOffset classDef /\
        getUint16 (data this) (position this + 6) = Some count /\
        Z.of_nat (List.length offsets) = count /\
        wordList this (position this + 8) offsets /\
        Forall2 (itemSetAt parseContextClassRule this) offsets classSets /\
        this' = advance (8 + 2 * count) this) /\
  (forall (this this' : Parser) (substFormat : Z) (coverage : option Coverage)
          (chainRuleSets : list (option (list ChainRule))),
      parseLookup6 this = Return (Chain1 substFormat coverage chainRuleSets, this') ->
      exists (count : Z) (offsets : list Z),
        getUint16 (data this) (position this + 4) = Some count /\
        Z.of_nat (List.length offsets) = count /\
        wordList this (position this + 6) offsets /\
        Forall2 (itemSetAt parseChainRule this) offsets chainRuleSets /\
        this' = advance (6 + 2 * count) this) /\
  (forall (this this' : Parser) (substFormat : Z) (coverage : option Coverage)
          (backtrackClassDef inputClassDef lookaheadClassDef : option ClassDef)
          (chainClassSet : list (option (list ChainRule))),
      parseLookup6 this
      = Return (Chain2 substFormat coverage backtrackClassDef inputClassDef
                  lookaheadClassDef chainClassSet, this') ->
      exists (backtrackOffset inputOffset lookaheadOffset count : Z) (offsets : list Z),
        getUint16 (data this) (position this + 4) = Some backtrackOffset /\
        pointerResult parseClassDef this backtrackOffset backtrackClassDef /\
        getUint16 (data this) (position this + 6) = Some inputOffset /\
        pointerResult parseClassDef this inputOffset inputClassDef /\
        getUint16 (data this) (position this + 8) = Some lookaheadOffset /\
        pointerResult parseClassDef this lookaheadOffset lookaheadClassDef /\
        getUint16 (data this) (position this + 10) = Some count /\
        Z.of_nat (List.length offsets) = count /\
        wordList this (position this + 12) offsets /\
        Forall2 (itemSetAt parseChainRule this) offsets chainClassSet /\
        this' = advance (12 + 2 * count) this).
Proof.
  split; [|split; [|split; [|split]]].
  - intros this this' sf cov sets H. unfold parseLookup4 in H.
    format1_step this H.
    apply bind_Return in H as (c & p3 & Hc & H).
    apply (pointer_step _ this _ _ 2 _ eq_refl) in Hc as (-> & so & Hso & Hres).
    apply bind_Return in H as (ll & p4 & Hll & H).
    apply (parseListOfListsOf_layout _ stable_parseLigature this _ _ 4 _ eq_refl) in Hll
      as (offsets & count & Hcount & Hlen & Hw & -> & Hall).
    apply ret_Return in H as [H ->]. injection H as -> -> ->.
    exists count, offsets. layout_done.
  - intros this this' sf cov sets H. unfold parseLookup5 in H.
    apply bind_Return in H as (f & p1 & Hf & H).
    apply (word_step this _ _ 0 _ (advance_0 this)) in Hf as [-> Hf].
    destruct (f =? 1).
    2:{ destruct (f =? 2); [|destruct (f =? 3)]; run_inv H;
        apply ret_Return in H as [H _]; discriminate H. }
    apply bind_Return in H as (c & p3 & Hc & H).
    apply (pointer_step _ this _ _ 2 _ eq_refl) in Hc as (-> & so & Hso & Hres).
    apply bind_Return in H as (ll & p4 & Hll & H).
    apply (parseListOfListsOf_layout _ stable_parseContextRule this _ _ 4 _ eq_refl) in Hll
      as (offsets & count & Hcount & Hlen & Hw & -> & Hall).
    apply ret_Return in H as [H ->]. injection H as -> -> ->.
    exists count, offsets. layout_done.
  - intros this this' sf cov cd sets H. unfold parseLookup5 in H.
    apply bind_Return in H as (f & p1 & Hf & H).
    apply (word_step this _ _ 0 _ (advance_0 this)) in Hf as [-> Hf].
    destruct (f =? 1); [run_inv H; apply ret_Return in H as [H _]; discriminate H|].
    destruct (f =? 2).
    2:{ destruct (f =? 3); run_inv H; apply ret_Return in H as [H _]; discriminate H. }
    apply bind_Return in H as (c & p3 & Hc & H).
    apply (pointer_step _ this _ _ 2 _ eq_refl) in Hc as (-> & so & Hso & Hres).
    apply bind_Return in H as (c2 & p4 & Hc2 & H).
    apply (pointer_step _ this _ _ 4 _ eq_refl) in Hc2 as (-> & so2 & Hso2 & Hres2).
    apply bind_Return in H as (ll & p5 & Hll & H).
    apply (parseListOfListsOf_layout _ stable_parseContextClassRule this _ _ 6 _ eq_refl)
      in Hll as (offsets & count & Hcount & Hlen & Hw & -> & Hall).
    apply ret_Return in H as [H ->]. injection H as -> -> -> ->.
    exists so2, count, offsets. layout_done.
  - intros this this' sf cov sets H. unfold parseLookup6 in H.
    apply bind_Return in H as (f & p1 & Hf & H).
    apply (word_step this _ _ 0 _ (advance_0 this)) in Hf as [-> Hf].
    destruct (f =? 1).
    2:{ destruct (f =? 2); [|destruct (f =? 3)]; run_inv H;
        apply ret_Return in H as [H _]; discriminate H. }
    apply bind_Return in H as (c & p3 & Hc & H).
    apply (pointer_step _ this _ _ 2 _ eq_refl) in Hc as (-> & so & Hso & Hres).
    apply bind_Return in H as (ll & p4 & Hll & H).
    apply (parseListOfListsOf_layout _ stable_parseChainRule this _ _ 4 _ eq_refl) in Hll
      as (offsets & count & Hcount & Hlen & Hw & -> & Hall).
    apply ret_Return in H as [H ->]. injection H as -> -> ->.
    exists count, offsets. layout_done.
  - intros this this' sf cov cd1 cd2 cd3 sets H. unfold parseLookup6 in H.
    apply bind_Return in H as (f & p1 & Hf & H).
    apply (word_step this _ _ 0 _ (advance_0 this)) in Hf as [-> Hf].
    destruct (f =? 1); [run_inv H; apply ret_Return in H as [H _]; discriminate H|].
    destruct (f =? 2).
    2:{ destruct (f =? 3); run_inv H; apply ret_Return in H as [H _]; discriminate H. }
    apply bind_Return in H as (c & p3 & Hc & H).
    apply (pointer_step _ this _ _ 2 _ eq_refl) in Hc as (-> & so & Hso & Hres).
    apply bind_Return in H as (c1 & p4 & Hc1 & H).
    apply (pointer_step _ this _ _ 4 _ eq_refl) in Hc1 as (-> & so1 & Hso1 & Hres1).
    apply bind_Return in H as (c2 & p5 & Hc2 & H).
    apply (pointer_step _ this _ _ 6 _ eq_refl) in Hc2 as (-> & so2 & Hso2 & Hres2).
    apply bind_Return in H as (c3 & p6 & Hc3 & H).
    apply (pointer_step _ this _ _ 8 _ eq_refl) in Hc3 as (-> & so3 & Hso3 & Hres3).
    apply bind_Return in H as (ll & p7 & Hll & H).
    apply (parseListOfListsOf_layout _ stable_parseChainRule this _ _ 10 _ eq_refl) in Hll
      as (offsets & count & Hcount & Hlen & Hw & -> & Hall).
    apply ret_Return in H as [H ->]. injection H as -> -> -> -> -> ->.
    exists so1, so2, so3, count, offsets. layout_done.
Qed.

Lemma rule_sets_layout_witness :
  parseLookup4 (newParser ligature_subtable 0)
  = Return (LigatureSubst 1 None [Some [mkLigature 9 [7; 8]]],
            advance 8 (newParser ligature_subtable 0)) /\
  exists (count : Z) (offsets : list Z),
    getUint16 ligature_subtable 4 = Some count /\
    wordList (newParser ligature_subtable 0) 6 offsets /\
    Forall2 (itemSetAt parseLigature (newParser ligature_subtable 0)) offsets
      [Some [mkLigature 9 [7; 8]]].
Proof.
  split; [reflexivity|].
  destruct (proj1 rule_sets_layout (newParser ligature_subtable 0) _ _ _ _ eq_refl)
    as (count & offsets & Hc & _ & Hw & Hall & _).
  exists count, offsets. auto.
Defined.
(** * The count passed to the list reader by the rule callbacks *)

Lemma parseChainRuleOver_run (reader : option Z -> M (list Z)) (this this1 : Parser)
      (backtrack : list Z) (inputCount : Z) :
  reader None this = Return (backtrack, this1) ->
  getInt16 (data this1) (position this1) = Some inputCount ->
  parseChainRuleOver reader this
  = (input <- reader (Some (inputCount - 1));;
     lookahead <- reader None;;
     lookupRecords <- parseRecordList None lookupRecordDesc;;
     ret (mkChainRule backtrack input lookahead lookupRecords)) (advance 2 this1).
Proof.
  intros Hb Hv. unfold parseChainRuleOver.
  rewrite (bind_run _ _ _ _ _ Hb).
  unfold bind at 1. unfold parseShort. rewrite Hv. reflexivity.
Qed.

Lemma getInt16_high (d : DataView) (o count : Z) :
  getUint16 d o = Some count -> 32768 <= count -> getInt16 d o = Some (count - 65536).
Proof.
  intros H Hc. unfold getInt16. rewrite H.
  replace (count <? 32768) with false by (symmetry; apply Z.ltb_ge; lia).
  reflexivity.
Qed.

Lemma parseContextRuleOver_run (reader : option Z -> M (list Z)) (this : Parser)
      (glyphCount substCount : Z) :
  getUint16 (data this) (position this) = Some glyphCount ->
  getUint16 (data this) (position this + 2) = Some substCount ->
  parseContextRuleOver reader this
  = (input <- reader (Some (glyphCount - 1));;
     lookupRecords <- parseRecordList (Some substCount) lookupRecordDesc;;
     ret (mkContextRule input lookupRecords)) (advance 4 this) /\
  parseContextClassRuleOver reader this
  = (classes <- reader (Some (glyphCount - 1));;
     lookupRecords <- parseRecordList (Some substCount) lookupRecordDesc;;
     ret (mkContextClassRule classes lookupRecords)) (advance 4 this).
Proof.
  intros Hv Hs.
  assert (Hs' : getUint16 (data (advance 2 this)) (position (advance 2 this))
                = Some substCount)
    by (autorewrite with parser_state; exact Hs).
  split.
  - unfold parseContextRuleOver. read_format Hv. read_format Hs'.
    autorewrite with parser_state. reflexivity.
  - unfold parseContextClassRuleOver. read_format Hv. read_format Hs'.
    autorewrite with parser_state. reflexivity.
Qed.

(** The rules of a list of sets, each decoded by [item] at a parser over
    the buffer of [this]. *)
Lemma rule_sets_items {A : Type} (item : M A) (this p p' : Parser) (skip : Z)
      (sets : list (option (list A))) :
  stable item ->
  p = advance skip this ->
  parseListOfListsOf item p = Return (sets, p') ->
  Forall (fun set =>
            forall rules, set = Some rules ->
              Forall (fun rule =>
                        exists q q', sameBuffer this q /\ item q = Return (rule, q'))
                rules)
    sets.
Proof.
  intros Hs -> H.
  apply parseListOfListsOf_Return_items in H; [|exact Hs].
  eapply Forall_impl; [|exact H]. intros set Hset rules ->.
  eapply Forall_impl; [|exact (Hset rules eq_refl)].
  intros rule (q & Hq & q' & Hrule). exists q, q'. split; [|exact Hrule].
  exact (sameBuffer_trans _ _ _ (sameBuffer_advance this skip) Hq).
Qed.



(** * Failures abort the table decode *)

(** ** Lists of pointers *)

Lemma parsePointer_null {A : Type} (m : M A) (p : Parser) :
  getUint16 (data p) (position p) = Some 0 ->
  parsePointer m p = Return (None, advance 2 p).
Proof.
  intros H. unfold parsePointer, parseOffset16, parseUShort. rewrite H. reflexivity.
Qed.

Lemma parsePointer_run {A : Type} (m : M A) (p q : Parser) (structOffset : Z) (v : A) :
  getUint16 (data p) (position p) = Some structOffset ->
  0 < structOffset ->
  m (newParser (data p) (offset p + structOffset)) = Return (v, q) ->
  parsePointer m p = Return (Some v, advance 2 p).
Proof.
  intros H Hso Hm. unfold parsePointer, parseOffset16, parseUShort. rewrite H.
  replace (0 <? structOffset) with true by (symmetry; apply Z.ltb_lt; exact Hso).
  cbn [data offset advance]. rewrite Hm. reflexivity.
Qed.

Lemma parsePointer_Throw {A : Type} (m : M A) (p : Parser) (structOffset : Z) (e : exn) :
  getUint16 (data p) (position p) = Some structOffset ->
  0 < structOffset ->
  m (newParser (data p) (offset p + structOffset)) = Throw e ->
  parsePointer m p = Throw e.
Proof.
  intros H Hso Hm. unfold parsePointer, parseOffset16, parseUShort. rewrite H.
  replace (0 <? structOffset) with true by (symmetry; apply Z.ltb_lt; exact Hso).
  cbn [data offset advance]. rewrite Hm. reflexivity.
Qed.

(** The first item that throws ends the list with its exception. *)
Lemma repeatM_Throw_at {A : Type} (k : Z) (item : M A) (e : exn) :
  forall (j n : nat) (p : Parser),
    (j < n)%nat ->
    (forall i : nat, (i < j)%nat ->
       exists x, item (advance (k * Z.of_nat i) p)
                 = Return (x, advance (k * Z.of_nat (S i)) p)) ->
    item (advance (k * Z.of_nat j) p) = Throw e ->
    repeatM n item p = Throw e.
Proof.
  induction j as [|j IH]; intros [|n] p Hn Hbefore Hj; try lia; cbn [repeatM].
  - apply bind_Throw. rewrite Nat2Z.inj_0, Z.mul_0_r, <- advance_0 in Hj. exact Hj.
  - destruct (Hbefore 0%nat ltac:(lia)) as [x Hx].
    rewrite Nat2Z.inj_0, Z.mul_0_r, <- advance_0 in Hx.
    rewrite (bind_run _ _ _ _ _ Hx). apply bind_Throw.
    apply IH; [lia| |].
    + intros i Hi. destruct (Hbefore (S i) ltac:(lia)) as [y Hy]. exists y.
      autorewrite with parser_state.
      replace (k * Z.of_nat 1 + k * Z.of_nat i) with (k * Z.of_nat (S i)) by lia.
      replace (k * Z.of_nat 1 + k * Z.of_nat (S i)) with (k * Z.of_nat (S (S i))) by lia.
      exact Hy.
    + autorewrite with parser_state.
      replace (k * Z.of_nat 1 + k * Z.of_nat j) with (k * Z.of_nat (S j)) by lia.
      exact Hj.
Qed.

(** In a counted list of pointers, the first pointer whose routine
    throws ends the list with the exception of the routine. *)
Lemma parseList_pointers_Throw {A : Type} (m : M A) (this p : Parser) (skip count : Z)
      (j : nat) (e : exn) :
  p = advance skip this ->
  getUint16 (data this) (position this + skip) = Some count ->
  Z.of_nat j < count ->
  pointersReturn m this (position this + skip + 2) j ->
  pointerThrows m this (position this + skip + 2) j e ->
  parseList None (parsePointer m) p = Throw e.
Proof.
  intros -> Hc Hj Hbefore (so & Hso & Hpos & Hm).
  pose proof (getUint16_range _ _ _ Hc) as Hr.
  assert (Hc' : getUint16 (data (advance skip this)) (position (advance skip this))
                = Some count)
    by (autorewrite with parser_state; exact Hc).
  unfold parseList, countOrRead. read_format Hc'.
  unfold bind at 1. unfold newArray.
  replace ((0 <=? count) && (count <? 4294967296)) with true
    by (symmetry; apply andb_true_iff; split; [apply Z.leb_le|apply Z.ltb_lt]; lia).
  cbn [ret].
  apply (repeatM_Throw_at 2 _ e j); [lia| |].
  - intros i Hi. destruct (Hbefore i Hi) as (w & Hw & Hres).
    match goal with
    | |- exists x, parsePointer m ?P = Return (x, ?Q) =>
        replace Q with (advance 2 P) by (autorewrite with parser_state; f_equal; lia);
        assert (Hw' : getUint16 (data P) (position P) = Some w)
          by (autorewrite with parser_state; rewrite <- Hw; f_equal; lia);
        assert (Ho : offset P = offset this) by (autorewrite with parser_state; reflexivity);
        assert (Hd : data P = data this) by (autorewrite with parser_state; reflexivity)
    end.
    destruct Hres as [->|(Hw0 & v & q & Hv)].
    + exists None. now apply parsePointer_null.
    + exists (Some v). eapply parsePointer_run; [exact Hw'|exact Hw0|].
      rewrite Ho, Hd. exact Hv.
  - match goal with
    | |- parsePointer m ?P = _ =>
        assert (Hso' : getUint16 (data P) (position P) = Some so)
          by (autorewrite with parser_state; rewrite <- Hso; f_equal; lia);
        assert (Ho : offset P = offset this) by (autorewrite with parser_state; reflexivity);
        assert (Hd : data P = data this) by (autorewrite with parser_state; reflexivity)
    end.
    eapply parsePointer_Throw; [exact Hso'|exact Hpos|].
    rewrite Ho, Hd. exact Hm.
Qed.

(** ** The lookup directory *)

Lemma slotRoutine_Return (tbl : Z -> option (M Subtable)) (lookupType : Z) (p q : Parser)
      (v : Subtable) :
  slotRoutine tbl lookupType p = Return (v, q) ->
  callSlot (tbl lookupType) p = Return v.
Proof.
  unfold slotRoutine. destruct (callSlot (tbl lookupType) p); [|discriminate|discriminate].
  now intros [= -> _].
Qed.

Lemma slotRoutine_Throw (tbl : Z -> option (M Subtable)) (lookupType : Z) (p : Parser)
      (e : exn) :
  callSlot (tbl lookupType) p = Throw e -> slotRoutine tbl lookupType p = Throw e.
Proof. unfold slotRoutine. now intros ->. Qed.

(** The first subtable of a lookup table that fails makes the lookup
    table fail, with the same exception. *)
Lemma parseLookupTable_Throw (tbl : Z -> option (M Subtable)) (lookup : Parser)
      (k : nat) (e : exn) :
  subtableFails tbl lookup k e -> parseLookupTable tbl lookup = Throw e.
Proof.
  intros (t & flag & count & Ht & Hrange & Hflag & Hcount & Hk & Hbefore & Hthrows).
  assert (Hflag' : getUint16 (data (advance 2 lookup)) (position (advance 2 lookup))
                   = Some flag)
    by (autorewrite with parser_state; exact Hflag).
  unfold parseLookupTable. read_format Ht.
  replace ((1 <=? t) && (t <=? 8)) with true
    by (symmetry; apply andb_true_iff; split; apply Z.leb_le; lia).
  cbn [check_argument]. unfold bind at 1. cbn [ret].
  read_format Hflag'. cbv zeta.
  apply bind_Throw.
  apply (parseList_pointers_Throw (slotRoutine tbl t) lookup _ 4 count k e).
  - autorewrite with parser_state. reflexivity.
  - exact Hcount.
  - exact Hk.
  - replace (position lookup + 4 + 2) with (position lookup + 6) by lia. exact Hbefore.
  - replace (position lookup + 4 + 2) with (position lookup + 6) by lia. exact Hthrows.
Qed.

(** The first lookup table of the directory that fails makes the
    directory fail, with the same exception. *)
Lemma parseLookupList_Throw (tbl : Z -> option (M Subtable)) (p : Parser) (j : nat) (e : exn) :
  lookupFails tbl p j e -> parseLookupList tbl p = Throw e.
Proof.
  intros (D & count & HD & Hpos & Hcount & Hj & Hbefore & Hthrows).
  unfold parseLookupList.
  eapply parsePointer_Throw; [exact HD|exact Hpos|].
  apply (parseList_pointers_Throw (parseLookupTable tbl)
           (newParser (data p) (offset p + D)) _ 0 count j e).
  - apply advance_0.
  - rewrite Z.add_0_r. exact Hcount.
  - exact Hj.
  - rewrite Z.add_0_r. exact Hbefore.
  - rewrite Z.add_0_r. exact Hthrows.
Qed.

Lemma subtableOfLookupFails_lookupFails (tbl : Z -> option (M Subtable)) (p : Parser)
      (j k : nat) (e : exn) :
  subtableOfLookupFails tbl p j k e -> lookupFails tbl p j e.
Proof.
  intros (D & count & w & HD & Hpos & Hcount & Hj & Hbefore & Hw & Hw0 & Hfails).
  exists D, count. split; [exact HD|]. split; [exact Hpos|]. cbv zeta.
  split; [exact Hcount|]. split; [exact Hj|]. split; [exact Hbefore|].
  exists w. split; [exact Hw|]. split; [exact Hw0|].
  exact (parseLookupTable_Throw _ _ _ _ Hfails).
Qed.

(** A lookup table that is returned holds what its bytes say. *)
Lemma parseLookupTable_whole (tbl : Z -> option (M Subtable)) (lookup lookup' : Parser)
      (v : Lookup) :
  parseLookupTable tbl lookup = Return (v, lookup') -> lookupDecoded tbl lookup v.
Proof.
  unfold parseLookupTable. intros H.
  apply bind_Return in H as (t & p1 & Ht & H).
  apply bind_Return in H as ([] & p2 & Hck & H).
  apply bind_Return in H as (flag & p3 & Hflag & H).
  apply bind_Return in H as (sts & p4 & Hsts & H).
  apply bind_Return in H as (mfs & p5 & Hmfs & H).
  apply ret_Return in H as [-> _].
  apply check_argument_Return in Hck as [Hck Hp2].
  apply andb_true_iff in Hck as [H1 H8]. apply Z.leb_le in H1, H8.
  apply pair_equal_spec in Hp2 as [_ ->].
  apply parseUShort_Return in Ht as [Ht ->].
  apply (word_step lookup _ _ 2) in Hflag as [-> Hflag]; [|reflexivity].
  apply (pointerList_step (slotRoutine tbl t) lookup _ _ (2 + 2)) in Hsts
    as (count & Hcount & Hlen & Hlist & ->); [|reflexivity].
  unfold lookupDecoded. cbn [lookup_lookupType lookupFlag subtables markFilteringSet].
  split; [exact Ht|]. split; [lia|]. split; [exact Hflag|].
  split; [rewrite Hlen, <- Hcount; f_equal; lia|]. split.
  - intros k r Hr. destruct (Hlist k r Hr) as (so & Hso & Hres).
    exists so. split; [rewrite <- Hso; f_equal; lia|].
    destruct r as [st|]; [|exact Hres].
    destruct Hres as (Hpos & q & Hq). split; [exact Hpos|].
    exact (slotRoutine_Return _ _ _ _ _ Hq).
  - destruct (Z.land flag 16 =? 0) eqn:Em.
    + apply ret_Return in Hmfs as [-> _]. now apply Z.eqb_eq.
    + apply bind_Return in Hmfs as (set & p6 & Hset & Hmfs).
      apply ret_Return in Hmfs as [-> _].
      apply parseUShort_Return in Hset as [Hset _].
      split; [now apply Z.eqb_neq|].
      autorewrite with parser_state in Hset. rewrite <- Hset. f_equal. lia.
Qed.

(** A lookup directory that is returned holds what its bytes say. *)
Lemma parseLookupList_whole (tbl : Z -> option (M Subtable)) (p p' : Parser)
      (lookups : option (list (option Lookup))) :
  parseLookupList tbl p = Return (lookups, p') ->
  p' = advance 2 p /\ directoryDecoded tbl p lookups.
Proof.
  unfold parseLookupList. intros H.
  apply parsePointer_Return in H as (D & HD & -> & Hres).
  split; [reflexivity|]. exists D. split; [exact HD|].
  destruct lookups as [entries|]; [|exact Hres].
  destruct Hres as (Hpos & q & Hq). split; [exact Hpos|]. cbv zeta.
  apply (pointerList_step (parseLookupTable tbl) (newParser (data p) (offset p + D)) _ _ 0)
    in Hq as (count & Hcount & Hlen & Hlist & _); [|apply advance_0].
  rewrite Z.add_0_r in Hcount, Hlist.
  split; [rewrite Hlen; exact Hcount|].
  intros j r Hr. destruct (Hlist j r Hr) as (w & Hw & Hw').
  exists w. split; [exact Hw|].
  destruct r as [lookup|]; [|exact Hw'].
  destruct Hw' as (Hw0 & q' & Hq'). split; [exact Hw0|].
  exact (parseLookupTable_whole _ _ _ _ Hq').
Qed.

(** ** The nesting budget does not show in the outcome *)

Lemma bind_agree {A B : Type} (d : DataView) (m m' : M A) (k k' : A -> M B) :
  (forall p, data p = d -> m p = m' p) ->
  stable m ->
  (forall a p, data p = d -> k a p = k' a p) ->
  forall p, data p = d -> bind m k p = bind m' k' p.
Proof.
  intros Hm Hs Hk p Hp. unfold bind. rewrite <- (Hm p Hp).
  destruct (m p) as [[a q]| |] eqn:E; [|reflexivity|reflexivity].
  apply Hk. apply Hs in E as [-> _]. exact Hp.
Qed.

Lemma repeatM_agree {A : Type} (d : DataView) (item item' : M A) :
  (forall p, data p = d -> item p = item' p) ->
  stable item ->
  forall (n : nat) (p : Parser), data p = d -> repeatM n item p = repeatM n item' p.
Proof.
  intros Hi Hs. induction n as [|n IH]; intros p Hp; cbn [repeatM]; [reflexivity|].
  apply (bind_agree d); [exact Hi|exact Hs| |exact Hp].
  intros a q Hq. apply (bind_agree d); [exact IH|now apply stable_repeatM| |exact Hq].
  reflexivity.
Qed.

Lemma parseList_agree {A : Type} (d : DataView) (count : option Z) (item item' : M A) :
  (forall p, data p = d -> item p = item' p) ->
  stable item ->
  forall p, data p = d -> parseList count item p = parseList count item' p.
Proof.
  intros Hi Hs p Hp. unfold parseList.
  apply (bind_agree d); [reflexivity|apply stable_countOrRead| |exact Hp].
  intros c q Hq. apply (bind_agree d); [reflexivity|apply stable_newArray| |exact Hq].
  intros _ q' Hq'. now apply (repeatM_agree d).
Qed.

Lemma parsePointer_agree {A : Type} (d : DataView) (m m' : M A) :
  (forall o, m (newParser d o) = m' (newParser d o)) ->
  forall p, data p = d -> parsePointer m p = parsePointer m' p.
Proof.
  intros Hm p Hp. unfold parsePointer, parseOffset16, parseUShort.
  destruct (getUint16 (data p) (position p)) as [so|]; [|reflexivity].
  destruct (0 <? so); [|reflexivity].
  cbn [data offset advance]. rewrite Hp, Hm. reflexivity.
Qed.

Lemma parseLookupTable_agree (d : DataView) (tbl tbl' : Z -> option (M Subtable)) :
  (forall i o, callSlot (tbl i) (newParser d o) = callSlot (tbl' i) (newParser d o)) ->
  forall p, data p = d -> parseLookupTable tbl p = parseLookupTable tbl' p.
Proof.
  intros H p Hp. unfold parseLookupTable.
  apply (bind_agree d); [reflexivity|apply stable_parseUShort| |exact Hp].
  intros t p1 Hp1.
  apply (bind_agree d); [reflexivity|apply stable_check_argument| |exact Hp1].
  intros _ p2 Hp2.
  apply (bind_agree d); [reflexivity|apply stable_parseUShort| |exact Hp2].
  intros flag p3 Hp3. cbv zeta.
  apply (bind_agree d); [|apply stable_parseList, stable_parsePointer| |exact Hp3].
  - apply (parseList_agree d); [|apply stable_parsePointer].
    apply (parsePointer_agree d). intros o. rewrite H. reflexivity.
  - reflexivity.
Qed.

Lemma parseLookupList_agree (d : DataView) (tbl tbl' : Z -> option (M Subtable)) :
  (forall i o, callSlot (tbl i) (newParser d o) = callSlot (tbl' i) (newParser d o)) ->
  forall p, data p = d -> parseLookupList tbl p = parseLookupList tbl' p.
Proof.
  intros H p Hp. unfold parseLookupList.
  apply (parsePointer_agree d); [|exact Hp]. intros o.
  apply (parseList_agree d); [|apply stable_parsePointer|reflexivity].
  apply (parsePointer_agree d). intros o'.
  now apply (parseLookupTable_agree d).
Qed.

(** ** The table *)

Lemma gsub_cycle_OutOfFuel (fuel : nat) : parseGsub fuel gsub_cycle None = OutOfFuel.
Proof.
  pose proof (self_extension_OutOfFuel gsub_cycle 22 eq_refl fuel) as H. revert H.
  unfold parseGsub, parseGsubTable, parseGsubTableBody, parseLookupList.
  generalize (subtableParsers fuel). intros tbl H.
  cbv in H. cbv.
  destruct (tbl 7) as [f|]; [|discriminate H].
  destruct (f _) as [[v q]| |]; [discriminate H|discriminate H|reflexivity].
Qed.

(** C8, as stated, fails: the table [gsub_cycle] has version 1.0 and a
    lookup directory with one lookup of type 7 whose one subtable, at
    offset 22, is an extension of lookup type 7 at offset 0 -- itself.
    On this input the decode neither returns a table nor throws: every
    re-entry finds the same header again, whatever the nesting budget. *)
Lemma table_with_cycle_neither_returns_nor_throws :
  extensionHeader (newParser gsub_cycle 22) = Some (1, 7, 0) /\
  ~ (exists fuel : nat,
        (exists table, parseGsub fuel gsub_cycle None = Return table) \/
        (exists e, parseGsub fuel gsub_cycle None = Throw e)).
Proof.
  split; [reflexivity|].
  intros [fuel [[table H]|[e H]]]; rewrite gsub_cycle_OutOfFuel in H; discriminate H.
Qed.

Section WholeTable.

Variables ScriptList FeatureList : Type.
Variable parseVersion' : M Q.
Variable parseScriptList' : M ScriptList.
Variable parseFeatureList' : M FeatureList.

#[local] Abbreviation decode :=
  (parseGsubTable parseVersion' parseScriptList' parseFeatureList' parseLookupList).

Lemma parseGsubTable_ends (n fuel : nat) (d : DataView) (start : option Z) :
  total parseVersion' -> stable parseVersion' ->
  total parseScriptList' -> stable parseScriptList' ->
  total parseFeatureList' -> stable parseFeatureList' ->
  chainsWithin (S n) d = true ->
  (S n <= fuel)%nat ->
  decode fuel d start <> OutOfFuel.
Proof.
  intros HtV HsV HtS HsS HtF HsF Hchains Hfuel.
  assert (Hslots : forall i o,
             callSlot (subtableParsers fuel i) (newParser d o) <> OutOfFuel).
  { intros i o.
    apply (proj1 (nesting_budget (S n) i (newParser d o))); [|exact Hfuel].
    now apply chainsWithin_spec. }
  rewrite parseGsubTable_unfold.
  specialize (HtV (newParser d (startOffset start))).
  destruct (parseVersion' _) as [[v p1]| |] eqn:EV; [|discriminate|contradiction].
  apply HsV in EV as [D1 _]. cbn [data newParser] in D1.
  destruct (Qeq_bool v 1); [|discriminate].
  specialize (HtS p1).
  destruct (parseScriptList' p1) as [[s p2]| |] eqn:ES; [|discriminate|contradiction].
  apply HsS in ES as [D2 _].
  specialize (HtF p2).
  destruct (parseFeatureList' p2) as [[f p3]| |] eqn:EF; [|discriminate|contradiction].
  apply HsF in EF as [D3 _].
  pose proof (totalOn_parseLookupList d _ Hslots p3 ltac:(congruence)) as HL.
  destruct (parseLookupList _ p3) as [[l p4]| |]; [discriminate|discriminate|contradiction].
Qed.

Lemma parseGsubTable_budget (n fuel : nat) (d : DataView) (start : option Z) :
  stable parseVersion' -> stable parseScriptList' -> stable parseFeatureList' ->
  chainsWithin (S n) d = true ->
  (S n <= fuel)%nat ->
  decode fuel d start = decode (S n) d start.
Proof.
  intros HsV HsS HsF Hchains Hfuel.
  assert (Hslots : forall i o,
             callSlot (subtableParsers fuel i) (newParser d o)
             = callSlot (subtableParsers (S n) i) (newParser d o)).
  { intros i o.
    apply (proj1 (nesting_budget (S n) i (newParser d o))); [|exact Hfuel].
    now apply chainsWithin_spec. }
  rewrite !parseGsubTable_unfold.
  destruct (parseVersion' _) as [[v p1]| |] eqn:EV; [|reflexivity|reflexivity].
  apply HsV in EV as [D1 _]. cbn [data newParser] in D1.
  destruct (Qeq_bool v 1); [|reflexivity].
  destruct (parseScriptList' p1) as [[s p2]| |] eqn:ES; [|reflexivity|reflexivity].
  apply HsS in ES as [D2 _].
  destruct (parseFeatureList' p2) as [[f p3]| |] eqn:EF; [|reflexivity|reflexivity].
  apply HsF in EF as [D3 _].
  rewrite (parseLookupList_agree d _ _ Hslots p3 ltac:(congruence)). reflexivity.
Qed.

(** C8, amended: on an input whose chains of type 7 indirections are
    finite, the table decode either returns a table or throws, and
    which of the two, with which table or exception, does not depend on
    the nesting budget once it covers the chains (for version, script
    and feature decoders that end and only move the cursor).  A table that is returned is whole: the version decoder,
    the version check and the three directory decoders have all
    returned, the table is made of their results, and its lookup
    directory holds one entry per offset word of the directory and, in
    each lookup table, one subtable per offset word of the lookup table,
    [undefined] only for a null offset word and otherwise the value that
    was decoded at the offset.  A failure at any depth is the failure of
    the whole decode, with the same exception: an exception thrown by
    the version, script, feature or lookup directory decoder, by the
    first lookup table of the directory that fails, or by the first
    subtable of that lookup table that fails, is thrown unchanged by the
    table decode; the first subtable that fails makes its lookup table
    throw the same exception and the first lookup table that fails makes
    the directory throw it; and an exception thrown by the routine that
    an extension subtable re-enters is thrown unchanged by
    [parseLookup7] and by the dispatch slot of lookup type 7.  An
    exception that the table decode throws is the one of the first of
    the four decoders that threw, or the version error. *)
Theorem decode_returns_whole_table_or_throws :
  (forall (n fuel : nat) (d : DataView) (start : option Z),
      total parseVersion' -> stable parseVersion' ->
      total parseScriptList' -> stable parseScriptList' ->
      total parseFeatureList' -> stable parseFeatureList' ->
      chainsWithin (S n) d = true ->
      (S n <= fuel)%nat ->
      ((exists table, decode fuel d start = Return table) \/
       (exists e, decode fuel d start = Throw e)) /\
      decode fuel d start = decode (S n) d start) /\
  (forall (fuel : nat) (d : DataView) (start : option Z) table,
      decode fuel d start = Return table ->
      exists p1 p2 p3,
        parseVersion' (newParser d (startOffset start)) = Return (version table, p1) /\
        Qeq_bool (version table) 1 = true /\
        parseScriptList' p1 = Return (scripts table, p2) /\
        parseFeatureList' p2 = Return (features table, p3) /\
        parseLookupList (subtableParsers fuel) p3 = Return (lookups table, advance 2 p3) /\
        directoryDecoded (subtableParsers fuel) p3 (lookups table)) /\
  (forall (fuel : nat) (d : DataView) (start : option Z) (e : exn),
      (parseVersion' (newParser d (startOffset start)) = Throw e \/
       exists tableVersion p1,
         parseVersion' (newParser d (startOffset start)) = Return (tableVersion, p1) /\
         Qeq_bool tableVersion 1 = true /\
         (parseScriptList' p1 = Throw e \/
          exists scripts p2,
            parseScriptList' p1 = Return (scripts, p2) /\
            (parseFeatureList' p2 = Throw e \/
             exists features p3,
               parseFeatureList' p2 = Return (features, p3) /\
               (parseLookupList (subtableParsers fuel) p3 = Throw e \/
                (exists j, lookupFails (subtableParsers fuel) p3 j e) \/
                (exists j k, subtableOfLookupFails (subtableParsers fuel) p3 j k e))))) ->
      decode fuel d start = Throw e) /\
  (forall (tbl : Z -> option (M Subtable)) (lookup : Parser) (k : nat) (e : exn),
      subtableFails tbl lookup k e -> parseLookupTable tbl lookup = Throw e) /\
  (forall (tbl : Z -> option (M Subtable)) (p : Parser) (j : nat) (e : exn),
      lookupFails tbl p j e -> parseLookupList tbl p = Throw e) /\
  (forall (tbl : Z -> option (M Subtable)) (this : Parser)
          (substFormat extensionLookupType extensionOffset : Z) (e : exn),
      extensionHeader this = Some (substFormat, extensionLookupType, extensionOffset) ->
      callSlot (tbl extensionLookupType)
        (newParser (data this) (offset this + extensionOffset)) = Throw e ->
      parseLookup7 tbl this = Throw e) /\
  (forall (fuel : nat) (this : Parser)
          (substFormat extensionLookupType extensionOffset : Z) (e : exn),
      extensionHeader this = Some (substFormat, extensionLookupType, extensionOffset) ->
      callSlot (subtableParsers fuel extensionLookupType)
        (newParser (data this) (offset this + extensionOffset)) = Throw e ->
      callSlot (subtableParsers (S fuel) 7) this = Throw e /\
      slotRoutine (subtableParsers (S fuel)) 7 this = Throw e) /\
  (forall (fuel : nat) (d : DataView) (start : option Z) (e : exn),
      decode fuel d start = Throw e ->
      parseVersion' (newParser d (startOffset start)) = Throw e \/
      exists tableVersion p1,
        parseVersion' (newParser d (startOffset start)) = Return (tableVersion, p1) /\
        ((Qeq_bool tableVersion 1 = false /\ e = Error "Unsupported GSUB table version.") \/
         parseScriptList' p1 = Throw e \/
         exists scripts p2,
           parseScriptList' p1 = Return (scripts, p2) /\
           (parseFeatureList' p2 = Throw e \/
            exists features p3,
              parseFeatureList' p2 = Return (features, p3) /\
              parseLookupList (subtableParsers fuel) p3 = Throw e))).
Proof.
  assert (Hext : forall (tbl : Z -> option (M Subtable)) (this : Parser) (f t k : Z) (e : exn),
             extensionHeader this = Some (f, t, k) ->
             callSlot (tbl t) (newParser (data this) (offset this + k)) = Throw e ->
             parseLookup7 tbl this = Throw e).
  { intros tbl this f t k e Hh He.
    rewrite (parseLookup7_header_Some _ _ _ _ Hh), He. reflexivity. }
  split; [|split; [|split; [|split; [|split; [|split; [|split]]]]]].
  - intros n fuel d start HtV HsV HtS HsS HtF HsF Hchains Hfuel.
    pose proof (parseGsubTable_ends n fuel d start HtV HsV HtS HsS HtF HsF Hchains Hfuel)
      as Hends.
    split; [|now apply parseGsubTable_budget].
    destruct (decode fuel d start) as [table|e|]; [left|right|contradiction]; eauto.
  - intros fuel d start table Hrun.
    pose proof (parseGsubTable_outcome _ _ _ parseVersion' parseScriptList'
                  parseFeatureList' parseLookupList fuel d start) as H.
    rewrite Hrun in H. destruct H as (p1 & p2 & p3 & p4 & HV & Hck & HS & HF & HL).
    destruct (parseLookupList_whole _ _ _ _ HL) as [-> Hwhole].
    exists p1, p2, p3. auto 10.
  - intros fuel d start e H. rewrite parseGsubTable_unfold.
    destruct H as [->|(v & p1 & -> & -> & H)]; [reflexivity|].
    destruct H as [->|(s & p2 & -> & H)]; [reflexivity|].
    destruct H as [->|(f & p3 & -> & H)]; [reflexivity|].
    assert (HL : parseLookupList (subtableParsers fuel) p3 = Throw e).
    { destruct H as [H|[[j H]|(j & k & H)]].
      - exact H.
      - exact (parseLookupList_Throw _ _ _ _ H).
      - exact (parseLookupList_Throw _ _ _ _ (subtableOfLookupFails_lookupFails _ _ _ _ _ H)). }
    rewrite HL. reflexivity.
  - apply parseLookupTable_Throw.
  - apply parseLookupList_Throw.
  - exact Hext.
  - intros fuel this f t k e Hh He.
    assert (Hslot : callSlot (subtableParsers (S fuel) 7) this = Throw e).
    { rewrite subtableParsers_slot7. cbn [callSlot].
      rewrite (Hext _ _ _ _ _ _ Hh He). reflexivity. }
    split; [exact Hslot|]. now apply slotRoutine_Throw.
  - intros fuel d start e Hrun.
    pose proof (parseGsubTable_outcome _ _ _ parseVersion' parseScriptList'
                  parseFeatureList' parseLookupList fuel d start) as H.
    rewrite Hrun in H. exact H.
Qed.

End WholeTable.

Lemma decode_returns_whole_table_or_throws_witness :
  chainsWithin 1 gsub_format4 = true /\
  ((exists table, parseGsub 1 gsub_format4 None = Return table) \/
   (exists e, parseGsub 1 gsub_format4 None = Throw e)) /\
  parseGsub 3 gsub_format4 None = parseGsub 1 gsub_format4 None /\
  extensionHeader (newParser gsub_format4 22) = Some (1, 5, 8) /\
  callSlot (subtableParsers 0 5) (newParser gsub_format4 30)
  = Throw (Error "0x1e: lookup type 5 format must be 1, 2 or 3.") /\
  subtableOfLookupFails (subtableParsers 1) (advance 8 (newParser gsub_format4 0)) 0 0
    (Error "0x1e: lookup type 5 format must be 1, 2 or 3.") /\
  parseGsub 1 gsub_format4 None
  = Throw (Error "0x1e: lookup type 5 format must be 1, 2 or 3.") /\
  parseGsub 1 gsub_table None
  = Return (mkTable (40960 # 40960) None None
              (Some [Some (mkLookup 7 0
                             [Some (Extension 1 1
                                      (Single1 1 (Some (CoverageFormat1 [5])) 65535))]
                             None)])) /\
  directoryDecoded (subtableParsers 1) (advance 8 (newParser gsub_table 0))
    (Some [Some (mkLookup 7 0
                   [Some (Extension 1 1 (Single1 1 (Some (CoverageFormat1 [5])) 65535))]
                   None)]).
Proof.
  pose proof (decode_returns_whole_table_or_throws _ _ parseVersion parseScriptList
                parseFeatureList) as (Hends & Hwhole & Hfail & _ & _ & _ & Hslot & _).
  assert (Hsub : subtableOfLookupFails (subtableParsers 1)
                   (advance 8 (newParser gsub_format4 0)) 0 0
                   (Error "0x1e: lookup type 5 format must be 1, 2 or 3.")).
  { exists 10, 1, 4. split; [reflexivity|]. split; [reflexivity|]. cbv zeta.
    split; [reflexivity|]. split; [reflexivity|].
    split; [intros i Hi; exfalso; exact (Nat.nlt_0_r i Hi)|].
    split; [reflexivity|]. split; [reflexivity|].
    exists 7, 0, 1. split; [reflexivity|]. split; [split; discriminate|].
    split; [reflexivity|]. split; [reflexivity|]. split; [reflexivity|].
    split; [intros i Hi; exfalso; exact (Nat.nlt_0_r i Hi)|].
    exists 8. split; [reflexivity|]. split; [reflexivity|].
    exact (proj2 (Hslot 0%nat (newParser gsub_format4 22) 1 5 8 _ eq_refl eq_refl)). }
  split; [reflexivity|]. split; [|split; [|split; [reflexivity|split; [reflexivity|split;
    [exact Hsub|split; [|split; [reflexivity|]]]]]]].
  - exact (proj1 (Hends 0%nat 1%nat gsub_format4 None
                    total_parseVersion stable_parseVersion
                    total_parseScriptList (stable_parsePointer (ret tt))
                    total_parseScriptList (stable_parsePointer (ret tt))
                    eq_refl (le_n 1))).
  - exact (proj2 (Hends 0%nat 3%nat gsub_format4 None
                    total_parseVersion stable_parseVersion
                    total_parseScriptList (stable_parsePointer (ret tt))
                    total_parseScriptList (stable_parsePointer (ret tt))
                    eq_refl (le_S _ _ (le_S _ _ (le_n 1))))).
  - apply (Hfail 1%nat gsub_format4 None). right.
    exists (40960 # 40960), (advance 4 (newParser gsub_format4 0)).
    split; [reflexivity|]. split; [reflexivity|]. right.
    exists None, (advance 6 (newParser gsub_format4 0)). split; [reflexivity|]. right.
    exists None, (advance 8 (newParser gsub_format4 0)). split; [reflexivity|].
    right. right. exists 0%nat, 0%nat. exact Hsub.
  - destruct (Hwhole 1%nat gsub_table None _ eq_refl)
      as (p1 & p2 & p3 & HV & _ & HS & HF & _ & Hdir).
    apply Return_pair in HV as [_ <-]. apply Return_pair in HS as [_ <-].
    apply Return_pair in HF as [_ <-]. exact Hdir.
Defined.

